(** * PriceTax-AI: the ledger extraction and reconciliation core

    A shallow embedding of the TypeScript sources
    [src/lib/contabilParser.ts], [src/lib/normalizeBase.ts],
    [src/lib/kpiEngine.ts], [src/lib/exactTruth.ts] and
    [src/lib/analyzeEngine.ts], with the properties of the
    specification stated and proved over it.

    Conventions of the embedding.
    - A JavaScript string is a list of code units; the alphabet is
      restricted to the Latin-1 range (one [ascii] per code unit), which
      contains every literal the sources compare against.
    - A JavaScript number is [NaN], an infinity, the negative zero, or a
      finite value; a finite double is idealised as the rational it stands
      for, so IEEE rounding and overflow are outside the model. Where the
      sources guard a number with [Number.isFinite], the guarded result is
      a rational, and the sign of a zero is not kept in it.
    - A value of TypeScript type [any] stored in a row is one of the
      shapes the pipeline produces: absent, a number, a string, or a
      [{raw, value}] pair. *)

From Stdlib Require Import Ascii String.
From Stdlib Require Import List ZArith QArith Qabs Qround Qminmax.
From Stdlib Require Import Bool Arith Lia Lqa Permutation Sorted.
Import ListNotations.

Local Open Scope Z_scope.

(* ================================================================== *)
(** * JavaScript built-ins used by the sources *)
(* ================================================================== *)

Module JS.

(** ** Strings *)

Definition jsstring := list ascii.

Definition str (s : string) : jsstring := list_ascii_of_string s.

Definition charCode (c : ascii) : N := N_of_ascii c.

Definition chr (n : N) : ascii := ascii_of_N n.

Definition ascii_eqb (a b : ascii) : bool := Ascii.eqb a b.

Fixpoint str_eqb (a b : jsstring) : bool :=
  match a, b with
  | [], [] => true
  | x :: a', y :: b' => ascii_eqb x y && str_eqb a' b'
  | _, _ => false
  end.

(** [s.startsWith(p)] *)
Fixpoint startsWith (p s : jsstring) : bool :=
  match p, s with
  | [], _ => true
  | x :: p', y :: s' => ascii_eqb x y && startsWith p' s'
  | _ :: _, [] => false
  end.

(** [s.endsWith(p)] *)
Definition endsWith (p s : jsstring) : bool := startsWith (rev p) (rev s).

(** [s.indexOf(p)], [None] standing for -1 *)
Fixpoint indexOf_from (p s : jsstring) (i : nat) : option nat :=
  if startsWith p s then Some i
  else match s with
       | [] => None
       | _ :: s' => indexOf_from p s' (S i)
       end.

Definition indexOf (p s : jsstring) : option nat := indexOf_from p s 0.

(** [s.includes(p)] *)
Definition includes (p s : jsstring) : bool :=
  match indexOf p s with Some _ => true | None => false end.

(** The characters matched by [\s] (and removed by [trim]) in the Latin-1
    range: TAB, LF, VT, FF, CR, SPACE and NBSP. *)
Definition isWs (c : ascii) : bool :=
  let n := charCode c in
  ((9 <=? n) && (n <=? 13) || (n =? 32) || (n =? 160))%N.

Fixpoint dropWhile (p : ascii -> bool) (s : jsstring) : jsstring :=
  match s with
  | [] => []
  | c :: s' => if p c then dropWhile p s' else s
  end.

Fixpoint takeWhile (p : ascii -> bool) (s : jsstring) : jsstring :=
  match s with
  | [] => []
  | c :: s' => if p c then c :: takeWhile p s' else []
  end.

Definition trimStart (s : jsstring) : jsstring := dropWhile isWs s.
Definition trimEnd (s : jsstring) : jsstring := rev (dropWhile isWs (rev s)).
Definition trim (s : jsstring) : jsstring := trimEnd (trimStart s).

(** [s.replace(/\s+/g, " ")]: every maximal run of white space becomes one
    space. *)
Fixpoint collapseWs_from (inRun : bool) (s : jsstring) : jsstring :=
  match s with
  | [] => []
  | c :: s' =>
      if isWs c then
        if inRun then collapseWs_from true s'
        else " "%char :: collapseWs_from true s'
      else c :: collapseWs_from false s'
  end.

Definition collapseWs (s : jsstring) : jsstring := collapseWs_from false s.

(** [s.slice(0, n)] and [s.slice(n)] *)
Definition sliceTo (n : nat) (s : jsstring) : jsstring := firstn n s.
Definition sliceFrom (n : nat) (s : jsstring) : jsstring := skipn n s.

(** [s.replace(p, e)] for a string pattern [p] and the empty string [e]:
    the first occurrence of [p] is removed. *)
Definition removeFirst (p s : jsstring) : jsstring :=
  match indexOf p s with
  | Some i => firstn i s ++ skipn (i + List.length p) s
  | None => s
  end.

(** [s.replace(a, b)] for one-character strings: the first [a] becomes
    [b]. *)
Fixpoint replaceFirstChar (a b : ascii) (s : jsstring) : jsstring :=
  match s with
  | [] => []
  | c :: s' => if ascii_eqb c a then b :: s' else c :: replaceFirstChar a b s'
  end.

(** [s.replace(/c/g, e)] for a class of characters [c] and the empty
    string [e] *)
Definition removeAll (p : ascii -> bool) (s : jsstring) : jsstring :=
  filter (fun c => negb (p c)) s.

(** [s.toUpperCase()] on Latin-1 text. The sharp s becomes [SS]; the two
    letters whose capital lies outside Latin-1 (the micro sign and the y
    with diaeresis) are kept, which no comparison of the sources against
    an upper-case literal can tell apart. *)
Definition upperChar (c : ascii) : jsstring :=
  let n := charCode c in
  if ((97 <=? n) && (n <=? 122))%N then [chr (n - 32)]
  else if (n =? 223)%N then ["S"%char; "S"%char]
  else if ((224 <=? n) && (n <=? 254) && negb (n =? 247))%N then [chr (n - 32)]
  else [c].

Definition toUpperCase (s : jsstring) : jsstring := flat_map upperChar s.

(** [s.normalize("NFD")] followed by the removal of the combining marks
    U+0300 to U+036F, on Latin-1 text:
    a letter with a canonical decomposition loses its accent, every other
    character is kept. *)
Definition foldAccentChar (c : ascii) : ascii :=
  let n := charCode c in
  let pick (up : ascii) (lo : ascii) : ascii :=
    if (n <? 224)%N then up else lo in
  let m := if (n <? 224)%N then n else (n - 32)%N in
  if (n <? 192)%N then c
  else if (m <=? 197)%N then pick "A"%char "a"%char
  else if (m =? 198)%N then c
  else if (m =? 199)%N then pick "C"%char "c"%char
  else if (m <=? 203)%N then pick "E"%char "e"%char
  else if (m <=? 207)%N then pick "I"%char "i"%char
  else if (m =? 208)%N then c
  else if (m =? 209)%N then pick "N"%char "n"%char
  else if (m <=? 214)%N then pick "O"%char "o"%char
  else if (m <=? 216)%N then c
  else if (m <=? 220)%N then pick "U"%char "u"%char
  else if (m =? 221)%N then pick "Y"%char "y"%char
  else if (n =? 255)%N then "y"%char
  else c.

Definition stripAccents (s : jsstring) : jsstring := map foldAccentChar s.

(** [\d] *)
Definition isDigit (c : ascii) : bool :=
  let n := charCode c in ((48 <=? n) && (n <=? 57))%N.

Definition digitVal (c : ascii) : Z := Z.of_N (charCode c) - 48.

(** The number denoted by a run of decimal digits, most significant first. *)
Definition digitsVal (ds : jsstring) : Z :=
  fold_left (fun acc c => 10 * acc + digitVal c) ds 0.

(** [\w] *)
Definition isWordChar (c : ascii) : bool :=
  let n := charCode c in
  (isDigit c || ((65 <=? n) && (n <=? 90)) || ((97 <=? n) && (n <=? 122))
   || (n =? 95))%N.

(** Line terminators, which [.] does not match *)
Definition isLineTerminator (c : ascii) : bool :=
  let n := charCode c in ((n =? 10) || (n =? 13))%N.

(** Truthiness of a string *)
Definition nonEmpty (s : jsstring) : bool :=
  match s with [] => false | _ => true end.

(** ** Numbers *)

(** [NegZero] is the zero with the sign bit set, which [0 * -1] gives;
    [Fin 0] is the positive zero. *)
Inductive number : Type :=
| NaN
| PInf
| NInf
| NegZero
| Fin (q : Q).

Definition isFinite (n : number) : bool :=
  match n with NegZero | Fin _ => true | _ => false end.

Definition Qltb (a b : Q) : bool := negb (Qle_bool b a).
Definition Qleb (a b : Q) : bool := Qle_bool a b.
Definition Qeqb (a b : Q) : bool := Qeq_bool a b.

(** The rational a finite number stands for, a zero of either sign being
    0; and 0 for a number that is not finite, as in the sources' idiom
    [Number.isFinite(v) ? v : 0] *)
Definition finiteOr0 (n : number) : Q :=
  match n with Fin q => q | _ => 0 end.


(** [x * s] for a finite factor [s] that is not zero; the sign of a zero
    product is the product of the signs. *)
Definition num_scale (x : number) (s : Q) : number :=
  match x with
  | NaN => NaN
  | PInf => if Qltb s 0 then NInf else PInf
  | NInf => if Qltb s 0 then PInf else NInf
  | NegZero => if Qltb s 0 then Fin 0 else NegZero
  | Fin q =>
      if Qeqb q 0 then (if Qltb s 0 then NegZero else Fin 0)
      else Fin (q * s)
  end.

(** [Math.abs] *)
Definition num_abs (x : number) : number :=
  match x with
  | NaN => NaN
  | PInf | NInf => PInf
  | NegZero => Fin 0
  | Fin q => Fin (Qabs q)
  end.

(** In comparisons the two zeros are the same number. *)
Definition unsigned0 (x : number) : number :=
  match x with NegZero => Fin 0 | _ => x end.

(** [a < b]; any comparison with [NaN] is false *)
Definition num_ltb (a b : number) : bool :=
  match unsigned0 a, unsigned0 b with
  | NaN, _ | _, NaN => false
  | PInf, _ => false
  | _, NInf => false
  | NInf, _ => true
  | _, PInf => true
  | Fin x, Fin y => Qltb x y
  | _, _ => false
  end.

Definition num_gtb (a b : number) : bool := num_ltb b a.

Definition num_eqb (a b : number) : bool :=
  match unsigned0 a, unsigned0 b with
  | PInf, PInf | NInf, NInf => true
  | Fin x, Fin y => Qeqb x y
  | _, _ => false
  end.

Definition num_leb (a b : number) : bool := num_ltb a b || num_eqb a b.
Definition num_geb (a b : number) : bool := num_leb b a.

(** [Math.max(a, b)]; the positive zero counts as the larger zero. *)
Definition num_max (a b : number) : number :=
  match a, b with
  | NaN, _ | _, NaN => NaN
  | PInf, _ | _, PInf => PInf
  | NInf, x | x, NInf => x
  | NegZero, NegZero => NegZero
  | NegZero, Fin y => Fin (Qmax 0 y)
  | Fin x, NegZero => Fin (Qmax x 0)
  | Fin x, Fin y => Fin (Qmax x y)
  end.

(** Truthiness of a number: the zeros and [NaN] are falsy. *)
Definition num_truthy (a : number) : bool :=
  match a with
  | NaN | NegZero => false
  | PInf | NInf => true
  | Fin q => negb (Qeqb q 0)
  end.

(** ** [Number(s)] on a string: the StringToNumber grammar *)

Definition isHexDigit (c : ascii) : bool :=
  let n := charCode c in
  (isDigit c || ((65 <=? n) && (n <=? 70)) || ((97 <=? n) && (n <=? 102)))%N.

Definition hexVal (c : ascii) : Z :=
  let n := Z.of_N (charCode c) in
  if isDigit c then n - 48 else if n <=? 70 then n - 55 else n - 87.

Definition isOctDigit (c : ascii) : bool :=
  let n := charCode c in ((48 <=? n) && (n <=? 55))%N.

Definition isBinDigit (c : ascii) : bool :=
  let n := charCode c in ((48 <=? n) && (n <=? 49))%N.

Definition radixVal (r : Z) (ds : jsstring) : Z :=
  fold_left (fun acc c => r * acc + hexVal c) ds 0.

Definition pow10 (n : nat) : positive := Pos.pow 10 (Pos.of_nat n).

Definition tenPow (n : nat) : positive :=
  match n with O => 1%positive | _ => pow10 n end.

(** ExponentPart: [e] or [E], an optional sign, at least one digit, and
    nothing after it. *)
Definition parseExponent (s : jsstring) : option Z :=
  match s with
  | [] => Some 0
  | e :: t =>
      if ascii_eqb e "e" || ascii_eqb e "E" then
        let '(neg, ds) :=
          match t with
          | c :: t' =>
              if ascii_eqb c "-" then (true, t')
              else if ascii_eqb c "+" then (false, t')
              else (false, t)
          | [] => (false, t)
          end in
        match ds with
        | [] => None
        | _ => if forallb isDigit ds
               then Some (if neg then - digitsVal ds else digitsVal ds)
               else None
        end
      else None
  end.

(** StrUnsignedDecimalLiteral *)
Definition parseUnsignedDecimal (s : jsstring) : number :=
  if str_eqb s (str "Infinity") then PInf
  else
    let ip := takeWhile isDigit s in
    let r1 := dropWhile isDigit s in
    let '(fp, r2) :=
      match r1 with
      | c :: t =>
          if ascii_eqb c "." then (takeWhile isDigit t, dropWhile isDigit t)
          else ([], r1)
      | [] => ([], r1)
      end in
    match ip, fp with
    | [], [] => NaN
    | _, _ =>
        match parseExponent r2 with
        | None => NaN
        | Some e =>
            Fin ((digitsVal (ip ++ fp) # tenPow (List.length fp)) * Qpower 10 e)
        end
    end.

(** NonDecimalIntegerLiteral: [0x], [0o] and [0b] prefixes *)
Definition parseNonDecimal (s : jsstring) : option number :=
  match s with
  | z :: x :: ds =>
      if ascii_eqb z "0" then
        let lit (ok : ascii -> bool) (r : Z) :=
          match ds with
          | [] => Some NaN
          | _ => if forallb ok ds
                 then Some (Fin (inject_Z (radixVal r ds)))
                 else Some NaN
          end in
        if ascii_eqb x "x" || ascii_eqb x "X" then lit isHexDigit 16
        else if ascii_eqb x "o" || ascii_eqb x "O" then lit isOctDigit 8
        else if ascii_eqb x "b" || ascii_eqb x "B" then lit isBinDigit 2
        else None
      else None
  | _ => None
  end.

(** [Number(s)] for a string [s] *)
Definition Number_of_string (s : jsstring) : number :=
  let t := trim s in
  match t with
  | [] => Fin 0
  | c :: t' =>
      match parseNonDecimal t with
      | Some n => n
      | None =>
          if ascii_eqb c "-" then num_scale (parseUnsignedDecimal t') (-1)
          else if ascii_eqb c "+" then parseUnsignedDecimal t'
          else parseUnsignedDecimal t
      end
  end.

(** [Math.round(n * 100) / 100] as in the sources' [brRound]; [Math.round]
    rounds half up. *)
Definition brRound (n : Q) : Q :=
  Qred (inject_Z (Qfloor (n * 100 + (1 # 2))) / 100).

End JS.

(* ================================================================== *)
(** * src/lib/contabilParser.ts *)
(* ================================================================== *)

Module ContabilParser.
Import JS.

Record MoneyBR : Type := mkMoney {
  raw : jsstring;
  value : number
}.

Inductive Group : Type := ATIVO | PASSIVO | DRE | OUTROS.

Definition Group_eqb (a b : Group) : bool :=
  match a, b with
  | ATIVO, ATIVO | PASSIVO, PASSIVO | DRE, DRE | OUTROS, OUTROS => true
  | _, _ => false
  end.

Definition groupName (g : Group) : jsstring :=
  match g with
  | ATIVO => str "ATIVO"
  | PASSIVO => str "PASSIVO"
  | DRE => str "DRE"
  | OUTROS => str "OUTROS"
  end.

Record ContabilRow : Type := mkRow {
  rawLine : jsstring;
  group : option Group;
  code : option jsstring;
  description : option jsstring;
  classification : option jsstring;
  saldoAtual : option MoneyBR;
  saldoAnterior : option MoneyBR;
  debito : option MoneyBR;
  credito : option MoneyBR
}.

Record ContabilParseResult : Type := mkResult {
  rows : list ContabilRow;
  warnings : list jsstring
}.

Definition nbsp : ascii := chr 160.

Definition cleanSpaces (s : jsstring) : jsstring :=
  trim (collapseWs
          (map (fun c => if ascii_eqb c nbsp then " "%char else c) s)).

(** [.replace(/(,\d{2})(?=\d)/g, "$1 ")]: a space goes after every comma
    with two digits that a third digit follows. *)
Fixpoint unglueAfterCents (s : jsstring) : jsstring :=
  match s with
  | [] => []
  | c0 :: tl =>
      match tl with
      | a :: b :: rest =>
          if ascii_eqb c0 "," && isDigit a && isDigit b
             && match rest with c :: _ => isDigit c | [] => false end
          then c0 :: a :: b :: " "%char :: unglueAfterCents rest
          else c0 :: unglueAfterCents tl
      | _ => c0 :: unglueAfterCents tl
      end
  end.

(** [.replace(/(\))(?=\d)/g, "$1 ")] *)
Fixpoint unglueAfterParen (s : jsstring) : jsstring :=
  match s with
  | [] => []
  | c0 :: tl =>
      if ascii_eqb c0 ")"
         && match tl with c :: _ => isDigit c | [] => false end
      then c0 :: " "%char :: unglueAfterParen tl
      else c0 :: unglueAfterParen tl
  end.

Definition unglueMoneyTokens (line : jsstring) : jsstring :=
  collapseWs (unglueAfterParen (unglueAfterCents line)).

Definition isParenChar (c : ascii) : bool :=
  ascii_eqb c "(" || ascii_eqb c ")".
Definition isMinus (c : ascii) : bool := ascii_eqb c "-".
Definition isDot (c : ascii) : bool := ascii_eqb c ".".

Definition parseMoneyBR (token : jsstring) : option MoneyBR :=
  let raw := cleanSpaces token in
  if negb (nonEmpty raw) then None
  else
    let sign : Q := 1%Q in
    let sign := if startsWith (str "(") raw && endsWith (str ")") raw
                then (-1)%Q else sign in
    let sign := if endsWith (str "-") raw then (-1)%Q else sign in
    let sign := if startsWith (str "-") raw then (-1)%Q else sign in
    let normalized := trim (removeAll isMinus (removeAll isParenChar raw)) in
    let value :=
      Number_of_string
        (replaceFirstChar "," "." (removeAll isDot normalized)) in
    if negb (isFinite value) then None
    else Some (mkMoney raw (num_scale value sign)).


(** ** The monetary token pattern

    [moneyTokenRe = /\(?-?\d{1,3}(?:\.\d{3})*,\d{2}\)?-?/g]. Whatever
    follows the leading digits must be a dot or the comma, so the greedy
    quantifiers never give back a character that lets a match succeed:
    the match at a position is the maximal-munch one, or there is none. *)

Definition takeOpt (c : ascii) (s : jsstring) : jsstring * jsstring :=
  match s with
  | x :: t => if ascii_eqb x c then ([x], t) else ([], s)
  | [] => ([], s)
  end.

Fixpoint thousandsGroups (s : jsstring) : jsstring * jsstring :=
  match s with
  | d :: a :: b :: c :: rest =>
      if isDot d && isDigit a && isDigit b && isDigit c
      then let '(g, r) := thousandsGroups rest in (d :: a :: b :: c :: g, r)
      else ([], s)
  | _ => ([], s)
  end.

(** The match of [moneyTokenRe] that starts at the head of [s], if any *)
Definition matchMoneyAt (s : jsstring) : option jsstring :=
  let '(lp, s1) := takeOpt "(" s in
  let '(lm, s2) := takeOpt "-" s1 in
  let ds := takeWhile isDigit s2 in
  let s3 := dropWhile isDigit s2 in
  if ((1 <=? List.length ds) && (List.length ds <=? 3))%nat then
    let '(gs, s4) := thousandsGroups s3 in
    match s4 with
    | comma :: a :: b :: s5 =>
        if ascii_eqb comma "," && isDigit a && isDigit b then
          let '(rp, s6) := takeOpt ")" s5 in
          let '(tm, _) := takeOpt "-" s6 in
          Some (lp ++ lm ++ ds ++ gs ++ comma :: a :: b :: rp ++ tm)
        else None
    | _ => None
    end
  else None.

(** [line.match(moneyTokenRe)]: the matches from left to right, the scan
    resuming after each one. [skip] counts the characters of the last
    match still to be passed over. *)
Fixpoint moneyMatches_from (skip : nat) (s : jsstring) : list jsstring :=
  match s with
  | [] => []
  | _ :: tl =>
      match skip with
      | S k => moneyMatches_from k tl
      | O =>
          match matchMoneyAt s with
          | Some tok => tok :: moneyMatches_from (List.length tok - 1) tl
          | None => moneyMatches_from 0 tl
          end
      end
  end.

Definition moneyMatches (line : jsstring) : list jsstring :=
  moneyMatches_from 0 line.

(** A token of the grammar: the pattern matches it from its first to its
    last character. *)
Definition isMoneyToken (tok : jsstring) : bool :=
  match matchMoneyAt tok with
  | Some t => str_eqb t tok
  | None => false
  end.

(** ** Section headers, boilerplate and column order *)

Definition detectSectionHeader (line : jsstring) : option Group :=
  let up := toUpperCase (cleanSpaces line) in
  if str_eqb up (str "ATIVO") || startsWith (str "ATIVO ") up then Some ATIVO
  else if str_eqb up (str "PASSIVO") || startsWith (str "PASSIVO ") up
  then Some PASSIVO
  else if str_eqb up (str "DRE")
          || startsWith (str "DRE ") up
          || includes (str "DEMONSTRACAO DO RESULTADO") up
          || includes (str "DEMONSTRA" ++ chr 199 :: chr 195
                         :: str "O DO RESULTADO") up
          || includes (str "D.R.E") up
          || includes (str "DEMONSTRATIVO DO RESULTADO") up
  then Some DRE
  else None.

Definition isHeaderLine (line : jsstring) : bool :=
  let up := toUpperCase (cleanSpaces line) in
  if includes (str "C" ++ chr 211 :: str "DIGO") up
     && includes (str "DESCRI") up && includes (str "SALDO") up then true
  else if includes (str "CODIGO") up
          && includes (str "DESCRI") up && includes (str "SALDO") up then true
  else if startsWith (str "EMPRESA") up || startsWith (str "BALANCETE") up
          || includes (str "P" ++ chr 193 :: str "GINA") up then true
  else if startsWith (str "C.N.P.J") up || startsWith (str "CNPJ") up then true
  else if startsWith (str "PER" ++ chr 205 :: str "ODO") up
          || startsWith (str "PERIODO") up then true
  else if startsWith (str "CONSOLIDADO") up then true
  else false.

Inductive ColumnOrder : Type := SA_SANT_DEB_CRED | SANT_DEB_CRED_SA.

Definition detectColumnOrderFromHeader (line : jsstring)
  : option ColumnOrder :=
  let up := toUpperCase (cleanSpaces line) in
  if negb (includes (str "SALDO") up
           && (includes (str "ANTERIOR") up || includes (str "ATUAL") up))
  then None
  else
    let iAtual := indexOf (str "ATUAL") up in
    let iAnt := indexOf (str "ANTERIOR") up in
    let iDeb := match indexOf (str "D" ++ chr 201 :: str "BITO") up with
                | Some i => Some i
                | None => indexOf (str "DEBITO") up
                end in
    let iCred := match indexOf (str "CR" ++ chr 201 :: str "DITO") up with
                 | Some i => Some i
                 | None => indexOf (str "CREDITO") up
                 end in
    match iAnt, iDeb, iCred, iAtual with
    | Some a, Some d, Some c, Some t =>
        if ((a <? d) && (d <? c) && (c <? t))%nat then Some SANT_DEB_CRED_SA
        else if ((t <? a) && (a <? d) && (d <? c))%nat
        then Some SA_SANT_DEB_CRED
        else None
    | _, _, _, _ => None
    end.


(** ** Code, classification and description of a row *)

Definition noLineTerminator (s : jsstring) : bool :=
  forallb (fun c => negb (isLineTerminator c)) s.

Definition lenBetween (lo hi : nat) (s : jsstring) : bool :=
  ((lo <=? List.length s) && (List.length s <=? hi))%nat.

(** The pattern of [extractLeadingCode]: optional white space, one to six
    digits, white space, and the remainder of the line. *)
Definition extractLeadingCode (s : jsstring) : option jsstring * jsstring :=
  let s1 := dropWhile isWs s in
  let ds := takeWhile isDigit s1 in
  let r := dropWhile isDigit s1 in
  let noMatch := (None, trim s) in
  if lenBetween 1 6 ds then
    match r with
    | w :: _ =>
        if isWs w then
          let m2 := dropWhile isWs r in
          if noLineTerminator m2 then (Some ds, trim m2) else noMatch
        else noMatch
    | [] => noMatch
    end
  else noMatch.

Definition is123 (c : ascii) : bool :=
  ascii_eqb c "1" || ascii_eqb c "2" || ascii_eqb c "3".

(** The pattern of [splitFusedCodeClassification]: one to six digits and
    a dot at the start, in front of a classification that begins with 1, 2
    or 3; the look-ahead holds as soon as the root digit, a dot and one
    more digit follow. The third group is the remainder of the line. *)
Definition splitFusedCodeClassification (s : jsstring)
  : option jsstring * jsstring :=
  let txt := cleanSpaces s in
  let ds := takeWhile isDigit txt in
  let r := dropWhile isDigit txt in
  let noMatch := (None, txt) in
  if lenBetween 1 6 ds then
    match r with
    | d :: ((c :: d2 :: a :: _) as m3) =>
        if isDot d && is123 c && isDot d2 && isDigit a && noLineTerminator m3
        then
          let code := ds in
          let rest := if nonEmpty (trim m3) then trim m3 else [] in
          (Some code,
           if nonEmpty rest then rest
           else trim (sliceFrom (List.length code) txt))
        else noMatch
    | _ => noMatch
    end
  else noMatch.

(** The greedy run of groups, each a dot and one to three digits, at the
    head of [s], and what follows it *)
Fixpoint dotGroups (s : jsstring) : list jsstring * jsstring :=
  match s with
  | d :: a :: t1 =>
      if isDot d && isDigit a then
        match t1 with
        | b :: t2 =>
            if isDigit b then
              match t2 with
              | c :: t3 =>
                  if isDigit c
                  then let '(g, r) := dotGroups t3 in ([d; a; b; c] :: g, r)
                  else let '(g, r) := dotGroups t2 in ([d; a; b] :: g, r)
              | [] => ([[d; a; b]], [])
              end
            else let '(g, r) := dotGroups t1 in ([d; a] :: g, r)
        | [] => ([[d; a]], [])
        end
      else ([], s)
  | _ => ([], s)
  end.

Definition startsWithWs (s : jsstring) : bool :=
  match s with c :: _ => isWs c | [] => false end.

Definition nonEmptyGroups (gs : list jsstring) : bool :=
  match gs with [] => false | _ => true end.

Definition startsWithWordChar (s : jsstring) : bool :=
  match s with c :: _ => isWordChar c | [] => false end.

(** The match of one to three digits followed by one or more groups of a
    dot and one to three digits, ending on a word boundary. When a
    word character follows the greedy run, the engine gives the last group
    back and stops in front of its dot, provided a group is left. *)
Definition matchClassAt (s : jsstring) : option jsstring :=
  let ds := takeWhile isDigit s in
  let r := dropWhile isDigit s in
  if lenBetween 1 3 ds then
    let '(gs, r') := dotGroups r in
    match gs with
    | [] => None
    | _ :: more =>
        if negb (startsWithWordChar r') then Some (ds ++ concat gs)
        else match more with
             | [] => None
             | _ => Some (ds ++ concat (removelast gs))
             end
    end
  else None.

(** The unanchored search for the same pattern between word boundaries:
    the leftmost start that sits on a word boundary and matches. *)
Fixpoint findClass (prevWord : bool) (s : jsstring) : option jsstring :=
  match s with
  | [] => None
  | c :: tl =>
      match (if prevWord then None else matchClassAt s) with
      | Some m => Some m
      | None => findClass (isWordChar c) tl
      end
  end.

(** [mStart] is the anchored pattern (the classification, white space,
    the remainder of the line), [findClass] the loose one. *)
Definition extractFirstClassification (s : jsstring)
  : option jsstring * jsstring :=
  let txt := cleanSpaces s in
  let ds := takeWhile isDigit txt in
  let '(gs, r) := dotGroups (dropWhile isDigit txt) in
  let mStart :=
    if lenBetween 1 3 ds && nonEmptyGroups gs && startsWithWs r
       && noLineTerminator (dropWhile isWs r)
    then Some (ds ++ concat gs, dropWhile isWs r) else None in
  match mStart with
  | Some (m1, m2) => (Some m1, trim m2)
  | None =>
      match findClass false txt with
      | None => (None, txt)
      | Some cls => (Some cls, cleanSpaces (removeFirst cls txt))
      end
  end.

(** [/^[123](?:\.|$)/.test(cls)] *)
Definition isPlanRoot (cls : jsstring) : bool :=
  match cls with
  | c :: t =>
      is123 c && match t with [] => true | d :: _ => isDot d end
  | [] => false
  end.

Definition inferGroupByClassification (classification : option jsstring)
  : option Group :=
  match classification with
  | None => None
  | Some c0 =>
      if negb (nonEmpty c0) then None
      else
        let cls := trim c0 in
        if negb (isPlanRoot cls) then None
        else match cls with
             | first :: _ =>
                 if ascii_eqb first "1" then Some ATIVO
                 else if ascii_eqb first "2" then Some PASSIVO
                 else if ascii_eqb first "3" then Some DRE
                 else None
             | [] => None
             end
  end.


(** ** Monetary columns *)

Record MoneyCols : Type := mkCols {
  c_saldoAtual : option MoneyBR;
  c_saldoAnterior : option MoneyBR;
  c_debito : option MoneyBR;
  c_credito : option MoneyBR
}.

(** [tokens.map(parseMoneyBR).filter(Boolean)] *)
Fixpoint parsedTokens (tokens : list jsstring) : list MoneyBR :=
  match tokens with
  | [] => []
  | t :: ts =>
      match parseMoneyBR t with
      | Some m => m :: parsedTokens ts
      | None => parsedTokens ts
      end
  end.

(** [parsed.slice(-4)] *)
Definition lastFour {A : Type} (l : list A) : list A :=
  skipn (List.length l - 4) l.

Definition mapMoneyTokens (tokens : list jsstring) (order : ColumnOrder)
  : MoneyCols :=
  let parsed := parsedTokens tokens in
  match lastFour parsed with
  | [] => mkCols None None None None
  | [m1; m2; m3; m4] =>
      match order with
      | SANT_DEB_CRED_SA => mkCols (Some m4) (Some m1) (Some m2) (Some m3)
      | SA_SANT_DEB_CRED => mkCols (Some m1) (Some m2) (Some m3) (Some m4)
      end
  | [m1; m2; m3] =>
      match order with
      | SANT_DEB_CRED_SA => mkCols None (Some m1) (Some m2) (Some m3)
      | SA_SANT_DEB_CRED => mkCols (Some m1) (Some m2) (Some m3) None
      end
  | [m1; m2] =>
      match order with
      | SANT_DEB_CRED_SA => mkCols (Some m2) (Some m1) None None
      | SA_SANT_DEB_CRED => mkCols (Some m1) (Some m2) None None
      end
  | m1 :: _ => mkCols (Some m1) None None None
  end.

(** ** The line loop *)

Record PendingTotal : Type := mkPending {
  p_line : jsstring;
  p_code : option jsstring;
  p_cols : MoneyCols
}.

(** The variables of [parseContabilRowsFromText] that live across lines.
    [currentGroup] starts as [OUTROS] and is only ever assigned a detected
    section, so it is never undefined. *)
Record ParserState : Type := mkState {
  currentGroup : Group;
  columnOrder : ColumnOrder;
  pendingTotalLine : option PendingTotal;
  emitted : list ContabilRow
}.

Definition initialState : ParserState :=
  mkState OUTROS SA_SANT_DEB_CRED None [].

Definition truthyStr (o : option jsstring) : bool :=
  match o with Some s => nonEmpty s | None => false end.

Definition strEqOpt (a : jsstring) (o : option jsstring) : bool :=
  match o with Some b => str_eqb a b | None => false end.

(** The row pushed when a section header meets a pending total line *)
Definition headerFlushRow (p : PendingTotal) (section : Group) : ContabilRow :=
  mkRow (p_line p) (Some section) (p_code p)
        (Some (str "TOTAL " ++ groupName section)) None
        (c_saldoAtual (p_cols p)) (c_saldoAnterior (p_cols p))
        (c_debito (p_cols p)) (c_credito (p_cols p)).

(** The row pushed when a pending total line is left at the end *)
Definition finalFlushRow (p : PendingTotal) : ContabilRow :=
  mkRow (p_line p) (Some OUTROS) (p_code p) None None
        (c_saldoAtual (p_cols p)) (c_saldoAnterior (p_cols p))
        (c_debito (p_cols p)) (c_credito (p_cols p)).

(** One iteration of [for (const raw of lines)] *)
Definition step (st : ParserState) (rawText : jsstring) : ParserState :=
  let line := unglueMoneyTokens (cleanSpaces rawText) in
  match detectColumnOrderFromHeader line with
  | Some maybeOrder =>
      mkState (currentGroup st) maybeOrder (pendingTotalLine st) (emitted st)
  | None =>
  match detectSectionHeader line with
  | Some section =>
      let out :=
        match pendingTotalLine st with
        | Some p => emitted st ++ [headerFlushRow p section]
        | None => emitted st
        end in
      mkState section (columnOrder st) None out
  | None =>
  if isHeaderLine line then st
  else
    let found := moneyMatches line in
    if (List.length found <? 2)%nat then st
    else
      let cols := mapMoneyTokens found (columnOrder st) in
      let pre :=
        match found with
        | firstMoneyToken :: _ =>
            if nonEmpty firstMoneyToken then
              match indexOf firstMoneyToken line with
              | Some idxFirst => sliceTo idxFirst line
              | None => line
              end
            else line
        | [] => line
        end in
      let preClean := cleanSpaces pre in
      let fused := splitFusedCodeClassification preClean in
      let preClean :=
        match fst fused with
        | Some fcode =>
            if nonEmpty fcode && nonEmpty (snd fused)
            then fcode ++ " "%char :: snd fused
            else preClean
        | None => preClean
        end in
      let '(code, rest) := extractLeadingCode preClean in
      let '(classification, descRest) := extractFirstClassification rest in
      let description := cleanSpaces descRest in
      if Group_eqb (currentGroup st) OUTROS
         && truthyStr code
         && negb (truthyStr classification)
         && (negb (nonEmpty description) || strEqOpt description code)
         && (4 <=? List.length found)%nat
      then
        mkState (currentGroup st) (columnOrder st)
                (Some (mkPending line code cols)) (emitted st)
      else
        let inferred := inferGroupByClassification classification in
        let group :=
          if negb (Group_eqb (currentGroup st) OUTROS) then currentGroup st
          else match inferred with
               | Some g => g
               | None => currentGroup st
               end in
        let row :=
          mkRow line (Some group) code
                (if nonEmpty description then Some description else None)
                classification
                (c_saldoAtual cols) (c_saldoAnterior cols)
                (c_debito cols) (c_credito cols) in
        mkState (currentGroup st) (columnOrder st) (pendingTotalLine st)
                (emitted st ++ [row])
  end
  end.

Definition nonEmptyRows (rs : list ContabilRow) : bool :=
  match rs with [] => false | _ => true end.

(** [text.split(/\r?\n/g)] *)
Fixpoint splitLines_from (cur : jsstring) (s : jsstring) : list jsstring :=
  match s with
  | [] => [rev cur]
  | c :: tl =>
      if ascii_eqb c (chr 10) then
        let piece :=
          match cur with
          | r :: cur' => if ascii_eqb r (chr 13) then rev cur' else rev cur
          | [] => []
          end in
        piece :: splitLines_from [] tl
      else splitLines_from (c :: cur) tl
  end.

Definition splitLines (text : jsstring) : list jsstring :=
  splitLines_from [] text.

Definition warnEmptyText : jsstring :=
  str "Texto vazio extra" ++ chr 237 :: str "do do PDF.".

Definition warnNoRows : jsstring :=
  str "Nenhuma linha cont" ++ chr 225
    :: str "bil com valores foi detectada no texto.".

Definition parseContabilRowsFromText (text : jsstring) : ContabilParseResult :=
  if negb (nonEmpty text) || negb (nonEmpty (trim text)) then
    mkResult [] [warnEmptyText]
  else
    let lines := filter nonEmpty (map trim (splitLines text)) in
    let st := fold_left step lines initialState in
    let rows :=
      match pendingTotalLine st with
      | Some p => emitted st ++ [finalFlushRow p]
      | None => emitted st
      end in
    mkResult rows (if nonEmptyRows rows then [] else [warnNoRows]).

End ContabilParser.

(* ================================================================== *)
(** * src/lib/normalizeBase.ts *)
(* ================================================================== *)

Module NormalizeBase.
Import JS ContabilParser.

(** A numeric column of a normalized row has type [any]: absent, a number,
    a string, or the [{raw, value}] pair of the parser. *)
Inductive any : Type :=
| VAbsent
| VNum (n : number)
| VStr (s : jsstring)
| VMoney (m : MoneyBR).

Record NormalizedBaseRow : Type := mkNorm {
  period : jsstring;
  year : option number;
  n_classification : option jsstring;
  n_code : option jsstring;
  n_description : option jsstring;
  n_group : option Group;
  n_saldoAtual : any;
  n_saldoAnterior : any;
  n_debito : any;
  n_credito : any;
  n_rawLine : option jsstring
}.

(** [String(input ?? e)] for an optional string, [e] the empty string *)
Definition strOr (o : option jsstring) : jsstring :=
  match o with Some s => s | None => [] end.

Definition normalizeText (input : option jsstring) : jsstring :=
  trim (collapseWs (toUpperCase (stripAccents (strOr input)))).

(** [/^[1-3]\.\d/] *)
Definition isDotted (s : jsstring) : bool :=
  match s with
  | c :: d :: a :: _ => is123 c && ascii_eqb d "." && isDigit a
  | _ => false
  end.

(** [/^([1-3])(\d)(\d)\.(\d+)$/] *)
Definition matchFusedDecimal (s : jsstring)
  : option (ascii * ascii * ascii * jsstring) :=
  match s with
  | c :: a :: b :: d :: m4 =>
      if is123 c && isDigit a && isDigit b && ascii_eqb d "."
         && nonEmpty m4 && forallb isDigit m4
      then Some (c, a, b, m4) else None
  | _ => None
  end.

(** [/^([1-3])(\d)(\d)(\d)$/] *)
Definition matchFusedFour (s : jsstring)
  : option (ascii * ascii * ascii * ascii) :=
  match s with
  | [c; a; b; d] =>
      if is123 c && isDigit a && isDigit b && isDigit d
      then Some (c, a, b, d) else None
  | _ => None
  end.

Definition dot : ascii := "."%char.

Definition normalizeClassification (input : option jsstring) : jsstring :=
  let raw := trim (strOr input) in
  if negb (nonEmpty raw) then []
  else if isDotted raw then raw
  else
    match matchFusedDecimal raw with
    | Some (m1, m2, m3, m4) => m1 :: dot :: m2 :: dot :: m3 :: dot :: m4
    | None =>
        match matchFusedFour raw with
        | Some (m1, m2, m3, m4) => [m1; dot; m2; dot; m3; dot; m4]
        | None =>
            (* the test for a bare root digit returns [raw] as well *)
            raw
        end
    end.

Definition groupFromClassification (clsRaw : option jsstring) : Group :=
  let cls := normalizeClassification clsRaw in
  if str_eqb cls (str "1") || startsWith (str "1.") cls then ATIVO
  else if str_eqb cls (str "2") || startsWith (str "2.") cls then PASSIVO
  else if str_eqb cls (str "3") || startsWith (str "3.") cls then DRE
  else OUTROS.

Record Ctx : Type := mkCtx {
  ctx_period : jsstring;
  ctx_year : option number
}.

Definition anyOfMoney (m : option MoneyBR) : any :=
  match m with Some x => VMoney x | None => VAbsent end.

Definition orNull (s : jsstring) : option jsstring :=
  if nonEmpty s then Some s else None.

(** The record literal pushed for one source row *)
Definition buildRow (ctx : Ctx) (r : ContabilRow) : NormalizedBaseRow :=
  let classification := normalizeClassification (classification r) in
  let description := orNull (trim (strOr (description r))) in
  mkNorm (trim (ctx_period ctx))
         (ctx_year ctx)
         (orNull classification)
         (code r)
         description
         (Some (match group r with
                | Some g => g
                | None => groupFromClassification (Some classification)
                end))
         (anyOfMoney (saldoAtual r))
         (anyOfMoney (saldoAnterior r))
         (anyOfMoney (debito r))
         (anyOfMoney (credito r))
         (Some (rawLine r)).

Definition setGroup (g : Group) (r : NormalizedBaseRow) : NormalizedBaseRow :=
  mkNorm (period r) (year r) (n_classification r) (n_code r)
         (n_description r) (Some g)
         (n_saldoAtual r) (n_saldoAnterior r) (n_debito r) (n_credito r)
         (n_rawLine r).

(** The body of the second loop: the group a row without one (or with
    [OUTROS]) receives from its description, if any *)
Definition groupFromDescription (rr : NormalizedBaseRow) : option Group :=
  match n_group rr with
  | Some ATIVO | Some PASSIVO | Some DRE => None
  | _ =>
      let d := normalizeText (n_description rr) in
      if str_eqb d (str "ATIVO") || str_eqb d (str "TOTAL ATIVO")
         || str_eqb d (str "ATIVO TOTAL") then Some ATIVO
      else if str_eqb d (str "PASSIVO") || str_eqb d (str "TOTAL PASSIVO")
              || str_eqb d (str "PASSIVO TOTAL") then Some PASSIVO
      else if str_eqb d (str "DRE") || includes (str "RESULTADO") d
              || includes (str "DEMONSTRACAO") d then Some DRE
      else None
  end.

(** ** The object store

    Rows are objects: [normalizeBase] receives references to the parser's
    rows, allocates one new object per row and afterwards assigns the
    [group] field of the objects it allocated. A store is the list of the
    objects allocated so far, a reference an index into it. *)

Inductive Obj : Type :=
| SrcRow (r : ContabilRow)
| NormRow (r : NormalizedBaseRow).

Definition Store := list Obj.
Definition Ref := nat.

Definition alloc (h : Store) (o : Obj) : Store * Ref :=
  (h ++ [o], List.length h).

Fixpoint assign (h : Store) (a : Ref) (o : Obj) : Store :=
  match h, a with
  | [], _ => []
  | _ :: t, O => o :: t
  | x :: t, S a' => x :: assign t a' o
  end.

(** First loop: [out.push({...})] for every row; reading a reference that
    is not a parser row is a type error. *)
Fixpoint pushRows (ctx : Ctx) (h : Store) (rows : list Ref) (out : list Ref)
  : option (Store * list Ref) :=
  match rows with
  | [] => Some (h, out)
  | r :: rest =>
      match nth_error h r with
      | Some (SrcRow src) =>
          let '(h', o) := alloc h (NormRow (buildRow ctx src)) in
          pushRows ctx h' rest (out ++ [o])
      | _ => None
      end
  end.

(** Second loop: [rr.group = ...] on the objects of [out] *)
Fixpoint regroup (h : Store) (out : list Ref) : option Store :=
  match out with
  | [] => Some h
  | rr :: rest =>
      match nth_error h rr with
      | Some (NormRow n) =>
          match groupFromDescription n with
          | Some g => regroup (assign h rr (NormRow (setGroup g n))) rest
          | None => regroup h rest
          end
      | _ => None
      end
  end.

Definition normalizeBase (h : Store) (rows : list Ref) (ctx : Ctx)
  : option (Store * list Ref) :=
  match pushRows ctx h rows [] with
  | Some (h1, out) =>
      match regroup h1 out with
      | Some h2 => Some (h2, out)
      | None => None
      end
  | None => None
  end.

End NormalizeBase.

(* ================================================================== *)
(** * src/lib/kpiEngine.ts *)
(* ================================================================== *)

Module KpiEngine.
Import JS ContabilParser NormalizeBase.

Local Open Scope Q_scope.

(** [numFromAny] returns a finite number on every path, so its result is
    a rational. *)
Definition numFromAny (v : any) : Q :=
  match v with
  | VAbsent => 0
  | VNum n => finiteOr0 n
  | VStr s => finiteOr0 (Number_of_string s)
  | VMoney m => finiteOr0 (value m)
  end.

Definition normalizeText (input : option jsstring) : jsstring :=
  trim (collapseWs (toUpperCase (stripAccents (strOr input)))).

Definition normalizeClassification (input : option jsstring) : jsstring :=
  let raw := trim (strOr input) in
  if negb (nonEmpty raw) then []
  else if isDotted raw then raw
  else
    match matchFusedDecimal raw with
    | Some (m1, m2, m3, m4) => m1 :: dot :: m2 :: dot :: m3 :: dot :: m4
    | None =>
        match matchFusedFour raw with
        | Some (m1, m2, m3, m4) => [m1; dot; m2; dot; m3; dot; m4]
        | None => raw
        end
    end.

Module RX.
Definition receitaLiquida : list jsstring :=
  map str ["RECEITA LIQUIDA"; "RECEITA LIQ"; "RECEITAS LIQUIDAS";
           "RECEITA OPERACIONAL LIQUIDA"; "ROL"]%string.
Definition receitaBruta : list jsstring :=
  map str ["RECEITA BRUTA"; "RECEITA OPERACIONAL BRUTA"; "VENDAS BRUTAS";
           "FATURAMENTO BRUTO"]%string.
Definition deducoes : list jsstring :=
  map str ["DEDUCOES"; "DEDUCAO"; "DEVOLUCOES"; "ABATIMENTOS";
           "CANCELAMENTOS"; "ICMS"; "ISS"; "PIS"; "COFINS"]%string.
Definition cmvCpv : list jsstring :=
  map str ["CMV"; "CPV"; "CUSTO"; "CUSTOS"; "CUSTO DAS MERCADORIAS";
           "CUSTO DOS PRODUTOS"; "CUSTO DOS SERVICOS";
           "CUSTO DOS SERVICOS PRESTADOS"; "CSP"]%string.
Definition despesasAdmin : list jsstring :=
  map str ["DESPESAS ADMIN"; "DESPESAS ADMINISTRATIVAS"; "DESPESA ADMIN";
           "ADMINISTRATIVAS"]%string.
Definition despesasComerciais : list jsstring :=
  map str ["DESPESAS COMERC"; "DESPESAS COMERCIAIS"; "DESPESAS DE VENDAS";
           "MARKETING"; "PROPAGANDA"; "PUBLICIDADE"]%string.
Definition outrasDespesas : list jsstring :=
  map str ["OUTRAS DESPESAS"; "DESPESAS GERAIS"; "DESPESAS OPERACIONAIS";
           "DESPESAS FINANCEIRAS"; "CUSTOS FINANCEIROS"; "DESPESAS"]%string.
End RX.

Definition matchAny (desc : jsstring) (patterns : list jsstring) : bool :=
  existsb (fun p => includes p desc) patterns.

Module PLAN_PREFIX.
Definition receita_bruta : list jsstring := map str ["3.1"]%string.
Definition deducoes : list jsstring := map str ["3.2"]%string.
Definition cmv_cpv : list jsstring := map str ["3.3"; "3.4"; "3.5"]%string.
Definition despesas_admin : list jsstring := map str ["3.7"; "3.8"]%string.
End PLAN_PREFIX.

Inductive Prefer : Type := PreferCredito | PreferDebito.

Definition tiny : Q := 1 # 1000000000.

Definition dreValue (r : NormalizedBaseRow) (prefer : Prefer) : Q :=
  let cred := numFromAny (n_credito r) in
  let deb := numFromAny (n_debito r) in
  let preferred :=
    match prefer with
    | PreferCredito => if Qltb tiny (Qabs cred) then Some cred else None
    | PreferDebito => if Qltb tiny (Qabs deb) then Some deb else None
    end in
  match preferred with
  | Some v => v
  | None =>
      let sa := numFromAny (n_saldoAtual r) in
      if Qltb tiny (Qabs sa) then sa
      else
        let sb := numFromAny (n_saldoAnterior r) in
        if Qltb tiny (Qabs sb) then sb
        else if Qltb tiny (Qabs deb) || Qltb tiny (Qabs cred) then deb - cred
        else 0
  end.

(** [c.match(/^([123]\.\d{1,3})/)] *)
Definition bucketKey (classification : option jsstring) : option jsstring :=
  let c := normalizeClassification classification in
  if negb (nonEmpty c) then None
  else
    match c with
    | r :: d :: rest =>
        if is123 r && ascii_eqb d "." then
          match firstn 3 (takeWhile isDigit rest) with
          | [] => None
          | ds => Some (r :: d :: ds)
          end
        else None
    | _ => None
    end.

Definition isDreRelevantRow (r : NormalizedBaseRow) : bool :=
  let cls := normalizeClassification (n_classification r) in
  match n_group r with
  | Some DRE => true
  | _ => str_eqb cls (str "3") || startsWith (str "3.") cls
  end.

(** ** Insertion-ordered maps and the stable sort

    A [Map] keeps its keys in insertion order; [Array.prototype.sort] is
    stable, so for a comparator that is a weak order its result is the one
    computed by a stable insertion sort. [before a b] reads: the comparator
    does not put [b] in front of [a]. *)

Section Containers.
Context {V : Type}.

Fixpoint mapGet (k : jsstring) (m : list (jsstring * V)) : option V :=
  match m with
  | [] => None
  | (k', v) :: m' => if str_eqb k k' then Some v else mapGet k m'
  end.

Fixpoint mapSet (k : jsstring) (v : V) (m : list (jsstring * V))
  : list (jsstring * V) :=
  match m with
  | [] => [(k, v)]
  | (k', v') :: m' =>
      if str_eqb k k' then (k', v) :: m' else (k', v') :: mapSet k v m'
  end.

Fixpoint insertSorted (before : V -> V -> bool) (x : V) (l : list V)
  : list V :=
  match l with
  | [] => [x]
  | y :: l' =>
      if before x y then x :: l else y :: insertSorted before x l'
  end.

Definition stableSort (before : V -> V -> bool) (l : list V) : list V :=
  fold_right (insertSorted before) [] l.

End Containers.

Record Bucket : Type := mkBucket {
  key : jsstring;
  total : Q;
  lines : nat
}.

(** The value a row adds to its bucket *)
Definition balanceOrMovement (r : NormalizedBaseRow) : Q :=
  let sa := numFromAny (n_saldoAtual r) in
  let sb := numFromAny (n_saldoAnterior r) in
  let d := numFromAny (n_debito r) in
  let c := numFromAny (n_credito r) in
  if Qltb tiny (Qabs sa) then sa
  else if Qltb tiny (Qabs sb) then sb
  else d - c.

Definition computeBuckets (rows : list NormalizedBaseRow) : list Bucket :=
  let m :=
    fold_left
      (fun (m : list (jsstring * (Q * nat))) r =>
         match bucketKey (n_classification r) with
         | None => m
         | Some k =>
             let prev := match mapGet k m with
                         | Some p => p
                         | None => (0, O)
                         end in
             mapSet k (fst prev + balanceOrMovement r, S (snd prev)) m
         end)
      rows [] in
  stableSort
    (fun a b => Qleb (Qabs (total b) - Qabs (total a)) 0)
    (map (fun '(k, (t, n)) => mkBucket k (brRound t) n) m).

Definition sumAbs (f : NormalizedBaseRow -> option Q)
  (rows : list NormalizedBaseRow) : Q :=
  fold_left (fun s r => match f r with
                        | Some v => s + Qabs v
                        | None => s
                        end) rows 0.

Definition sumByMatchAbs (rows : list NormalizedBaseRow)
  (patterns : list jsstring) (prefer : Prefer) : Q :=
  brRound
    (sumAbs (fun r =>
               let desc := normalizeText (n_description r) in
               if nonEmpty desc && matchAny desc patterns
               then Some (dreValue r prefer) else None) rows).

Definition sumByBucketAbs (rows : list NormalizedBaseRow)
  (keys : list jsstring) : Q :=
  brRound
    (sumAbs (fun r =>
               match bucketKey (n_classification r) with
               | Some k =>
                   if existsb (str_eqb k) keys
                   then Some (balanceOrMovement r) else None
               | None => None
               end) rows).

Definition sumByClassificationPrefixAbs (rows : list NormalizedBaseRow)
  (prefixes : list jsstring) (prefer : Prefer) : Q :=
  brRound
    (sumAbs (fun r =>
               let raw := trim (strOr (n_classification r)) in
               let cls := normalizeClassification (n_classification r) in
               let hit :=
                 existsb (fun p =>
                            let pp := trim p in
                            if negb (nonEmpty pp) then false
                            else if negb (str_eqb pp (str "3")
                                          || startsWith (str "3.") pp)
                            then false
                            else startsWith pp raw || startsWith pp cls)
                         prefixes in
               if hit then Some (dreValue r prefer) else None) rows).

Definition pct (num den : Q) : option Q :=
  if Qeqb den 0 then None else Some (brRound ((num / den) * 100)).


(** ** Totals of assets and liabilities *)

Inductive Title : Type := TitleAtivo | TitlePassivo.

Definition inBand (lo hi n : Q) : bool := Qleb lo n && Qltb n hi.

(** [ctx?.ativoTotal ?? 0] *)
Definition ativoOf (ctx : option number) : number :=
  match ctx with Some a => a | None => Fin 0 end.

Definition applyGluedFix (title : Title) (raw : number) (ctx : option number)
  : number :=
  match raw with
  | Fin r =>
      if Qltb (Qabs r) tiny then Fin 0
      else
        let sign : Q := if Qltb r 0 then -1 else 1 in
        let n := Qabs r in
        match title with
        | TitleAtivo =>
            if inBand 10000000 20000000 n
               && Qltb 0 (n - 10000000) && Qltb (n - 10000000) 9999999999
            then Fin (sign * (n - 10000000))
            else raw
        | TitlePassivo =>
            let ativo := num_abs (ativoOf ctx) in
            if inBand 30000000 40000000 n
               && (negb (num_truthy ativo)
                   || (num_gtb (Fin (n / 10)) (num_scale ativo (2 # 10))
                       && num_ltb (Fin (n / 10)) (num_scale ativo 5)))
            then Fin (sign * (n / 10))
            else if (if num_gtb ativo (Fin 0)
                     then num_gtb (Fin n)
                            (num_max (num_scale ativo 20) (Fin 200000000))
                     else Qltb 1000000000 n)
            then Fin 0
            else if inBand 20000000 30000000 n
                    && Qltb 0 (n - 20000000) && Qltb (n - 20000000) 50000000
            then Fin (sign * (n - 20000000))
            else if inBand 10000000 20000000 n
                    && Qltb 0 (n - 10000000) && Qltb (n - 10000000) 50000000
            then Fin (sign * (n - 10000000))
            else raw
        end
  | _ => Fin 0
  end.

Record Candidate : Type := mkCand {
  cand_r : NormalizedBaseRow;
  cand_raw : Q;
  cand_fixed : Q
}.

(** [String(r.classification ?? e).trim().replace(/\.$/, e)], [e] the
    empty string *)
Definition clsStr (r : NormalizedBaseRow) : jsstring :=
  let t := trim (strOr (n_classification r)) in
  if endsWith (str ".") t then removelast t else t.

Definition wantCls (title : Title) : jsstring :=
  match title with TitleAtivo => str "1" | TitlePassivo => str "2" end.

Definition descNorm (r : NormalizedBaseRow) : jsstring :=
  normalizeText (n_description r).

Definition descIsJustClassToken (title : Title) (r : NormalizedBaseRow)
  : bool :=
  let d := trim (strOr (n_description r)) in
  str_eqb d (wantCls title) || str_eqb d (wantCls title ++ str ".").

Definition saldoRaw (r : NormalizedBaseRow) : Q := numFromAny (n_saldoAtual r).

Definition isTotalTitle (title : Title) (d : jsstring) : bool :=
  match title with
  | TitleAtivo =>
      str_eqb d (str "ATIVO") || str_eqb d (str "TOTAL ATIVO")
      || str_eqb d (str "ATIVO TOTAL") || str_eqb d (str "TOTAL DO ATIVO")
  | TitlePassivo =>
      str_eqb d (str "PASSIVO") || str_eqb d (str "TOTAL PASSIVO")
      || str_eqb d (str "PASSIVO TOTAL") || str_eqb d (str "TOTAL DO PASSIVO")
  end.

Definition byTitleDesc (title : Title) (rows : list NormalizedBaseRow)
  : list NormalizedBaseRow :=
  filter (fun r =>
            let d := descNorm r in
            if negb (nonEmpty d) then false
            else
              match title with
              | TitleAtivo => isTotalTitle TitleAtivo d
              | TitlePassivo =>
                  if isTotalTitle TitlePassivo d then true
                  else includes (str "PASSIVO") d
                       && (includes (str "PL") d || includes (str "PATRIM") d)
              end) rows.

Definition byClass (title : Title) (rows : list NormalizedBaseRow)
  : list NormalizedBaseRow :=
  filter (fun r => str_eqb (clsStr r) (wantCls title)) rows.

Definition byBrokenPdf (title : Title) (rows : list NormalizedBaseRow)
  : list NormalizedBaseRow :=
  filter (fun r => negb (nonEmpty (clsStr r)) && descIsJustClassToken title r)
         rows.

Definition groupText (g : option Group) : jsstring :=
  match g with Some x => groupName x | None => [] end.

Definition byGroup (title : Title) (rows : list NormalizedBaseRow)
  : list NormalizedBaseRow :=
  match title with
  | TitlePassivo =>
      filter (fun r => str_eqb (toUpperCase (groupText (n_group r)))
                               (str "PASSIVO")) rows
  | TitleAtivo => []
  end.

(** The candidates of [pickTotal]: the four preference lists, each row
    with its corrected balance, without the ones whose corrected balance
    is zero *)
Definition candidatesOf (title : Title) (rows : list NormalizedBaseRow)
  (opts : option number) : list Candidate :=
  flat_map
    (fun r =>
       let raw := saldoRaw r in
       match applyGluedFix title (Fin raw) opts with
       | Fin fixed =>
           if Qltb tiny (Qabs fixed) then [mkCand r raw fixed] else []
       | _ => []
       end)
    (byTitleDesc title rows ++ byClass title rows
       ++ byBrokenPdf title rows ++ byGroup title rows).

(** The candidates within [Math.max(ativo * 5, 50_000_000)], or all of
    them when none is *)
Definition plausible (ativo : number) (cands : list Candidate)
  : list Candidate :=
  let maxOk := num_max (num_scale ativo 5) (Fin 50000000) in
  match filter (fun x => num_leb (Fin (Qabs (cand_fixed x))) maxOk) cands with
  | [] => cands
  | l => l
  end.

Definition relErr (ativo : Q) (x : Candidate) : Q :=
  Qabs (Qabs (cand_fixed x) - ativo) / ativo.

(** [.sort((a, b) => a.relErr - b.relErr)[0]] *)
Definition bestByRelErr (ativo : Q) (cands : list Candidate)
  : option Candidate :=
  hd_error
    (stableSort (fun a b => Qleb (relErr ativo a - relErr ativo b) 0) cands).

Section PickTotal.

(** [Math.log10], which the score of the fall-back ranking uses *)
Variable log10 : Q -> Q.

Definition score (title : Title) (x : Candidate) : Q :=
  let d := descNorm (cand_r x) in
  let cls := clsStr (cand_r x) in
  (if isTotalTitle title d then 1000 else 0)
  + (if str_eqb cls (wantCls title) then 200 else 0)
  + (if descIsJustClassToken title (cand_r x) then 50 else 0)
  + Qmin 100 (log10 (Qabs (cand_fixed x) + 1) * 10).

Definition byScore (title : Title) (cands : list Candidate)
  : option NormalizedBaseRow :=
  option_map cand_r
    (hd_error
       (stableSort (fun a b => Qleb (score title b - score title a) 0) cands)).

Definition pickTotal (rows : list NormalizedBaseRow) (title : Title)
  (opts : option number) : option NormalizedBaseRow :=
  let candidates := candidatesOf title rows opts in
  match candidates with
  | [] => None
  | _ =>
      let ativo := num_abs (ativoOf opts) in
      match title with
      | TitlePassivo =>
          if num_gtb ativo (Fin 0) then
            let filtered := plausible ativo candidates in
            match ativo with
            | Fin a =>
                match bestByRelErr a filtered with
                | Some best =>
                    if Qltb (relErr a best) (35 # 100)
                    then Some (cand_r best)
                    else byScore title filtered
                | None => byScore title filtered
                end
            | _ =>
                (* an infinite [ativo] makes every relative error [NaN] *)
                byScore title filtered
            end
          else byScore title candidates
      | TitleAtivo => byScore title candidates
      end
  end.

End PickTotal.


(** ** Income-statement figures per period *)

Record TccKpiPeriod : Type := mkTcc {
  k_period : jsstring;
  k_year : option number;
  receita_liquida : Q;
  receita_bruta : Q;
  deducoes : Q;
  cmv_cpv : Q;
  despesas_admin : Q;
  despesas_comerciais : Q;
  outras_despesas : Q;
  lucro_bruto : option Q;
  resultado_operacional : option Q;
  lucro_liquido : option Q;
  margem_bruta_pct : option Q;
  margem_liquida_pct : option Q;
  buckets : list Bucket
}.

Record TccKpiResult : Type := mkTccResult {
  byPeriod : list TccKpiPeriod;
  notes : list jsstring
}.

(** The loop that fills [byPeriodMap]: the rows of each period, periods
    in the order of their first row *)
Definition groupByPeriod (keep : NormalizedBaseRow -> bool)
  (base : list NormalizedBaseRow)
  : list (jsstring * list NormalizedBaseRow) :=
  fold_left
    (fun m r =>
       if negb (nonEmpty (period r)) || negb (keep r) then m
       else
         let arr := match mapGet (period r) m with
                    | Some a => a
                    | None => []
                    end in
         mapSet (period r) (arr ++ [r]) m)
    base [].

(** [rows.find((x) => typeof x.year === "number")?.year ?? null] *)
Fixpoint firstYear (rows : list NormalizedBaseRow) : option number :=
  match rows with
  | [] => None
  | x :: rest =>
      match year x with Some y => Some y | None => firstYear rest end
  end.

(** [a || b] on numbers that are finite *)
Definition orElse (a b : Q) : Q := if Qeqb a 0 then b else a.

(** The figures of one period before the gate *)
Record Figures : Type := mkFigures {
  f_receita_liquida : Q;
  f_receita_bruta : Q;
  f_deducoes : Q;
  f_cmv_cpv : Q;
  f_despesas_admin : Q;
  f_despesas_comerciais : Q;
  f_outras_despesas : Q;
  f_lucro_bruto : option Q;
  f_resultado_operacional : option Q
}.

Definition figuresOf (rows : list NormalizedBaseRow) : Figures :=
  let receita_bruta :=
    orElse (sumByClassificationPrefixAbs rows PLAN_PREFIX.receita_bruta
              PreferCredito) 0 in
  let deducoes :=
    orElse (sumByClassificationPrefixAbs rows PLAN_PREFIX.deducoes
              PreferDebito) 0 in
  let cmv_cpv :=
    orElse (sumByClassificationPrefixAbs rows PLAN_PREFIX.cmv_cpv
              PreferDebito) 0 in
  let despesas_admin :=
    orElse (sumByClassificationPrefixAbs rows PLAN_PREFIX.despesas_admin
              PreferDebito) 0 in
  let receita_liquida := sumByMatchAbs rows RX.receitaLiquida PreferCredito in
  let receita_bruta :=
    orElse receita_bruta (sumByMatchAbs rows RX.receitaBruta PreferCredito) in
  let deducoes :=
    orElse deducoes (sumByMatchAbs rows RX.deducoes PreferDebito) in
  let cmv_cpv := orElse cmv_cpv (sumByMatchAbs rows RX.cmvCpv PreferDebito) in
  let despesas_admin :=
    orElse despesas_admin
           (sumByMatchAbs rows RX.despesasAdmin PreferDebito) in
  let receita_bruta :=
    orElse receita_bruta (sumByBucketAbs rows (map str ["3.1"]%string)) in
  let deducoes :=
    orElse deducoes (sumByBucketAbs rows (map str ["3.2"]%string)) in
  let cmv_cpv :=
    orElse cmv_cpv
           (sumByBucketAbs rows (map str ["3.3"; "3.4"; "3.5"]%string)) in
  let despesas_admin :=
    orElse despesas_admin
           (sumByBucketAbs rows (map str ["3.7"; "3.8"]%string)) in
  let receita_liquida :=
    if Qeqb receita_liquida 0 && negb (Qeqb receita_bruta 0)
    then brRound (receita_bruta - deducoes) else receita_liquida in
  let despesas_comerciais :=
    sumByMatchAbs rows RX.despesasComerciais PreferDebito in
  let outras_despesas := sumByMatchAbs rows RX.outrasDespesas PreferDebito in
  let lucro_bruto :=
    if negb (Qeqb receita_liquida 0)
    then Some (brRound (receita_liquida - cmv_cpv)) else None in
  let resultado_operacional :=
    match lucro_bruto with
    | Some lb =>
        Some (brRound (lb - despesas_admin - despesas_comerciais
                       - outras_despesas))
    | None => None
    end in
  mkFigures receita_liquida receita_bruta deducoes cmv_cpv despesas_admin
            despesas_comerciais outras_despesas lucro_bruto
            resultado_operacional.

(** The local [confident] of the source *)
Definition confident (f : Figures) : bool :=
  (Qltb 0 (f_receita_bruta f) || Qltb 0 (f_receita_liquida f))
  && (Qltb 0 (f_cmv_cpv f) || Qltb 0 (f_despesas_admin f)
      || Qltb 0 (f_despesas_comerciais f) || Qltb 0 (f_outras_despesas f)).

Definition noteNotConfident (period : jsstring) : jsstring :=
  str "Per" ++ chr 237 :: str "odo " ++ period
    ++ str ": KPIs de DRE sem valida" ++ chr 231 :: chr 227
    :: str "o suficiente no balancete (evitando fallback).".

Definition noteNoDre : jsstring :=
  str "N" ++ chr 227
    :: str "o foram detectadas linhas de DRE (classe 3.x) no balancete. "
    ++ str "KPIs de Receita/Lucro podem ficar indispon" ++ chr 237
    :: str "veis.".

(** The callback of [Array.from(byPeriodMap.entries()).map]: the entry of
    one period and the notes it pushes *)
Definition periodEntry (period : jsstring) (rows : list NormalizedBaseRow)
  : TccKpiPeriod * list jsstring :=
  let year := firstYear rows in
  let buckets := computeBuckets rows in
  let f := figuresOf rows in
  let safe := confident f in
  let gate (x : Q) : Q := if safe then x else 0 in
  let gateOpt (x : option Q) : option Q := if safe then x else None in
  (mkTcc period year
         (gate (f_receita_liquida f))
         (gate (f_receita_bruta f))
         (gate (f_deducoes f))
         (gate (f_cmv_cpv f))
         (gate (f_despesas_admin f))
         (gate (f_despesas_comerciais f))
         (gate (f_outras_despesas f))
         (gateOpt (f_lucro_bruto f))
         (gateOpt (f_resultado_operacional f))
         (gateOpt (f_resultado_operacional f))
         (gateOpt (match f_lucro_bruto f with
                   | Some lb => pct lb (f_receita_liquida f)
                   | None => None
                   end))
         (gateOpt (match f_resultado_operacional f with
                   | Some ro => pct ro (f_receita_liquida f)
                   | None => None
                   end))
         buckets,
   if safe then [] else [noteNotConfident period]).

Definition computeTccKpisFromBase (base : list NormalizedBaseRow)
  : TccKpiResult :=
  let byPeriodMap := groupByPeriod isDreRelevantRow base in
  let entries := map (fun '(p, rows) => periodEntry p rows) byPeriodMap in
  let byPeriod := map fst entries in
  let notes := flat_map snd entries in
  mkTccResult byPeriod
              (match byPeriod with
               | [] => notes ++ [noteNoDre]
               | _ => notes
               end).

(** ** Totals of assets and liabilities by period *)

Record BalanceKpiPeriod : Type := mkBalance {
  bal_period : jsstring;
  bal_year : option number;
  bal_ativo_total : Q;
  bal_passivo_total : Q
}.

Record BalanceKpiResult : Type := mkBalanceResult {
  bal_byPeriod : list BalanceKpiPeriod;
  bal_notes : list jsstring
}.

Definition periodo (period : jsstring) : jsstring :=
  str "Per" ++ chr 237 :: str "odo " ++ period.

Definition noteNoAtivo (period : jsstring) : jsstring :=
  periodo period ++ str ": n" ++ chr 227
    :: str "o encontrou TOTAL ATIVO com seguran" ++ chr 231 :: str "a.".

Definition noteNoPassivo (period : jsstring) : jsstring :=
  periodo period ++ str ": n" ++ chr 227
    :: str "o encontrou TOTAL PASSIVO com seguran" ++ chr 231 :: str "a.".

Definition noteNoPeriods : jsstring :=
  str "N" ++ chr 227 :: str "o foi poss" ++ chr 237
    :: str "vel agrupar per" ++ chr 237
    :: str "odos para Ativo/Passivo.".

(** [(row as any)?.saldoAtual] *)
Definition saldoOf (row : option NormalizedBaseRow) : any :=
  match row with Some r => n_saldoAtual r | None => VAbsent end.

Section BalanceTotals.

Variable log10 : Q -> Q.

(** The text a template literal gives for a finite number *)
Variable numberToString : Q -> jsstring.

Definition noteAtivoFixed (period : jsstring) (raw fixed : Q) : jsstring :=
  periodo period ++ str ": ATIVO corrigido por colagem de d" ++ chr 237
    :: str "gito (raw=" ++ numberToString (brRound raw)
    ++ str " -> fix=" ++ numberToString fixed ++ str ").".

Definition notePassivoFixed (period : jsstring) (raw fixed : Q)
  : jsstring :=
  periodo period ++ str ": PASSIVO corrigido/filtrado por outlier (raw="
    ++ numberToString (brRound raw)
    ++ str " -> fix=" ++ numberToString fixed ++ str ").".

(** The callback of [Array.from(byPeriodMap.entries()).map]: the totals
    of one period and the notes it pushes *)
Definition balanceEntry (period : jsstring) (rows : list NormalizedBaseRow)
  : BalanceKpiPeriod * list jsstring :=
  let year := firstYear rows in
  let ativoRow := pickTotal log10 rows TitleAtivo None in
  let ativo_raw := numFromAny (saldoOf ativoRow) in
  let ativo_total :=
    brRound (finiteOr0 (applyGluedFix TitleAtivo (Fin ativo_raw) None)) in
  let passivoRow :=
    pickTotal log10 rows TitlePassivo (Some (Fin ativo_total)) in
  let passivo_raw := numFromAny (saldoOf passivoRow) in
  let passivo_fixed :=
    applyGluedFix TitlePassivo (Fin passivo_raw) (Some (Fin ativo_total)) in
  let passivo_total := brRound (finiteOr0 passivo_fixed) in
  (mkBalance period year ativo_total passivo_total,
   (match ativoRow with None => [noteNoAtivo period] | Some _ => [] end)
   ++ (match passivoRow with None => [noteNoPassivo period] | Some _ => [] end)
   ++ (if negb (Qeqb ativo_raw 0)
          && Qltb (1 # 100) (Qabs (ativo_raw - ativo_total))
       then [noteAtivoFixed period ativo_raw ativo_total] else [])
   ++ (if negb (Qeqb passivo_raw 0)
          && Qltb (1 # 100) (Qabs (passivo_raw - passivo_total))
          && Qltb 0 passivo_total
       then [notePassivoFixed period passivo_raw passivo_total] else [])).

Definition computeBalanceTotalsFromBase (base : list NormalizedBaseRow)
  : BalanceKpiResult :=
  let byPeriodMap := groupByPeriod (fun _ => true) base in
  let entries := map (fun '(p, rows) => balanceEntry p rows) byPeriodMap in
  let byPeriod := map fst entries in
  let notes := flat_map snd entries in
  mkBalanceResult byPeriod
                  (match byPeriod with
                   | [] => notes ++ [noteNoPeriods]
                   | _ => notes
                   end).

End BalanceTotals.

End KpiEngine.

(* ================================================================== *)
(** * src/lib/exactTruth.ts *)
(* ================================================================== *)

Module ExactTruth.
Import JS ContabilParser NormalizeBase KpiEngine.

Local Open Scope Q_scope.

Definition applyGluedFixFromText (title : Title) (raw : number)
  (ctx : option number) : number :=
  match raw with
  | Fin r =>
      if Qltb (Qabs r) tiny then Fin 0
      else
        let sign : Q := if Qltb r 0 then -1 else 1 in
        let n := Qabs r in
        match title with
        | TitleAtivo =>
            if inBand 10000000 20000000 n && Qltb 0 (n - 10000000)
            then Fin (sign * (n - 10000000))
            else raw
        | TitlePassivo =>
            let ativo := num_abs (ativoOf ctx) in
            if inBand 30000000 40000000 n
               && (negb (num_truthy ativo)
                   || (num_gtb (Fin (n / 10)) (num_scale ativo (2 # 10))
                       && num_ltb (Fin (n / 10)) (num_scale ativo 5)))
            then Fin (sign * (n / 10))
            else if (if num_gtb ativo (Fin 0)
                     then num_gtb (Fin n)
                            (num_max (num_scale ativo 20) (Fin 200000000))
                     else Qltb 1000000000 n)
            then Fin 0
            else if inBand 20000000 30000000 n && Qltb 0 (n - 20000000)
            then Fin (sign * (n - 20000000))
            else if inBand 10000000 20000000 n && Qltb 0 (n - 10000000)
            then Fin (sign * (n - 10000000))
            else raw
        end
  | _ => Fin 0
  end.

(** [Number(v)] for a column value. A [{raw, value}] pair is an object
    without a numeric primitive value, so it converts to [NaN]. *)
Definition Number_of_any (v : any) : number :=
  match v with
  | VAbsent => Fin 0
  | VNum n => n
  | VStr s => Number_of_string s
  | VMoney _ => NaN
  end.

(** [getSaldo]: [Number(r?.saldoAtual ?? 0)], or 0 when that is not
    finite *)
Definition getSaldo (r : NormalizedBaseRow) : Q :=
  finiteOr0 (Number_of_any (n_saldoAtual r)).

(** The test of the second [filter] for a known assets total *)
Definition withinAssets (ativoTotal : Q) (r : NormalizedBaseRow) : bool :=
  let hardCap := ativoTotal * (105 # 100) in
  let billionGuard : number :=
    if Qltb ativoTotal 200000000 then Fin 1000000000 else PInf in
  let v := Qabs (getSaldo r) in
  if Qleb v 0 then false
  else if Qltb hardCap v then false
  else if num_geb (Fin v) billionGuard then false
  else true.

Definition filterOutliersForRankings (rows : list NormalizedBaseRow)
  (ativoTotal : number) : list NormalizedBaseRow :=
  match ativoTotal with
  | Fin a =>
      if Qeqb a 0 || Qleb a 0
      then filter (fun r => Qltb (Qabs (getSaldo r)) 1000000000000) rows
      else filter (withinAssets a) rows
  | _ => filter (fun r => Qltb (Qabs (getSaldo r)) 1000000000000) rows
  end.

(** ** Totals read from the text of the PDF *)

(** The money parser of this file: a number, 0 for what does not parse *)
Definition parseMoneyBR (raw : jsstring) : number :=
  let s := trim raw in
  if negb (nonEmpty s) then Fin 0
  else
    let neg := includes (str "(") s && includes (str ")") s in
    let cleaned :=
      replaceFirstChar "," "." (removeAll isDot (removeAll isParenChar s)) in
    let n := Number_of_string cleaned in
    if negb (isFinite n) then Fin 0
    else if neg then num_scale (num_abs n) (-1) else n.

(** The match of [moneyRe = /\(?\d{1,3}(?:\.\d{3})*,\d{2}\)?/g] that
    starts at the head of [s], if any. As for the parser's pattern, what
    follows the leading digits must be a dot or the comma, so the match is
    the maximal-munch one, or there is none. *)
Definition matchMoneyReAt (s : jsstring) : option jsstring :=
  let '(lp, s2) := takeOpt "(" s in
  let ds := takeWhile isDigit s2 in
  let s3 := dropWhile isDigit s2 in
  if ((1 <=? List.length ds) && (List.length ds <=? 3))%nat then
    let '(gs, s4) := thousandsGroups s3 in
    match s4 with
    | comma :: a :: b :: s5 =>
        if ascii_eqb comma "," && isDigit a && isDigit b then
          let '(rp, _) := takeOpt ")" s5 in
          Some (lp ++ ds ++ gs ++ comma :: a :: b :: rp)
        else None
    | _ => None
    end
  else None.

(** [line.match(moneyRe) ?? []]; [skip] counts the characters of the last
    match still to be passed over. *)
Fixpoint moneyReMatches_from (skip : nat) (s : jsstring) : list jsstring :=
  match s with
  | [] => []
  | _ :: tl =>
      match skip with
      | S k => moneyReMatches_from k tl
      | O =>
          match matchMoneyReAt s with
          | Some tok => tok :: moneyReMatches_from (List.length tok - 1) tl
          | None => moneyReMatches_from 0 tl
          end
      end
  end.

Definition moneyReMatches (line : jsstring) : list jsstring :=
  moneyReMatches_from 0 line.

Definition normalizeTxt (s : jsstring) : jsstring :=
  trim (collapseWs (toUpperCase (stripAccents s))).

(** [/\bD\b/.test(s)] for a digit [D]: the digit occurs with no word
    character right before it and none right after it. [prev] tells
    whether the character before the head of [s] is a word character. *)
Fixpoint hasLoneDigit (d : ascii) (prev : bool) (s : jsstring) : bool :=
  match s with
  | [] => false
  | c :: tl =>
      (ascii_eqb c d && negb prev && negb (startsWithWordChar tl))
      || hasLoneDigit d (isWordChar c) tl
  end.

Record LineCandidate : Type := mkLine {
  lc_line : jsstring;
  lc_nums : list jsstring;
  lc_score : Z
}.

Definition titleName (title : Title) : jsstring :=
  match title with
  | TitleAtivo => str "ATIVO"
  | TitlePassivo => str "PASSIVO"
  end.

Definition isPassivo (title : Title) : bool :=
  match title with TitlePassivo => true | TitleAtivo => false end.

(** The score [pickBestLine] gives a line, from its normalised text *)
Definition lineScore (title : Title) (up : jsstring) : Z :=
  let hasCirculante := includes (str "CIRCULANTE") up in
  let hasNao :=
    includes (str "NAO ") up || includes (str "N" ++ chr 195 :: str "O ") up in
  let hasPL := includes (str "PL") up || includes (str "PATRIM") up in
  ((if hasLoneDigit "1" false up && negb (isPassivo title) then 5 else 0)
   + (if hasLoneDigit "2" false up && isPassivo title then 5 else 0)
   + (if negb hasCirculante && negb hasNao then 3 else 0)
   + (if isPassivo title && hasPL then 2 else 0)
   + (if includes (str "TOTAL") up then 3 else 0))%Z.

(** The candidates of [pickBestLine], in the order of the lines *)
Definition lineCandidates (lines : list jsstring) (title : Title)
  : list LineCandidate :=
  flat_map
    (fun line =>
       let up := normalizeTxt line in
       if negb (includes (titleName title) up) then []
       else
         let nums := moneyReMatches line in
         if (List.length nums <? 3)%nat then []
         else [mkLine line nums (lineScore title up)])
    lines.

Definition pickBestLine (lines : list jsstring) (title : Title)
  : option LineCandidate :=
  hd_error
    (stableSort (fun a b => (lc_score b - lc_score a <=? 0)%Z)
                (lineCandidates lines title)).

Definition noteFallback : jsstring :=
  str "Falha ao extrair totais via texto do PDF; "
    ++ str "usando fallback pela base normalizada.".

(** [base?.find((r) => String(r?.period) === String(period)
    && typeof r?.year === "number")?.year ?? null] *)
Fixpoint yearOfPeriod (base : list NormalizedBaseRow) (p : jsstring)
  : option number :=
  match base with
  | [] => None
  | r :: rest =>
      if str_eqb (period r) p then
        match year r with
        | Some y => Some y
        | None => yearOfPeriod rest p
        end
      else yearOfPeriod rest p
  end.

Section ExactTotals.

Variable log10 : Q -> Q.
Variable numberToString : Q -> jsstring.

Definition noteAtivoFromText (period : jsstring) (raw fixed : Q)
  : jsstring :=
  periodo period ++ str ": ATIVO corrigido via texto do PDF (raw="
    ++ numberToString (brRound raw)
    ++ str " -> fix=" ++ numberToString fixed ++ str ").".

Definition notePassivoFromText (period : jsstring) (raw fixed : Q)
  : jsstring :=
  periodo period ++ str ": PASSIVO corrigido via texto do PDF (raw="
    ++ numberToString (brRound raw)
    ++ str " -> fix=" ++ numberToString fixed ++ str ").".

(** The two totals, with the notes the call pushes to [notes]; [None]
    for [null] *)
Definition extractTotalsFromPdfText (text period : jsstring)
  : option (Q * Q * list jsstring) :=
  let lines := splitLines text in
  match pickBestLine lines TitleAtivo with
  | None => None
  | Some ativoPick =>
      let ativoRaw := parseMoneyBR (hd [] (lc_nums ativoPick)) in
      let ativoFixed :=
        brRound (finiteOr0 (applyGluedFixFromText TitleAtivo ativoRaw None)) in
      match pickBestLine lines TitlePassivo with
      | None => None
      | Some passivoPick =>
          let passivoRaw := parseMoneyBR (hd [] (lc_nums passivoPick)) in
          let passivoFixed :=
            brRound (finiteOr0 (applyGluedFixFromText
                                  TitlePassivo passivoRaw
                                  (Some (Fin ativoFixed)))) in
          Some (ativoFixed, passivoFixed,
                (if num_truthy ativoRaw
                    && Qltb (1 # 100)
                            (Qabs (finiteOr0 ativoRaw - ativoFixed))
                 then [noteAtivoFromText period (finiteOr0 ativoRaw)
                                         ativoFixed]
                 else [])
                ++ (if num_truthy passivoRaw
                       && Qltb (1 # 100)
                               (Qabs (finiteOr0 passivoRaw - passivoFixed))
                       && Qltb 0 passivoFixed
                    then [notePassivoFromText period (finiteOr0 passivoRaw)
                                              passivoFixed]
                    else []))
      end
  end.

(** The loop over [Object.keys(textsByPeriod)]: the totals and the notes
    after it *)
Definition totalsFromTexts (base : list NormalizedBaseRow)
  (texts : list (jsstring * jsstring))
  : list BalanceKpiPeriod * list jsstring :=
  fold_left
    (fun acc entry =>
       let '(totals, notes) := acc in
       let '(p, text) := entry in
       match extractTotalsFromPdfText text p with
       | Some (a, l, pushed) =>
           (totals ++ [mkBalance p (yearOfPeriod base p) a l],
            notes ++ pushed)
       | None => (totals, notes)
       end)
    texts ([], []).

(** [textsByPeriod] is given by its entries, in the order of
    [Object.keys]; [None] when the argument is left out. *)
Definition extractExactTotalsByPeriod (base : list NormalizedBaseRow)
  (textsByPeriod : option (list (jsstring * jsstring))) : BalanceKpiResult :=
  let fallbackWith (notes : list jsstring) :=
    let fallback := computeBalanceTotalsFromBase log10 numberToString base in
    mkBalanceResult (bal_byPeriod fallback) (notes ++ bal_notes fallback) in
  match textsByPeriod with
  | Some ((_ :: _) as texts) =>
      let '(totals, notes) := totalsFromTexts base texts in
      match totals with
      | _ :: _ => mkBalanceResult totals notes
      | [] => fallbackWith (notes ++ [noteFallback])
      end
  | _ => fallbackWith []
  end.

End ExactTotals.

End ExactTruth.

(* ================================================================== *)
(** * src/lib/analyzeEngine.ts *)
(* ================================================================== *)

Module AnalyzeEngine.
Import JS ContabilParser NormalizeBase.
Import KpiEngine(mapGet, mapSet, stableSort).
Import ExactTruth(Number_of_any, filterOutliersForRankings).

(** [safeNumber(n)]: [Number(n)], or 0 when that is not finite *)
Definition safeNumber (n : any) : Q := finiteOr0 (Number_of_any n).

(** [/^[1-3]\.0$/] *)
Definition isRootDotZero (s : jsstring) : bool :=
  match s with
  | [c; d; z] => is123 c && ascii_eqb d "." && ascii_eqb z "0"
  | _ => false
  end.

Definition normalizeClassification (input : option jsstring) : jsstring :=
  let raw := trim (strOr input) in
  if negb (nonEmpty raw) then []
  else if isDotted raw then raw
  else
    match matchFusedDecimal raw with
    | Some (m1, m2, m3, m4) => m1 :: dot :: m2 :: dot :: m3 :: dot :: m4
    | None =>
        match matchFusedFour raw with
        | Some (m1, m2, m3, m4) => [m1; dot; m2; dot; m3; dot; m4]
        | None => if isRootDotZero raw then raw else raw
        end
    end.

(** ** Period labels *)

Inductive Kind : Type := KindQ | KindM | KindY | KindRaw.

Record Parsed : Type := mkParsed {
  kind : Kind;
  y : Z;
  n : Z
}.

Definition isT (c : ascii) : bool := ascii_eqb c "T" || ascii_eqb c "t".

(** The match of [/T\s*(\d)\s*\/\s*(\d{4})/i] at the head of [s]: the
    quarter digit and the four digits of the year *)
Definition matchQuarterAt (s : jsstring) : option (ascii * jsstring) :=
  match s with
  | t :: r =>
      if isT t then
        match dropWhile isWs r with
        | q :: r2 =>
            if isDigit q then
              match dropWhile isWs r2 with
              | sl :: r4 =>
                  if ascii_eqb sl "/" then
                    match dropWhile isWs r4 with
                    | a :: b :: c :: d :: _ =>
                        if isDigit a && isDigit b && isDigit c && isDigit d
                        then Some (q, [a; b; c; d]) else None
                    | _ => None
                    end
                  else None
              | [] => None
              end
            else None
        | [] => None
        end
      else None
  | [] => None
  end.

Fixpoint findQuarter (s : jsstring) : option (ascii * jsstring) :=
  match matchQuarterAt s with
  | Some m => Some m
  | None => match s with
            | [] => None
            | _ :: tl => findQuarter tl
            end
  end.

(** [/^(\d{4})-(\d{2})$/] *)
Definition matchYearMonth (s : jsstring) : option (jsstring * jsstring) :=
  match s with
  | [a; b; c; d; h; m1; m2] =>
      if forallb isDigit [a; b; c; d] && ascii_eqb h "-"
         && isDigit m1 && isDigit m2
      then Some ([a; b; c; d], [m1; m2]) else None
  | _ => None
  end.

(** [/^(\d{4})$/] *)
Definition matchYear (s : jsstring) : option jsstring :=
  match s with
  | [a; b; c; d] => if forallb isDigit s then Some s else None
  | _ => None
  end.

Definition parsePeriod (p : jsstring) : Parsed :=
  let s := trim p in
  match findQuarter s with
  | Some (q, yr) => mkParsed KindQ (digitsVal yr) (digitsVal [q])
  | None =>
      match matchYearMonth s with
      | Some (yr, mo) => mkParsed KindM (digitsVal yr) (digitsVal mo)
      | None =>
          match matchYear s with
          | Some yr => mkParsed KindY (digitsVal yr) 0
          | None => mkParsed KindRaw 0 0
          end
      end
  end.

Definition isRaw (k : Kind) : bool :=
  match k with KindRaw => true | _ => false end.

Definition orderKind (k : Kind) : Z :=
  match k with KindY => 1 | KindQ => 2 | KindM => 3 | KindRaw => 9 end.

Section SortPeriodLabels.

(** [String.prototype.localeCompare], the collation of the host *)
Variable localeCompare : jsstring -> jsstring -> Z.

(** The comparator handed to [sort] *)
Definition comparePeriods (a b : jsstring * Parsed) : Z :=
  let ak := orderKind (kind (snd a)) in
  let bk := orderKind (kind (snd b)) in
  if negb (ak =? bk) then ak - bk
  else if negb (y (snd a) =? y (snd b)) then y (snd a) - y (snd b)
  else if negb (n (snd a) =? n (snd b)) then n (snd a) - n (snd b)
  else localeCompare (fst a) (fst b).

Definition sortPeriodLabels (labels : list jsstring) : list jsstring :=
  let parsed := map (fun raw => (raw, parsePeriod raw)) labels in
  let hasAny := existsb (fun x => negb (isRaw (kind (snd x)))) parsed in
  if negb hasAny then labels
  else
    map fst (stableSort (fun a b => comparePeriods a b <=? 0) parsed).

End SortPeriodLabels.

(** ** Rankings *)

Definition mkKey (code desc : option jsstring) : jsstring :=
  let c := trim (strOr code) in
  let d := toUpperCase (trim (strOr desc)) in
  if nonEmpty c then str "C:" ++ c ++ str "|D:" ++ d
  else str "D:" ++ d.

(** [[...arr].sort((a, b) => score(b) - score(a)).slice(0, n)] *)
Definition topN {T : Type} (arr : list T) (k : nat) (score : T -> Q)
  : list T :=
  firstn k (stableSort (fun a b => Qleb (score b - score a) 0) arr).

Definition groupFromClassification (clsRaw : option jsstring) : Group :=
  let cls := normalizeClassification clsRaw in
  let isRoot (d : string) :=
    str_eqb cls (str d) || str_eqb cls (str d ++ str ".0")
    || startsWith (str d ++ str ".") cls in
  if isRoot "1"%string then ATIVO
  else if isRoot "2"%string then PASSIVO
  else if isRoot "3"%string then DRE
  else OUTROS.

Record KpiBlock : Type := mkKpiBlock {
  ativoTotal : number;
  passivoTotal : number;
  dreTotal : number;
  linhasDetectadas : nat
}.

Record TopSaldo : Type := mkTop {
  t_code : option jsstring;
  t_description : option jsstring;
  t_value : Q;
  t_period : jsstring
}.

(** [kpisByPeriod.find((x) => x.period === p)?.kpis.ativoTotal ?? 0] *)
Fixpoint ativoTotalOf (kpisByPeriod : list (jsstring * KpiBlock))
  (p : jsstring) : number :=
  match kpisByPeriod with
  | [] => Fin 0
  | (p', k) :: rest =>
      if str_eqb p' p then ativoTotal k else ativoTotalOf rest p
  end.

(** The rows of a period that pass the outlier filter *)
Definition safeRowsOf (kpisByPeriod : list (jsstring * KpiBlock))
  (base : list NormalizedBaseRow) (p : jsstring) : list NormalizedBaseRow :=
  let ativoTotal := ativoTotalOf kpisByPeriod p in
  let rowsPeriod := filter (fun r => str_eqb (period r) p) base in
  filterOutliersForRankings rowsPeriod ativoTotal.

(** The first ranking loop: what is pushed on [topAtivo] and [topPassivo] *)
Definition pushTop (p : jsstring) (acc : list TopSaldo * list TopSaldo)
  (r : NormalizedBaseRow) : list TopSaldo * list TopSaldo :=
  let v := safeNumber (n_saldoAtual r) in
  if Qeqb v 0 then acc
  else
    let desc := toUpperCase (strOr (n_description r)) in
    if includes (str "TOTAL") desc then acc
    else
      let entry := mkTop (n_code r) (n_description r) (brRound v) p in
      match groupFromClassification (n_classification r) with
      | ATIVO => (fst acc ++ [entry], snd acc)
      | PASSIVO => (fst acc, snd acc ++ [entry])
      | _ => acc
      end.

Definition topCandidates (perFile : list jsstring)
  (kpisByPeriod : list (jsstring * KpiBlock))
  (base : list NormalizedBaseRow) : list TopSaldo * list TopSaldo :=
  fold_left
    (fun acc p => fold_left (pushTop p) (safeRowsOf kpisByPeriod base p) acc)
    perFile ([], []).

Definition absValue (x : TopSaldo) : Q := Qabs (t_value x).

Definition topSaldos (perFile : list jsstring)
  (kpisByPeriod : list (jsstring * KpiBlock))
  (base : list NormalizedBaseRow) : list TopSaldo * list TopSaldo :=
  let '(topAtivo, topPassivo) := topCandidates perFile kpisByPeriod base in
  (topN topAtivo 10 absValue, topN topPassivo 10 absValue).

Record Variation : Type := mkVar {
  v_code : option jsstring;
  v_description : option jsstring;
  v_values : list (jsstring * Q)
}.

(** The second ranking loop: one update of the variation map *)
Definition recordValue (p : jsstring) (m : list (jsstring * Variation))
  (r : NormalizedBaseRow) : list (jsstring * Variation) :=
  let v := safeNumber (n_saldoAtual r) in
  let key := mkKey (n_code r) (n_description r) in
  let prev := match mapGet key m with
              | Some x => x
              | None => mkVar (n_code r) (n_description r) []
              end in
  mapSet key
         (mkVar (v_code prev) (v_description prev)
                (mapSet p (brRound v) (v_values prev)))
         m.

Definition variationMap (perFile : list jsstring)
  (kpisByPeriod : list (jsstring * KpiBlock))
  (base : list NormalizedBaseRow) : list (jsstring * Variation) :=
  fold_left
    (fun m p => fold_left (recordValue p) (safeRowsOf kpisByPeriod base p) m)
    perFile [].

(** ** Monthly labels *)

(** [dd/mm/yyyy] at the head of [s]: the three groups and the rest *)
Definition matchDateAt (s : jsstring)
  : option (jsstring * jsstring * jsstring * jsstring) :=
  match s with
  | d1 :: d2 :: s1 :: m1 :: m2 :: s2 :: y1 :: y2 :: y3 :: y4 :: rest =>
      if forallb isDigit [d1; d2; m1; m2; y1; y2; y3; y4]
         && ascii_eqb s1 "/" && ascii_eqb s2 "/"
      then Some ([d1; d2], [m1; m2], [y1; y2; y3; y4], rest) else None
  | _ => None
  end.

Definition toMonthlyLabelFromRange (range : jsstring) : option jsstring :=
  match matchDateAt range with
  | Some (_, mm1, yyyy1, p1 :: p2 :: rest) =>
      if ascii_eqb p1 "." && ascii_eqb p2 "." then
        match matchDateAt rest with
        | Some (_, mm2, yyyy2, []) =>
            if str_eqb mm1 mm2 && str_eqb yyyy1 yyyy2
            then Some (yyyy1 ++ "-"%char :: mm1) else None
        | _ => None
        end
      else None
  | _ => None
  end.

(** ** The DRE total of a period *)

Definition numFromAny (v : any) : Q :=
  match v with
  | VAbsent => 0%Q
  | VNum n => finiteOr0 n
  | VStr s => finiteOr0 (Number_of_string s)
  | VMoney m => finiteOr0 (value m)
  end.

(** [cls === "3" || cls === "3.0" || cls.startsWith("3.")] *)
Definition isClass3 (cls : jsstring) : bool :=
  str_eqb cls (str "3") || str_eqb cls (str "3.0")
  || startsWith (str "3.") cls.

(** The value a row adds to the total: its debit, else its credit, else
    its balance, in absolute value *)
Definition dreAmount (r : NormalizedBaseRow) : Q :=
  if Qltb (1 # 1000000000)%Q (Qabs (numFromAny (n_debito r)))
  then Qabs (numFromAny (n_debito r))
  else if Qltb (1 # 1000000000)%Q (Qabs (numFromAny (n_credito r)))
  then Qabs (numFromAny (n_credito r))
  else Qabs (numFromAny (n_saldoAtual r)).

Definition computeDreTotalFromBase (base : list NormalizedBaseRow)
  (p : jsstring) : Q :=
  brRound
    (fold_left
       (fun s r =>
          if negb (str_eqb (period r) p) then s
          else
            let cls := normalizeClassification (n_classification r) in
            if negb (isClass3 cls) then s
            else
              let v := dreAmount r in
              if Qltb v (1 # 100)%Q then s else (s + v)%Q)
       base 0%Q).

End AnalyzeEngine.

(* ================================================================== *)
(** * Vocabulary of the specification *)
(* ================================================================== *)

Import JS ContabilParser NormalizeBase.

Import ContabilParser(takeOpt, thousandsGroups, matchMoneyAt, isMoneyToken,
                      parseMoneyBR, cleanSpaces, isParenChar, isMinus, isDot,
                      nbsp, step, initialState, pendingTotalLine, emitted,
                      p_line, p_code, parseContabilRowsFromText,
                      headerFlushRow, finalFlushRow, rows, rawLine,
                      description, group, code, ParserState, PendingTotal,
                      detectColumnOrderFromHeader, detectSectionHeader,
                      isHeaderLine, extractLeadingCode,
                      extractFirstClassification, Group_eqb, currentGroup,
                      truthyStr, strEqOpt).
Import KpiEngine(Title, TitleAtivo, TitlePassivo, applyGluedFix, tiny,
                 insertSorted, stableSort, Candidate, cand_r, cand_fixed,
                 candidatesOf, plausible, relErr, bestByRelErr, byScore,
                 pickTotal, mapGet, mapSet, groupByPeriod, isDreRelevantRow,
                 figuresOf, confident, periodEntry, computeTccKpisFromBase,
                 noteNotConfident, noteNoDre, byPeriod, notes, Figures,
                 TccKpiPeriod, buckets, computeBuckets, k_period,
                 receita_liquida, receita_bruta, deducoes, cmv_cpv,
                 despesas_admin, despesas_comerciais, outras_despesas,
                 lucro_bruto, resultado_operacional, lucro_liquido,
                 margem_bruta_pct, margem_liquida_pct, f_receita_liquida,
                 f_receita_bruta, f_deducoes, f_cmv_cpv, f_despesas_admin,
                 f_despesas_comerciais, f_outras_despesas, f_lucro_bruto,
                 f_resultado_operacional, BalanceKpiPeriod, bal_period,
                 bal_year, bal_ativo_total, bal_passivo_total,
                 BalanceKpiResult, bal_byPeriod, bal_notes, noteNoAtivo,
                 noteNoPassivo, noteNoPeriods, balanceEntry,
                 computeBalanceTotalsFromBase, firstYear).
Import ExactTruth(applyGluedFixFromText, getSaldo, withinAssets,
                  filterOutliersForRankings, Number_of_any, LineCandidate,
                  lc_line, lc_nums, lc_score, lineScore, lineCandidates,
                  pickBestLine, normalizeTxt, titleName,
                  extractTotalsFromPdfText, totalsFromTexts,
                  extractExactTotalsByPeriod, noteFallback, yearOfPeriod).
Import AnalyzeEngine(safeNumber, safeRowsOf, pushTop, topCandidates,
                     topSaldos, recordValue, variationMap, KpiBlock, TopSaldo,
                     Variation, v_values, mkKey, Kind, KindQ, KindM, KindY,
                     KindRaw, Parsed, kind, y, n, parsePeriod, orderKind,
                     comparePeriods, sortPeriodLabels, isRaw, matchDateAt,
                     toMonthlyLabelFromRange, isClass3, dreAmount,
                     computeDreTotalFromBase, findQuarter, matchQuarterAt,
                     matchYearMonth, isT, mkParsed).

Ltac ascii_cases c :=
  destruct c as [[] [] [] [] [] [] [] []]; vm_compute; try reflexivity;
  try discriminate; auto.

(** A string is trimmed when white space neither starts nor ends it. *)
Definition trimmed (s : jsstring) : Prop :=
  dropWhile isWs s = s /\ dropWhile isWs (rev s) = rev s.

Local Open Scope Q_scope.

(** The sign factor of the magnitude corrections *)
Definition signOf (v : Q) : Q := if Qltb v 0 then -1 else 1.

(** The claim as the specification words it, at one value [v]: inside the
    band the magnitude loses exactly 10,000,000 and the sign is kept,
    outside the band the value comes back unchanged. *)
Definition assets_fix_as_specified
  (corr : Title -> number -> option number -> number) (v : Q) : Prop :=
  (10000000 <= Qabs v /\ Qabs v < 20000000 ->
   exists q, corr TitleAtivo (Fin v) None = Fin q
             /\ Qabs q == Qabs v - 10000000)
  /\ (~ (10000000 <= Qabs v /\ Qabs v < 20000000) ->
      corr TitleAtivo (Fin v) None = Fin v).


(** The example of the specification: a row described as PASSIVO whose
    current balance reads 31.082.543,78. *)
Definition passivoExampleRow : NormalizedBaseRow :=
  mkNorm (str "2024") None None None (Some (str "PASSIVO")) (Some PASSIVO)
         (VMoney (mkMoney (str "31.082.543,78") (Fin (3108254378 # 100))))
         VAbsent VAbsent VAbsent None.


Definition rowWithSaldo (v : any) : NormalizedBaseRow :=
  mkNorm (str "2024") None (Some (str "1.1")) (Some (str "11"))
         (Some (str "Caixa")) (Some ATIVO) v VAbsent VAbsent VAbsent None.

(** A row whose [{raw, value}] pair in [saldoAtual], if it has one,
    carries the value [g] assigns to it *)
Definition withPairValue (g : MoneyBR -> number) (r : NormalizedBaseRow)
  : NormalizedBaseRow :=
  mkNorm (period r) (year r) (n_classification r) (n_code r)
         (n_description r) (n_group r)
         (match n_saldoAtual r with
          | VMoney m => VMoney (mkMoney (raw m) (g m))
          | v => v
          end)
         (n_saldoAnterior r) (n_debito r) (n_credito r) (n_rawLine r).

Definition pairRow : NormalizedBaseRow :=
  rowWithSaldo (VMoney (mkMoney (str "5.000,00") (Fin 5000))).






(** A period with revenue rows and no cost or expense row *)
Definition revenueOnlyBase : list NormalizedBaseRow :=
  [mkNorm (str "2024-01") None (Some (str "3.1.1")) (Some (str "263"))
          (Some (str "Receita de vendas")) (Some DRE)
          VAbsent VAbsent VAbsent
          (VMoney (mkMoney (str "1.000,00") (Fin 1000)))
          None].

Local Open Scope nat_scope.

(** A source row is read at every reference of [rows]. *)
Definition refs_to_sources (h : Store) (rows : list Ref) : Prop :=
  Forall (fun r => exists src, nth_error h r = Some (SrcRow src)) rows.



Definition sampleSource : ContabilRow :=
  mkRow (str "1 1 100,00 200,00") None (Some (str "1"))
        (Some (str "total ativo")) None
        (Some (mkMoney (str "100,00") (Fin 100)))
        (Some (mkMoney (str "200,00") (Fin 200))) None None.

Local Open Scope Z_scope.

(** The place of a kind of label in the output of the sort: bare years,
    then quarters, then year-months, then labels that do not parse. *)
Definition kindRank (k : Kind) : Z :=
  match k with KindY => 0 | KindQ => 1 | KindM => 2 | KindRaw => 3 end.

(** [a] may stand in front of [b]: by kind, then by year, then by index,
    then by [localeCompare]. *)
Definition keyed_le (localeCompare : jsstring -> jsstring -> Z)
  (a b : jsstring * Parsed) : Prop :=
  kindRank (kind (snd a)) < kindRank (kind (snd b))
  \/ (kindRank (kind (snd a)) = kindRank (kind (snd b))
      /\ (y (snd a) < y (snd b)
          \/ (y (snd a) = y (snd b)
              /\ (n (snd a) < n (snd b)
                  \/ (n (snd a) = n (snd b)
                      /\ localeCompare (fst a) (fst b) <= 0))))).

Definition period_le (localeCompare : jsstring -> jsstring -> Z)
  (a b : jsstring) : Prop :=
  keyed_le localeCompare (a, parsePeriod a) (b, parsePeriod b).

(** A stand-in for the host collation: the order of the code units *)
Fixpoint compareCodeUnits (a b : jsstring) : Z :=
  match a, b with
  | [], [] => 0
  | [], _ :: _ => -1
  | _ :: _, [] => 1
  | x :: a', y :: b' =>
      match N.compare (charCode x) (charCode y) with
      | Lt => -1
      | Gt => 1
      | Eq => compareCodeUnits a' b'
      end
  end.

(** The claim as the specification words it, on one output: every label
    that does not parse stands in front of every bare year. *)
Definition unparsed_before_years (out : list jsstring) : Prop :=
  forall i j a b,
    nth_error out i = Some a -> nth_error out j = Some b ->
    kind (parsePeriod a) = KindRaw -> kind (parsePeriod b) = KindY ->
    (i < j)%nat.

Local Open Scope Q_scope.

(** The three negative forms: wrapped in parentheses, a trailing minus, a
    leading minus *)
Definition isNegativeForm (tok : jsstring) : bool :=
  (startsWith (str "(") tok && endsWith (str ")") tok)
  || endsWith (str "-") tok
  || startsWith (str "-") tok.

Definition notComma (c : ascii) : bool := negb (ascii_eqb c ",").

(** The digits in front of the decimal comma, the dots between the groups
    of thousands left out, and the digits after it *)
Definition integerDigits (tok : jsstring) : jsstring :=
  filter isDigit (takeWhile notComma tok).

Definition centDigits (tok : jsstring) : jsstring :=
  filter isDigit (dropWhile notComma tok).

Definition moneyMagnitude (tok : jsstring) : Q :=
  inject_Z (digitsVal (integerDigits tok))
  + (digitsVal (centDigits tok) # 100).

(** The text [parseMoneyBR] hands to [Number] *)
Definition moneyNumeral (raw : jsstring) : jsstring :=
  replaceFirstChar "," "."
    (removeAll isDot (trim (removeAll isMinus (removeAll isParenChar raw)))).

Definition groupChar (c : ascii) : bool := isDot c || isDigit c.

Definition optOf (c : ascii) (p : jsstring) : Prop := p = [] \/ p = [c].

(** A token: an optional parenthesis, an optional minus, one to three
    digits, groups of a dot and three digits, the comma and two digits, an
    optional closing parenthesis, an optional minus *)
Inductive TokenShape : jsstring -> Prop :=
| token_shape (lp lm ds gs : jsstring) (a b : ascii) (rp tm : jsstring) :
    optOf "(" lp -> optOf "-" lm ->
    ds <> [] -> forallb isDigit ds = true ->
    forallb groupChar gs = true ->
    isDigit a = true -> isDigit b = true ->
    optOf ")" rp -> optOf "-" tm ->
    TokenShape (lp ++ lm ++ ds ++ gs ++ ","%char :: a :: b :: rp ++ tm).

Definition tokenChar (c : ascii) : bool :=
  groupChar c || isParenChar c || isMinus c || ascii_eqb c ",".

Definition lineBreak : jsstring := [chr 10].

Definition firstTotalLine : jsstring := str "7 7 1,00 2,00 3,00 4,00".


Local Open Scope nat_scope.

(** Every white-space character of [s] is a plain space, and no two of
    them are adjacent; [prev] tells whether a space precedes [s]. *)
Fixpoint singleSpaces (prev : bool) (s : jsstring) : bool :=
  match s with
  | [] => true
  | c :: t =>
      if isWs c then ascii_eqb c " " && negb prev && singleSpaces true t
      else singleSpaces false t
  end.

Definition startsWithDigit (s : jsstring) : bool :=
  match s with d :: _ => isDigit d | [] => false end.

Definition startsWithThreeDigits (s : jsstring) : bool :=
  match s with
  | a :: b :: d :: _ => isDigit a && isDigit b && isDigit d
  | _ => false
  end.

(** Some comma of [s] has three digits directly behind it: a cents group
    with a digit glued to it. *)
Fixpoint gluedCents (s : jsstring) : bool :=
  match s with
  | [] => false
  | c :: t => (ascii_eqb c "," && startsWithThreeDigits t) || gluedCents t
  end.

(** Some closing parenthesis of [s] has a digit directly behind it. *)
Fixpoint gluedParen (s : jsstring) : bool :=
  match s with
  | [] => false
  | c :: t => (ascii_eqb c ")" && startsWithDigit t) || gluedParen t
  end.

Definition nbspToSpace (c : ascii) : ascii :=
  if ascii_eqb c nbsp then " "%char else c.

Definition optList {A : Type} (o : option A) : list A :=
  match o with Some x => [x] | None => [] end.

(** The values a row carries, in the order of the fields *)
Definition filled (c : MoneyCols) : list MoneyBR :=
  optList (c_saldoAtual c) ++ optList (c_saldoAnterior c)
  ++ optList (c_debito c) ++ optList (c_credito c).

(** The four columns in the order in which the header of the ledger
    names them *)
Definition columnsInOrder (order : ColumnOrder) (c : MoneyCols)
  : list (option MoneyBR) :=
  match order with
  | SA_SANT_DEB_CRED =>
      [c_saldoAtual c; c_saldoAnterior c; c_debito c; c_credito c]
  | SANT_DEB_CRED_SA =>
      [c_saldoAnterior c; c_debito c; c_credito c; c_saldoAtual c]
  end.

Definition fiveTokens : list jsstring :=
  map str ["9,99"; "1,00"; "2,00"; "3,00"; "4,00"]%string.

(** The text of a line as the loop works on it *)
Definition processed (rawText : jsstring) : jsstring :=
  unglueMoneyTokens (cleanSpaces rawText).

(** The lines the loop runs over: trimmed, the empty ones left out *)
Definition contentLines (text : jsstring) : list jsstring :=
  filter nonEmpty (map trim (splitLines text)).

(** The monetary values of a row *)
Definition rowValues (r : ContabilRow) : list MoneyBR :=
  optList (saldoAtual r) ++ optList (saldoAnterior r)
  ++ optList (debito r) ++ optList (credito r).

(** The five things one iteration can do with its line: take it as the
    header of the columns, take it as a section header (flushing the
    pending total line), skip it, buffer it as the pending total line, or
    emit a row for it. *)
Inductive StepOutcome (st : ParserState) (line : jsstring)
  : ParserState -> Prop :=
| step_order (o : ColumnOrder) :
    StepOutcome st line
      (mkState (currentGroup st) o (pendingTotalLine st) (emitted st))
| step_section (g : Group) :
    g <> OUTROS ->
    StepOutcome st line
      (mkState g (columnOrder st) None
         (match pendingTotalLine st with
          | Some p => emitted st ++ [headerFlushRow p g]
          | None => emitted st
          end))
| step_skip : StepOutcome st line st
| step_buffer (c : option jsstring) :
    currentGroup st = OUTROS ->
    4 <= List.length (moneyMatches line) ->
    StepOutcome st line
      (mkState (currentGroup st) (columnOrder st)
         (Some (mkPending line c
                  (mapMoneyTokens (moneyMatches line) (columnOrder st))))
         (emitted st))
| step_row (g : Group) (c d cls : option jsstring) :
    2 <= List.length (moneyMatches line) ->
    (currentGroup st <> OUTROS -> g = currentGroup st) ->
    StepOutcome st line
      (mkState (currentGroup st) (columnOrder st) (pendingTotalLine st)
         (emitted st
          ++ [let cols := mapMoneyTokens (moneyMatches line) (columnOrder st) in
              mkRow line (Some g) c d cls
                    (c_saldoAtual cols) (c_saldoAnterior cols)
                    (c_debito cols) (c_credito cols)])).

(** What holds of a row that stems from one of the lines [L] *)
Definition rowOfLines (L : list jsstring) (r : ContabilRow) : Prop :=
  (exists g, group r = Some g)
  /\ (exists m, saldoAnterior r = Some m)
  /\ (exists l, In l L /\ rawLine r = processed l)
  /\ 2 <= List.length (moneyMatches (rawLine r))
  /\ (forall m, In m (rowValues r) ->
                In (raw m) (moneyMatches (rawLine r))
                /\ parseMoneyBR (raw m) = Some m).

Definition pendingOfLines (L : list jsstring) (p : PendingTotal) : Prop :=
  (exists l, In l L /\ p_line p = processed l)
  /\ 4 <= List.length (moneyMatches (p_line p))
  /\ exists o, p_cols p = mapMoneyTokens (moneyMatches (p_line p)) o.

Definition pendingCount (st : ParserState) : nat :=
  match pendingTotalLine st with Some _ => 1 | None => 0 end.

(** The invariant of the loop after the lines [L] *)
Definition loopInvariant (L : list jsstring) (st : ParserState) : Prop :=
  Forall (rowOfLines L) (emitted st)
  /\ (forall p, pendingTotalLine st = Some p ->
                pendingOfLines L p /\ currentGroup st = OUTROS)
  /\ List.length (emitted st) + pendingCount st <= List.length L.

Definition cashLine : jsstring := str "11 1.1.01 Caixa 1.234,56 2,00".

Definition cashRow : ContabilRow :=
  hd (mkRow [] None None None None None None None None)
     (rows (parseContabilRowsFromText cashLine)).

Definition headerThenRows : list jsstring :=
  map str ["PASSIVO"; "263 3.1 Receita 1,00 2,00"; "7 7 1,00 2,00 3,00 4,00"]%string.

(** The description fall-back applied to a row *)
Definition regrouped (n : NormalizedBaseRow) : NormalizedBaseRow :=
  match groupFromDescription n with
  | Some g => setGroup g n
  | None => n
  end.

(** The normalized row of a source row: the record of the first loop with
    the group the second loop leaves in it *)
Definition normalizedRow (ctx : Ctx) (src : ContabilRow) : NormalizedBaseRow :=
  regrouped (buildRow ctx src).

Definition isSection (g : Group) : bool :=
  match g with OUTROS => false | _ => true end.

Definition totalSource : ContabilRow :=
  mkRow (str "1 1 100,00 200,00") (Some OUTROS) (Some (str "1"))
        (Some (str "Total  Ativo")) None
        (Some (mkMoney (str "100,00") (Fin 100)))
        (Some (mkMoney (str "200,00") (Fin 200))) None None.

Local Open Scope Q_scope.

(** The number of cents [brRound] rounds to *)
Definition centsOf (x : Q) : Z := Qfloor (x * 100 + (1 # 2)).

Local Open Scope nat_scope.

(** The loops over rows that fill a [Map] have one shape: a row with a key
    replaces the entry of the key by the update of what was there, or of
    an initial value. *)
Definition aggStep {R V : Type} (keyOf : R -> option jsstring)
  (upd : V -> R -> V) (init : V) (m : list (jsstring * V)) (r : R)
  : list (jsstring * V) :=
  match keyOf r with
  | None => m
  | Some k =>
      mapSet k (upd (match mapGet k m with Some v => v | None => init end) r)
             m
  end.

Definition hasKey {R : Type} (keyOf : R -> option jsstring) (k : jsstring)
  (r : R) : bool :=
  match keyOf r with Some k' => str_eqb k k' | None => false end.

(** What the entry of [k] holds after the rows [l] *)
Definition aggOf {R V : Type} (keyOf : R -> option jsstring)
  (upd : V -> R -> V) (init : V) (k : jsstring) (l : list R) : option V :=
  match filter (hasKey keyOf k) l with
  | [] => None
  | rs => Some (fold_left upd rs init)
  end.

(** The rows [groupByPeriod] collects under the period [p] *)
Definition rowsOfPeriod (keep : NormalizedBaseRow -> bool) (p : jsstring)
  (base : list NormalizedBaseRow) : list NormalizedBaseRow :=
  filter (fun r => nonEmpty (period r) && keep r && str_eqb p (period r)) base.

Definition periodKey (keep : NormalizedBaseRow -> bool) (r : NormalizedBaseRow)
  : option jsstring :=
  if negb (nonEmpty (period r)) || negb (keep r) then None
  else Some (period r).

Definition pushRow (arr : list NormalizedBaseRow) (r : NormalizedBaseRow)
  : list NormalizedBaseRow := arr ++ [r].

Definition bucketOf (r : NormalizedBaseRow) : option jsstring :=
  KpiEngine.bucketKey (n_classification r).

(** The rows of a bucket, in the order of the input *)
Definition rowsOfBucket (k : jsstring) (rows : list NormalizedBaseRow)
  : list NormalizedBaseRow :=
  filter (hasKey bucketOf k) rows.

Definition addToBucket (prev : Q * nat) (r : NormalizedBaseRow) : Q * nat :=
  ((fst prev + KpiEngine.balanceOrMovement r)%Q, S (snd prev)).

(** The sum the loop accumulates, from 0 and in the order of the rows *)
Definition sumBalances (l : list NormalizedBaseRow) : Q :=
  fold_left (fun t r => (t + KpiEngine.balanceOrMovement r)%Q) l 0%Q.

Definition toBucket (e : jsstring * (Q * nat)) : KpiEngine.Bucket :=
  let '(k, (t, n)) := e in KpiEngine.mkBucket k (brRound t) n.

Definition largerFirst (a b : KpiEngine.Bucket) : bool :=
  Qleb (Qabs (KpiEngine.total b) - Qabs (KpiEngine.total a)) 0.

Definition bucketRows : list NormalizedBaseRow :=
  [mkNorm (str "2024") None (Some (str "3.1.01")) None None (Some DRE)
          (VNum (Fin 100)) VAbsent VAbsent VAbsent None;
   mkNorm (str "2024") None (Some (str "312.5")) None None (Some DRE)
          (VNum (Fin (- (25 # 10)))) VAbsent VAbsent VAbsent None;
   mkNorm (str "2024") None (Some (str "3.7")) None None (Some DRE)
          VAbsent VAbsent (VNum (Fin 700)) (VNum (Fin 1)) None;
   mkNorm (str "2024") None (Some (str "4.1")) None None (Some OUTROS)
          (VNum (Fin 999)) VAbsent VAbsent VAbsent None].

Local Open Scope Q_scope.

(** A column counts as empty when its magnitude is at most 1e-9. *)
Definition negligible (v : any) : Prop := Qabs (KpiEngine.numFromAny v) <= tiny.

(** A whole number of cents *)
Definition wholeCents (x : Q) : Prop := exists z : Z, x == inject_Z z / 100.



(** A period whose deductions exceed its gross revenue *)
Definition lossBase : list NormalizedBaseRow :=
  [mkNorm (str "2024") None (Some (str "3.1.1")) None
          (Some (str "Vendas")) (Some DRE)
          VAbsent VAbsent VAbsent (VNum (Fin 100)) None;
   mkNorm (str "2024") None (Some (str "3.2.1")) None
          (Some (str "Devolucoes")) (Some DRE)
          VAbsent VAbsent (VNum (Fin 150)) VAbsent None;
   mkNorm (str "2024") None (Some (str "3.3.1")) None
          (Some (str "Custo")) (Some DRE)
          VAbsent VAbsent (VNum (Fin 30)) VAbsent None].

Definition lossEntry : TccKpiPeriod :=
  hd (fst (periodEntry [] [])) (byPeriod (computeTccKpisFromBase lossBase)).

(** What a correction can return for the value [r]: 0, [r] itself, [r]
    with a constant taken off its magnitude, or a tenth of [r] *)
Inductive FixOutcome (r : Q) : Q -> Prop :=
| fix_zero : FixOutcome r 0
| fix_same : FixOutcome r r
| fix_minus (c : Q) :
    0 <= c -> 0 < Qabs r - c -> FixOutcome r (signOf r * (Qabs r - c))
| fix_tenth : FixOutcome r (signOf r * (Qabs r / 10)).

(** The largest liabilities total the correction lets through *)
Definition envelope (ativo : Q) : Q :=
  if Qeqb ativo 0 then 1000000000 else Qmax (Qabs ativo * 20) 200000000.

Local Open Scope nat_scope.

(** The description as it enters the key *)
Definition keyDescription (desc : option jsstring) : jsstring :=
  toUpperCase (trim (strOr desc)).

Local Open Scope Q_scope.



Local Open Scope Z_scope.

(** A line that [pickBestLine] considers for a title: its normalised text
    names the title and the line has at least three money tokens. *)
Definition qualifies (title : Title) (line : jsstring) : bool :=
  includes (titleName title) (normalizeTxt line)
  && (3 <=? List.length (ExactTruth.moneyReMatches line))%nat.

(** The candidate [pickBestLine] makes of a line *)
Definition candidateOf (title : Title) (line : jsstring) : LineCandidate :=
  ExactTruth.mkLine line (ExactTruth.moneyReMatches line)
                    (lineScore title (normalizeTxt line)).

Local Open Scope Q_scope.

(** A text in which [pickBestLine] finds a line for both titles *)
Definition yieldsTotals (text : jsstring) : bool :=
  existsb (qualifies TitleAtivo) (splitLines text)
  && existsb (qualifies TitlePassivo) (splitLines text).

(** The rows of a period, an empty label included *)
Definition rowsLabelled (p : jsstring) (base : list NormalizedBaseRow)
  : list NormalizedBaseRow :=
  filter (fun r => str_eqb (period r) p) base.

(** The entries the loop adds for the texts, and the notes *)
Definition entriesOfTexts (numberToString : Q -> jsstring)
  (base : list NormalizedBaseRow) (texts : list (jsstring * jsstring))
  : list KpiEngine.BalanceKpiPeriod :=
  flat_map
    (fun entry : jsstring * jsstring =>
       match extractTotalsFromPdfText numberToString (snd entry) (fst entry)
       with
       | Some (a, l, _) =>
           [KpiEngine.mkBalance (fst entry) (yearOfPeriod base (fst entry))
                                a l]
       | None => []
       end)
    texts.

Definition notesOfTexts (numberToString : Q -> jsstring)
  (texts : list (jsstring * jsstring)) : list jsstring :=
  flat_map
    (fun entry : jsstring * jsstring =>
       match extractTotalsFromPdfText numberToString (snd entry) (fst entry)
       with
       | Some (_, _, pushed) => pushed
       | None => []
       end)
    texts.

(** A row that [computeDreTotalFromBase] adds for the period [p] *)
Definition counted (p : jsstring) (r : NormalizedBaseRow) : bool :=
  str_eqb (period r) p
  && isClass3 (AnalyzeEngine.normalizeClassification (n_classification r))
  && negb (Qltb (dreAmount r) (1 # 100)).

Definition totalOf (l : list Q) : Q := fold_right Qplus 0 l.

Local Open Scope Z_scope.

(* ================================================================== *)
(** * Properties *)
(* ================================================================== *)

(** ** Characters and strings *)

Lemma ascii_eqb_eq (a b : ascii) : ascii_eqb a b = true <-> a = b.
Proof. apply Ascii.eqb_eq. Qed.

Lemma str_eqb_eq (a b : jsstring) : str_eqb a b = true <-> a = b.
Proof.
  revert b; induction a as [|x a IH]; intros [|y b]; simpl;
    try (split; [discriminate | congruence]); try tauto.
  rewrite andb_true_iff, ascii_eqb_eq, IH.
  split; [intros [-> ->]; reflexivity | intros H; inversion H; auto].
Qed.

Lemma str_eqb_refl (a : jsstring) : str_eqb a a = true.
Proof. apply str_eqb_eq; reflexivity. Qed.

Lemma digit_not_ws (c : ascii) : isDigit c = true -> isWs c = false.
Proof. ascii_cases c. Qed.

Lemma root_not_ws (c : ascii) : is123 c = true -> isWs c = false.
Proof. ascii_cases c. Qed.

Lemma root_is_digit (c : ascii) : is123 c = true -> isDigit c = true.
Proof. ascii_cases c. Qed.

Lemma takeWhile_dropWhile (p : ascii -> bool) (s : jsstring) :
  takeWhile p s ++ dropWhile p s = s.
Proof.
  induction s as [|c s IH]; simpl; [reflexivity|].
  destruct (p c); simpl; [rewrite IH|]; reflexivity.
Qed.

Lemma dropWhile_head (p : ascii -> bool) (s : jsstring) c r :
  dropWhile p s = c :: r -> p c = false.
Proof.
  induction s as [|x s IH]; simpl; [discriminate|].
  destruct (p x) eqn:E; [exact IH|].
  intros H; inversion H; subst; exact E.
Qed.

Lemma dropWhile_fixed (p : ascii -> bool) c (s : jsstring) :
  p c = false -> dropWhile p (c :: s) = c :: s.
Proof. intros H; simpl; rewrite H; reflexivity. Qed.

Lemma trim_of_trimmed (s : jsstring) : trimmed s -> trim s = s.
Proof.
  intros [H1 H2]; unfold trim, trimStart, trimEnd.
  rewrite H1, H2; apply rev_involutive.
Qed.

Lemma trim_is_trimmed (s : jsstring) : trimmed (trim s).
Proof.
  unfold trim, trimStart, trimEnd.
  set (t := dropWhile isWs s).
  assert (Ht : dropWhile isWs t = t).
  { subst t; induction s as [|c s IH]; simpl; [reflexivity|].
    destruct (isWs c) eqn:E; [exact IH|]; simpl; rewrite E; reflexivity. }
  assert (Hd : dropWhile isWs (dropWhile isWs (rev t)) = dropWhile isWs (rev t)).
  { generalize (rev t); intros l; induction l as [|c l IH]; simpl;
      [reflexivity|].
    destruct (isWs c) eqn:E; [exact IH|]; simpl; rewrite E; reflexivity. }
  split; [|rewrite rev_involutive; exact Hd].
  pose proof (takeWhile_dropWhile isWs (rev t)) as Hsplit.
  apply (f_equal (@rev ascii)) in Hsplit.
  rewrite rev_app_distr, rev_involutive in Hsplit.
  destruct (rev (dropWhile isWs (rev t))) as [|c u] eqn:Eu; [reflexivity|].
  simpl in Hsplit. rewrite <- Hsplit in Ht.
  apply dropWhile_fixed.
  destruct (isWs c) eqn:E; [|reflexivity].
  exfalso. simpl in Ht. rewrite E in Ht.
  assert (Hlen : (List.length (dropWhile isWs (u ++ rev (takeWhile isWs (rev t))))
                  <= List.length (u ++ rev (takeWhile isWs (rev t))))%nat).
  { generalize (u ++ rev (takeWhile isWs (rev t))); intros l.
    induction l as [|x l IH]; simpl; [lia|]. destruct (isWs x); simpl; lia. }
  rewrite Ht in Hlen; simpl in Hlen; lia.
Qed.

Lemma trim_idempotent (s : jsstring) : trim (trim s) = trim s.
Proof. apply trim_of_trimmed, trim_is_trimmed. Qed.

Lemma trim_nil : trim [] = [].
Proof. reflexivity. Qed.

(** A string that starts with a root digit and ends with a digit is
    trimmed. *)
Lemma trimmed_root_digits (c : ascii) (mid digits : jsstring) :
  is123 c = true -> digits <> [] -> forallb isDigit digits = true ->
  trimmed (c :: mid ++ digits).
Proof.
  intros Hc Hne Hd; split.
  - apply dropWhile_fixed, root_not_ws, Hc.
  - destruct (exists_last Hne) as [d' [z ->]].
    rewrite forallb_app in Hd; apply andb_true_iff in Hd as [_ Hz].
    simpl in Hz; rewrite andb_true_r in Hz.
    change (c :: mid ++ d' ++ [z]) with ((c :: mid) ++ d' ++ [z]).
    rewrite !rev_app_distr; simpl.
    rewrite (digit_not_ws _ Hz); reflexivity.
Qed.

(** ** Classification normalization *)

Lemma matchFusedDecimal_inv (s : jsstring) m1 m2 m3 m4 :
  matchFusedDecimal s = Some (m1, m2, m3, m4) ->
  is123 m1 = true /\ isDigit m2 = true /\ isDigit m3 = true
  /\ m4 <> [] /\ forallb isDigit m4 = true.
Proof.
  destruct s as [|c [|a [|b [|d r]]]]; simpl; try discriminate.
  destruct (is123 c && isDigit a && isDigit b && ascii_eqb d "."
            && nonEmpty r && forallb isDigit r) eqn:E; [|discriminate].
  intros H; inversion H; subst.
  repeat (apply andb_true_iff in E as [E ?]).
  repeat split; auto. intros ->; discriminate.
Qed.

Lemma matchFusedFour_inv (s : jsstring) m1 m2 m3 m4 :
  matchFusedFour s = Some (m1, m2, m3, m4) ->
  is123 m1 = true /\ isDigit m2 = true /\ isDigit m3 = true
  /\ isDigit m4 = true.
Proof.
  destruct s as [|c [|a [|b [|d [|? ?]]]]]; simpl; try discriminate.
  destruct (is123 c && isDigit a && isDigit b && isDigit d) eqn:E;
    [|discriminate].
  intros H; inversion H; subst.
  repeat (apply andb_true_iff in E as [E ?]). auto.
Qed.

(** The body shared by the three copies of [normalizeClassification],
    applied to its own result. *)
Lemma normalize_again (x : option jsstring) :
  NormalizeBase.normalizeClassification
    (Some (NormalizeBase.normalizeClassification x))
  = NormalizeBase.normalizeClassification x.
Proof.
  pose (raw := trim (strOr x)).
  assert (Hraw : trim raw = raw) by apply trim_idempotent.
  assert (Hstep : forall s, trim s = s ->
            NormalizeBase.normalizeClassification (Some s)
            = if negb (nonEmpty s) then []
              else if isDotted s then s
              else match matchFusedDecimal s with
                   | Some (m1, m2, m3, m4) =>
                       m1 :: dot :: m2 :: dot :: m3 :: dot :: m4
                   | None =>
                       match matchFusedFour s with
                       | Some (m1, m2, m3, m4) =>
                           [m1; dot; m2; dot; m3; dot; m4]
                       | None => s
                       end
                   end).
  { intros s Hs. unfold NormalizeBase.normalizeClassification.
    simpl strOr. rewrite Hs. reflexivity. }
  assert (Hx : NormalizeBase.normalizeClassification x
               = NormalizeBase.normalizeClassification (Some raw)).
  { unfold NormalizeBase.normalizeClassification. simpl strOr.
    fold raw. rewrite Hraw. reflexivity. }
  rewrite Hx, (Hstep raw Hraw).
  destruct (nonEmpty raw) eqn:Hne; simpl; [|reflexivity].
  destruct (isDotted raw) eqn:Hdot.
  { rewrite (Hstep raw Hraw), Hne, Hdot; reflexivity. }
  destruct (matchFusedDecimal raw) as [[[[m1 m2] m3] m4]|] eqn:Hfd.
  { apply matchFusedDecimal_inv in Hfd as (H1 & H2 & H3 & H4 & H5).
    rewrite Hstep
      by (apply trim_of_trimmed,
            (trimmed_root_digits m1 [dot; m2; dot; m3; dot] m4 H1 H4 H5)).
    simpl. rewrite H1, H2. reflexivity. }
  destruct (matchFusedFour raw) as [[[[m1 m2] m3] m4]|] eqn:Hff.
  { apply matchFusedFour_inv in Hff as (H1 & H2 & H3 & H4).
    assert (Ht : trimmed [m1; dot; m2; dot; m3; dot; m4]).
    { apply (trimmed_root_digits m1 [dot; m2; dot; m3; dot] [m4]);
        [assumption | discriminate | simpl; rewrite H4; reflexivity]. }
    rewrite Hstep by (apply trim_of_trimmed, Ht).
    simpl. rewrite H1, H2. reflexivity. }
  rewrite (Hstep raw Hraw), Hne, Hdot, Hfd, Hff; reflexivity.
Qed.

Lemma kpi_copy_same (x : option jsstring) :
  KpiEngine.normalizeClassification x
  = NormalizeBase.normalizeClassification x.
Proof. reflexivity. Qed.

Lemma analyze_copy_same (x : option jsstring) :
  AnalyzeEngine.normalizeClassification x
  = NormalizeBase.normalizeClassification x.
Proof.
  unfold AnalyzeEngine.normalizeClassification,
    NormalizeBase.normalizeClassification.
  destruct (nonEmpty _); simpl; [|reflexivity].
  destruct (isDotted _); [reflexivity|].
  destruct (matchFusedDecimal _) as [[[[? ?] ?] ?]|]; [reflexivity|].
  destruct (matchFusedFour _) as [[[[? ?] ?] ?]|]; [reflexivity|].
  destruct (AnalyzeEngine.isRootDotZero _); reflexivity.
Qed.

(** C8. Classification normalization is idempotent: for every input,
    normalizing the normalized value returns it unchanged. This holds for
    the copy of [normalizeClassification] in normalizeBase.ts and for the
    copy in the KPI engine (and for the one in the analysis engine). *)
Theorem normalizeClassification_idempotent (x : option jsstring) :
  NormalizeBase.normalizeClassification
    (Some (NormalizeBase.normalizeClassification x))
  = NormalizeBase.normalizeClassification x
  /\ KpiEngine.normalizeClassification
       (Some (KpiEngine.normalizeClassification x))
     = KpiEngine.normalizeClassification x
  /\ AnalyzeEngine.normalizeClassification
       (Some (AnalyzeEngine.normalizeClassification x))
     = AnalyzeEngine.normalizeClassification x.
Proof.
  split; [apply normalize_again|].
  split; [exact (normalize_again x)|].
  rewrite (analyze_copy_same x), analyze_copy_same.
  apply normalize_again.
Qed.

Example normalize_fused_decimal :
  NormalizeBase.normalizeClassification (Some (str " 311.0042 "))
  = str "3.1.1.0042".
Proof. reflexivity. Qed.

Example normalize_fused_four :
  KpiEngine.normalizeClassification (Some (str "3110")) = str "3.1.1.0".
Proof. reflexivity. Qed.

Example normalize_passes_through :
  NormalizeBase.normalizeClassification (Some (str "371.1.3.02"))
  = str "371.1.3.02".
Proof. reflexivity. Qed.

(** ** Comparisons of rationals *)

Local Open Scope Q_scope.

Lemma Qltb_true (a b : Q) : Qltb a b = true <-> a < b.
Proof.
  unfold Qltb. rewrite negb_true_iff.
  split.
  - intros H. apply Qnot_le_lt. intros Hle.
    apply Qle_bool_iff in Hle. congruence.
  - intros H. destruct (Qle_bool b a) eqn:E; [|reflexivity].
    apply Qle_bool_iff in E. exfalso. apply (Qlt_not_le _ _ H E).
Qed.

Lemma Qltb_false (a b : Q) : Qltb a b = false <-> b <= a.
Proof.
  unfold Qltb. rewrite negb_false_iff. apply Qle_bool_iff.
Qed.

Lemma Qleb_true (a b : Q) : Qleb a b = true <-> a <= b.
Proof. apply Qle_bool_iff. Qed.

Lemma Qleb_false (a b : Q) : Qleb a b = false <-> b < a.
Proof.
  unfold Qleb. split.
  - intros H. apply Qnot_le_lt. intros Hle.
    apply Qle_bool_iff in Hle. congruence.
  - intros H. destruct (Qle_bool a b) eqn:E; [|reflexivity].
    apply Qle_bool_iff in E. exfalso. apply (Qlt_not_le _ _ H E).
Qed.

Lemma Qeqb_true (a b : Q) : Qeqb a b = true <-> a == b.
Proof. apply Qeq_bool_iff. Qed.

Lemma Qeqb_false (a b : Q) : Qeqb a b = false <-> ~ a == b.
Proof.
  unfold Qeqb. split.
  - intros H E. apply Qeq_bool_iff in E. congruence.
  - intros H. destruct (Qeq_bool a b) eqn:E; [|reflexivity].
    apply Qeq_bool_iff in E. contradiction.
Qed.

Lemma inBand_true (lo hi n : Q) :
  KpiEngine.inBand lo hi n = true <-> lo <= n /\ n < hi.
Proof.
  unfold KpiEngine.inBand.
  rewrite andb_true_iff, Qleb_true, Qltb_true. tauto.
Qed.

Lemma inBand_false (lo hi n : Q) :
  KpiEngine.inBand lo hi n = false <-> n < lo \/ hi <= n.
Proof.
  unfold KpiEngine.inBand.
  rewrite andb_false_iff, Qleb_false, Qltb_false. tauto.
Qed.

Lemma signOf_abs (v : Q) : signOf v * Qabs v == v.
Proof.
  unfold signOf. destruct (Qltb v 0) eqn:E.
  - apply Qltb_true in E. rewrite Qabs_neg by lra. lra.
  - apply Qltb_false in E. rewrite Qabs_pos by lra. lra.
Qed.

Lemma signed_magnitude (v m : Q) :
  0 < m ->
  Qabs (signOf v * m) == m
  /\ (0 <= v -> 0 < signOf v * m) /\ (v < 0 -> signOf v * m < 0).
Proof.
  intros Hm. unfold signOf. destruct (Qltb v 0) eqn:E.
  - apply Qltb_true in E. split; [|split; intros; lra].
    rewrite Qabs_neg by lra. lra.
  - apply Qltb_false in E. split; [|split; intros; lra].
    rewrite Qabs_pos by lra. lra.
Qed.

(** ** C2: the magnitude correction of the assets total *)

Lemma assets_fix_not_at_band_start :
  ~ assets_fix_as_specified applyGluedFix 10000000
  /\ ~ assets_fix_as_specified applyGluedFixFromText 10000000.
Proof.
  split; intros [H _];
    (destruct H as (q & Hq & Habs);
       [split; [apply Qleb_true | apply Qltb_true]; reflexivity|]);
    vm_compute in Hq; inversion Hq; subst q;
    vm_compute in Habs; discriminate.
Qed.

Lemma assets_fix_tiny_value :
  applyGluedFix TitleAtivo (Fin (1 # 10000000000)) None = Fin 0.
Proof. reflexivity. Qed.

Lemma ativo_copies_agree (raw : number) (ctx : option number) :
  applyGluedFixFromText TitleAtivo raw ctx = applyGluedFix TitleAtivo raw ctx.
Proof.
  destruct raw as [| | | |r]; try reflexivity.
  unfold applyGluedFixFromText, applyGluedFix.
  destruct (Qltb (Qabs r) tiny); [reflexivity|].
  destruct (KpiEngine.inBand 10000000 20000000 (Qabs r)) eqn:Hb;
    [|reflexivity].
  apply inBand_true in Hb.
  destruct (Qltb 0 (Qabs r - 10000000)); [|reflexivity].
  replace (Qltb (Qabs r - 10000000) 9999999999) with true; [reflexivity|].
  symmetry; apply Qltb_true. lra.
Qed.

(** C2 (amended). For a finite candidate [v] of the assets total,
    [applyGluedFix] with title ATIVO and its copy [applyGluedFixFromText]
    agree, and: when 10,000,000 < |v| < 20,000,000 the result has the
    magnitude |v| - 10,000,000 and the sign of [v]; when |v| is exactly
    10,000,000, or |v| lies outside the band and is at least 1e-9, [v]
    comes back unchanged; when |v| < 1e-9 the result is 0. A value that is
    not finite gives 0. *)
Theorem assets_fix_amended (v : Q) (ctx : option number) :
  applyGluedFixFromText TitleAtivo (Fin v) ctx
  = applyGluedFix TitleAtivo (Fin v) ctx
  /\ (10000000 < Qabs v -> Qabs v < 20000000 ->
      exists q, applyGluedFix TitleAtivo (Fin v) ctx = Fin q
                /\ Qabs q == Qabs v - 10000000
                /\ (0 < v -> 0 < q) /\ (v < 0 -> q < 0))
  /\ (Qabs v == 10000000 -> applyGluedFix TitleAtivo (Fin v) ctx = Fin v)
  /\ (Qabs v < 10000000 \/ 20000000 <= Qabs v -> tiny <= Qabs v ->
      applyGluedFix TitleAtivo (Fin v) ctx = Fin v)
  /\ (Qabs v < tiny -> applyGluedFix TitleAtivo (Fin v) ctx = Fin 0)
  /\ applyGluedFix TitleAtivo NaN ctx = Fin 0
  /\ applyGluedFix TitleAtivo PInf ctx = Fin 0
  /\ applyGluedFix TitleAtivo NInf ctx = Fin 0.
Proof.
  split; [apply ativo_copies_agree|].
  assert (Htiny : tiny == 1 # 1000000000) by reflexivity.
  unfold applyGluedFix.
  repeat split; try reflexivity.
  - intros Hlo Hhi.
    replace (Qltb (Qabs v) tiny) with false
      by (symmetry; apply Qltb_false; lra).
    replace (KpiEngine.inBand 10000000 20000000 (Qabs v)) with true
      by (symmetry; apply inBand_true; lra).
    replace (Qltb 0 (Qabs v - 10000000)) with true
      by (symmetry; apply Qltb_true; lra).
    replace (Qltb (Qabs v - 10000000) 9999999999) with true
      by (symmetry; apply Qltb_true; lra).
    simpl. eexists; split; [reflexivity|].
    destruct (signed_magnitude v (Qabs v - 10000000)) as (Ha & Hp & Hn);
      [lra|].
    fold (signOf v). repeat split; auto. intros; apply Hp; lra.
  - intros Heq.
    replace (Qltb (Qabs v) tiny) with false
      by (symmetry; apply Qltb_false; lra).
    replace (Qltb 0 (Qabs v - 10000000)) with false
      by (symmetry; apply Qltb_false; lra).
    rewrite andb_false_r; reflexivity.
  - intros Hout Hbig.
    replace (Qltb (Qabs v) tiny) with false
      by (symmetry; apply Qltb_false; lra).
    replace (KpiEngine.inBand 10000000 20000000 (Qabs v)) with false
      by (symmetry; apply inBand_false; lra).
    reflexivity.
  - intros Hsmall.
    replace (Qltb (Qabs v) tiny) with true
      by (symmetry; apply Qltb_true; lra).
    reflexivity.
Qed.

Lemma assets_fix_amended_witness :
  exists q, applyGluedFix TitleAtivo (Fin 14532100) None = Fin q
            /\ Qabs q == 4532100 /\ 0 < q.
Proof.
  destruct (assets_fix_amended 14532100 None) as (_ & H & _).
  destruct H as (q & Hq & Habs & Hpos & _).
  - apply Qltb_true; reflexivity.
  - apply Qltb_true; reflexivity.
  - exists q. split; [exact Hq|]. split.
    + rewrite Habs. reflexivity.
    + apply Hpos. apply Qltb_true; reflexivity.
Defined.

Example assets_fix_example :
  applyGluedFix TitleAtivo (Fin 14532100) None = Fin 4532100
  /\ applyGluedFixFromText TitleAtivo (Fin 14532100) None = Fin 4532100
  /\ applyGluedFix TitleAtivo (Fin (-14532100)) None = Fin (-4532100)
  /\ applyGluedFix TitleAtivo (Fin 10000000) None = Fin 10000000.
Proof. vm_compute. repeat split; reflexivity. Qed.

(** ** The stable sort *)

Section StableSort.
Context {V : Type} (before : V -> V -> bool).

Lemma insertSorted_perm (x : V) (l : list V) :
  Permutation (insertSorted before x l) (x :: l).
Proof.
  induction l as [|y l IH]; simpl; [reflexivity|].
  destruct (before x y); [reflexivity|].
  rewrite IH. apply perm_swap.
Qed.

Lemma stableSort_perm (l : list V) : Permutation (stableSort before l) l.
Proof.
  induction l as [|x l IH]; simpl; [reflexivity|].
  rewrite insertSorted_perm. constructor. exact IH.
Qed.

Hypothesis before_total : forall a b, before a b = true \/ before b a = true.
Hypothesis before_trans :
  forall a b c, before a b = true -> before b c = true -> before a c = true.

Lemma insertSorted_sorted (x : V) (l : list V) :
  StronglySorted (fun a b => before a b = true) l ->
  StronglySorted (fun a b => before a b = true) (insertSorted before x l).
Proof.
  induction 1 as [|y l Hs IH Hall]; simpl.
  - constructor; constructor.
  - destruct (before x y) eqn:E.
    + constructor; [constructor; assumption|].
      constructor; [exact E|].
      eapply Forall_impl; [|exact Hall].
      intros z Hz. eapply before_trans; eassumption.
    + constructor; [exact IH|].
      assert (Hyx : before y x = true).
      { destruct (before_total x y); congruence. }
      eapply Permutation_Forall;
        [symmetry; apply insertSorted_perm|].
      constructor; assumption.
  Qed.

Lemma stableSort_sorted (l : list V) :
  StronglySorted (fun a b => before a b = true) (stableSort before l).
Proof.
  induction l as [|x l IH]; simpl; [constructor|].
  apply insertSorted_sorted, IH.
Qed.

(** The head of the sorted list is an element that no element of the
    list goes strictly in front of. *)
Lemma stableSort_head (l : list V) (x : V) :
  hd_error (stableSort before l) = Some x ->
  In x l /\ forall y, In y l -> before x y = true.
Proof.
  intros Hhd.
  pose proof (stableSort_perm l) as Hp.
  pose proof (stableSort_sorted l) as Hs.
  destruct (stableSort before l) as [|h t]; [discriminate|].
  inversion Hhd; subst h.
  split; [apply (Permutation_in _ Hp); left; reflexivity|].
  intros y Hy.
  apply (Permutation_in _ (Permutation_sym Hp)) in Hy as [<-|Hy].
  - destruct (before_total x x); assumption.
  - inversion Hs as [|? ? _ Hall]; subst.
    rewrite Forall_forall in Hall. apply Hall, Hy.
Qed.

Lemma stableSort_nonempty (l : list V) :
  l <> [] -> exists x, hd_error (stableSort before l) = Some x.
Proof.
  intros Hne. pose proof (stableSort_perm l) as Hp.
  destruct (stableSort before l) as [|h t]; [|exists h; reflexivity].
  apply Permutation_nil in Hp. contradiction.
Qed.

End StableSort.

(** ** C3: the magnitude correction and the selection of the liabilities
    total *)

Lemma Qabs_zero_iff (a : Q) : Qabs a == 0 <-> a == 0.
Proof.
  split; intros H.
  - destruct (Qlt_le_dec a 0) as [Hn|Hp].
    + rewrite Qabs_neg in H by lra. lra.
    + rewrite Qabs_pos in H by lra. exact H.
  - rewrite H. reflexivity.
Qed.




Lemma plausible_nonempty (ativo : number) (cands : list Candidate) :
  cands <> [] -> plausible ativo cands <> [].
Proof.
  intros Hne. unfold plausible.
  destruct (filter _ cands); [exact Hne | discriminate].
Qed.




(** ** C5: the outlier filter of the rankings *)

Lemma withinAssets_true (a : Q) (r : NormalizedBaseRow) :
  withinAssets a r = true <->
  0 < Qabs (getSaldo r)
  /\ Qabs (getSaldo r) <= a * (105 # 100)
  /\ (a < 200000000 -> Qabs (getSaldo r) < 1000000000).
Proof.
  unfold withinAssets.
  destruct (Qleb (Qabs (getSaldo r)) 0) eqn:E0.
  { apply Qleb_true in E0. split; [discriminate|]. intros [H _]. lra. }
  apply Qleb_false in E0.
  destruct (Qltb (a * (105 # 100)) (Qabs (getSaldo r))) eqn:E1.
  { apply Qltb_true in E1. split; [discriminate|]. intros (_ & H & _). lra. }
  apply Qltb_false in E1.
  destruct (Qltb a 200000000) eqn:E2.
  - apply Qltb_true in E2.
    unfold num_geb, num_leb, num_ltb, num_eqb, unsigned0.
    destruct (Qltb 1000000000 (Qabs (getSaldo r))) eqn:E3.
    { apply Qltb_true in E3. simpl. split; [discriminate|].
      intros (_ & _ & H). specialize (H E2). lra. }
    apply Qltb_false in E3. simpl.
    destruct (Qeqb 1000000000 (Qabs (getSaldo r))) eqn:E4.
    { apply Qeqb_true in E4. split; [discriminate|].
      intros (_ & _ & H). specialize (H E2). lra. }
    apply Qeqb_false in E4.
    split; [|reflexivity]. intros _. repeat split; try assumption.
    intros _. lra.
  - apply Qltb_false in E2. simpl.
    split; [|reflexivity]. intros _. repeat split; try assumption.
    intros H. lra.
Qed.

Lemma kept_with_known_assets (rows : list NormalizedBaseRow) (a : Q)
  (r : NormalizedBaseRow) :
  0 < a ->
  (In r (filterOutliersForRankings rows (Fin a)) <->
   In r rows
   /\ 0 < Qabs (getSaldo r)
   /\ Qabs (getSaldo r) <= a * (105 # 100)
   /\ (a < 200000000 -> Qabs (getSaldo r) < 1000000000)).
Proof.
  intros Ha. unfold filterOutliersForRankings.
  replace (Qeqb a 0) with false by (symmetry; apply Qeqb_false; lra).
  replace (Qleb a 0) with false by (symmetry; apply Qleb_false; lra).
  simpl. rewrite filter_In, withinAssets_true. reflexivity.
Qed.



Example outlier_filter_example :
  filterOutliersForRankings
    [rowWithSaldo (VNum (Fin 500)); rowWithSaldo (VNum (Fin 2000));
     rowWithSaldo (VNum (Fin 0)); rowWithSaldo (VNum (Fin (-1050)))]
    (Fin 1000)
  = [rowWithSaldo (VNum (Fin 500)); rowWithSaldo (VNum (Fin (-1050)))].
Proof. reflexivity. Qed.

(** ** C10: what the rankings read from a [{raw, value}] pair *)

Lemma getSaldo_withPairValue g r : getSaldo (withPairValue g r) = getSaldo r.
Proof. unfold getSaldo; simpl. destruct (n_saldoAtual r); reflexivity. Qed.

Lemma safeNumber_withPairValue g r :
  safeNumber (n_saldoAtual (withPairValue g r)) = safeNumber (n_saldoAtual r).
Proof. simpl. destruct (n_saldoAtual r); reflexivity. Qed.

Lemma filter_map_commute {A B : Type} (f : A -> B) (p : B -> bool)
  (l : list A) :
  filter p (map f l) = map f (filter (fun x => p (f x)) l).
Proof.
  induction l as [|x l IH]; simpl; [reflexivity|].
  destruct (p (f x)); simpl; rewrite IH; reflexivity.
Qed.

Lemma filterOutliers_withPairValue g rows A :
  filterOutliersForRankings (map (withPairValue g) rows) A
  = map (withPairValue g) (filterOutliersForRankings rows A).
Proof.
  unfold filterOutliersForRankings.
  destruct A as [| | | |a]; try destruct (Qeqb a 0 || Qleb a 0);
    rewrite filter_map_commute; f_equal; apply filter_ext; intros r;
    unfold withinAssets; rewrite getSaldo_withPairValue; reflexivity.
Qed.

Lemma safeRowsOf_withPairValue g kpis base p :
  safeRowsOf kpis (map (withPairValue g) base) p
  = map (withPairValue g) (safeRowsOf kpis base p).
Proof.
  unfold safeRowsOf.
  rewrite filter_map_commute, filterOutliers_withPairValue. reflexivity.
Qed.

Lemma fold_left_map_same {A B : Type} (step : A -> B -> A) (f : B -> B)
  (l : list B) (acc : A) :
  (forall a x, step a (f x) = step a x) ->
  fold_left step (map f l) acc = fold_left step l acc.
Proof.
  intros H. revert acc. induction l as [|x l IH]; intros acc; simpl;
    [reflexivity|].
  rewrite H. apply IH.
Qed.

Lemma fold_left_ext_in {A B : Type} (s1 s2 : A -> B -> A) (l : list B)
  (acc : A) :
  (forall a x, s1 a x = s2 a x) ->
  fold_left s1 l acc = fold_left s2 l acc.
Proof.
  intros H. revert acc. induction l as [|x l IH]; intros acc; simpl;
    [reflexivity|].
  rewrite H. apply IH.
Qed.

Lemma mapGet_mapSet_same {V : Type} (k : jsstring) (v : V)
  (m : list (jsstring * V)) :
  mapGet k (mapSet k v m) = Some v.
Proof.
  induction m as [|[k0 v0] m IH]; simpl.
  - rewrite str_eqb_refl. reflexivity.
  - destruct (str_eqb k k0) eqn:E; simpl; rewrite E; [reflexivity | exact IH].
Qed.

(** C10. A [{raw, value}] pair stored in [saldoAtual] reads as 0, both
    through [getSaldo] of the outlier filter and through [safeNumber] of
    the analysis engine. Hence, for an assets total above 0,
    [filterOutliersForRankings] keeps no row whose [saldoAtual] is such a
    pair. A row with a pair adds nothing to the top-balance lists and
    records the value 0 in the variation map; and the rankings and the
    variation map are the same whatever numeric value the pairs carry. *)
Theorem pair_balances_read_as_zero :
  (forall (r : NormalizedBaseRow) (m : MoneyBR),
      n_saldoAtual r = VMoney m ->
      Number_of_any (n_saldoAtual r) = NaN
      /\ getSaldo r = 0 /\ safeNumber (n_saldoAtual r) = 0)
  /\ (forall (rows : list NormalizedBaseRow) (a : Q) (r : NormalizedBaseRow)
             (m : MoneyBR),
         0 < a ->
         In r rows -> n_saldoAtual r = VMoney m ->
         ~ In r (filterOutliersForRankings rows (Fin a)))
  /\ (forall (p : jsstring) (acc : list TopSaldo * list TopSaldo)
             (r : NormalizedBaseRow) (m : MoneyBR),
         n_saldoAtual r = VMoney m -> pushTop p acc r = acc)
  /\ (forall (p : jsstring) (vm : list (jsstring * Variation))
             (r : NormalizedBaseRow) (m : MoneyBR),
         n_saldoAtual r = VMoney m ->
         exists entry,
           mapGet (mkKey (n_code r) (n_description r)) (recordValue p vm r)
           = Some entry
           /\ mapGet p (v_values entry) = Some 0)
  /\ (forall (g : MoneyBR -> number) (perFile : list jsstring)
             (kpisByPeriod : list (jsstring * KpiBlock))
             (base : list NormalizedBaseRow),
         topSaldos perFile kpisByPeriod (map (withPairValue g) base)
         = topSaldos perFile kpisByPeriod base
         /\ variationMap perFile kpisByPeriod (map (withPairValue g) base)
            = variationMap perFile kpisByPeriod base).
Proof.
  split; [|split; [|split; [|split]]].
  - intros r m E. unfold getSaldo, safeNumber. rewrite E. auto.
  - intros rows a r m Ha Hin E Hkept.
    apply (kept_with_known_assets rows a r Ha) in Hkept.
    destruct Hkept as (_ & Hpos & _).
    unfold getSaldo in Hpos. rewrite E in Hpos. simpl in Hpos.
    vm_compute in Hpos. discriminate.
  - intros p acc r m E. unfold pushTop, safeNumber. rewrite E. reflexivity.
  - intros p vm r m E. unfold recordValue, safeNumber. rewrite E.
    eexists. split; [apply mapGet_mapSet_same|].
    cbn [v_values]. apply mapGet_mapSet_same.
  - intros g perFile kpis base. split.
    + unfold topSaldos. replace (topCandidates perFile kpis
                                   (map (withPairValue g) base))
        with (topCandidates perFile kpis base); [reflexivity|].
      unfold topCandidates. apply fold_left_ext_in. intros acc p.
      rewrite safeRowsOf_withPairValue. symmetry.
      apply fold_left_map_same. intros acc' r.
      unfold pushTop. rewrite safeNumber_withPairValue. reflexivity.
    + unfold variationMap. apply fold_left_ext_in. intros acc p.
      rewrite safeRowsOf_withPairValue.
      apply fold_left_map_same. intros acc' r.
      unfold recordValue. rewrite safeNumber_withPairValue. reflexivity.
Qed.

Lemma pair_balances_read_as_zero_witness :
  getSaldo pairRow = 0
  /\ ~ In pairRow (filterOutliersForRankings [pairRow] (Fin 1000000)).
Proof.
  destruct pair_balances_read_as_zero as (Hread & Hdrop & _ & _ & _).
  split.
  - apply (Hread pairRow (mkMoney (str "5.000,00") (Fin 5000))).
    reflexivity.
  - apply (Hdrop [pairRow] 1000000 pairRow
                 (mkMoney (str "5.000,00") (Fin 5000))).
    + apply Qltb_true; reflexivity.
    + left; reflexivity.
    + reflexivity.
Defined.

Example pair_row_is_dropped :
  filterOutliersForRankings [pairRow; rowWithSaldo (VNum (Fin 5000))]
                            (Fin 1000000)
  = [rowWithSaldo (VNum (Fin 5000))].
Proof. reflexivity. Qed.

(** ** C6: the confidence gate of the income-statement figures *)



Section MapKeys.
Context {V : Type}.

Lemma mapSet_keys (k : jsstring) (v : V) (m : list (jsstring * V)) (k' : jsstring) :
  In k' (map fst (mapSet k v m)) <-> k' = k \/ In k' (map fst m).
Proof.
  induction m as [|[k0 v0] m IH]; simpl.
  - intuition.
  - destruct (str_eqb k k0) eqn:E; simpl.
    + apply str_eqb_eq in E; subst k0. intuition.
    + rewrite IH. intuition.
Qed.

Lemma mapSet_nodup (k : jsstring) (v : V) (m : list (jsstring * V)) :
  NoDup (map fst m) -> NoDup (map fst (mapSet k v m)).
Proof.
  induction m as [|[k0 v0] m IH]; simpl; intros Hnd.
  - constructor; [intros []|constructor].
  - inversion Hnd as [|? ? Hnotin Hnd']; subst.
    destruct (str_eqb k k0) eqn:E; simpl.
    + constructor; assumption.
    + constructor; [|apply IH, Hnd'].
      rewrite mapSet_keys. intros [->|H]; [|contradiction].
      rewrite str_eqb_refl in E. discriminate.
Qed.

End MapKeys.

Lemma groupByPeriod_nodup keep base :
  NoDup (map fst (groupByPeriod keep base)).
Proof.
  unfold groupByPeriod.
  assert (H : forall (m : list (jsstring * list NormalizedBaseRow)),
             NoDup (map fst m) ->
             NoDup (map fst
                      (fold_left
                         (fun m r =>
                            if negb (nonEmpty (period r)) || negb (keep r)
                            then m
                            else
                              let arr := match mapGet (period r) m with
                                         | Some a => a
                                         | None => []
                                         end in
                              mapSet (period r) (arr ++ [r]) m)
                         base m))).
  { induction base as [|r base IH]; intros m Hm; simpl; [exact Hm|].
    apply IH. destruct (negb (nonEmpty (period r)) || negb (keep r));
      [exact Hm | apply mapSet_nodup, Hm]. }
  apply H. constructor.
Qed.









Example revenue_only_is_gated :
  map (fun e => (receita_bruta e, receita_liquida e, lucro_bruto e))
      (byPeriod (computeTccKpisFromBase revenueOnlyBase))
  = [(0, 0, None)]
  /\ notes (computeTccKpisFromBase revenueOnlyBase)
     = [noteNotConfident (str "2024-01")]
  /\ f_receita_bruta (figuresOf revenueOnlyBase) == 1000.
Proof. vm_compute. repeat split; reflexivity. Qed.


(** ** C9: [normalizeBase] and the object store *)

Local Open Scope nat_scope.


Lemma assign_same (h : Store) (a : Ref) (o : Obj) :
  a < List.length h -> nth_error (assign h a o) a = Some o.
Proof.
  revert a; induction h as [|x h IH]; intros [|a]; simpl; intros H;
    try lia; [reflexivity|]. apply IH. lia.
Qed.

Lemma assign_other (h : Store) (a b : Ref) (o : Obj) :
  a <> b -> nth_error (assign h a o) b = nth_error h b.
Proof.
  revert a b; induction h as [|x h IH]; intros [|a] [|b] H; simpl;
    try reflexivity; try contradiction.
  apply IH. lia.
Qed.

Lemma pushRows_spec (ctx : Ctx) (rows : list Ref) :
  forall (h : Store) (out : list Ref),
    refs_to_sources h rows ->
    exists srcs,
      Forall2 (fun r src => nth_error h r = Some (SrcRow src)) rows srcs
      /\ pushRows ctx h rows out
         = Some (h ++ map (fun s => NormRow (buildRow ctx s)) srcs,
                 out ++ seq (List.length h) (List.length rows)).
Proof.
  induction rows as [|r rows IH]; intros h out Hv.
  - exists []. split; [constructor|]. simpl. rewrite !app_nil_r. reflexivity.
  - inversion Hv as [|? ? [src Hr] Hv']; subst.
    assert (Hv1 : refs_to_sources (h ++ [NormRow (buildRow ctx src)]) rows).
    { eapply Forall_impl; [|exact Hv']. intros a [s Ha]. exists s.
      rewrite nth_error_app1; [exact Ha|].
      apply nth_error_Some. congruence. }
    destruct (IH _ (out ++ [List.length h]) Hv1) as (srcs & HF & Hpush).
    exists (src :: srcs). split.
    + constructor; [exact Hr|].
      clear - HF Hv'. induction HF as [|a s l l' Ha HF IHF];
        constructor.
      * inversion Hv' as [|? ? [s' Hs'] ?]; subst.
        rewrite nth_error_app1 in Ha; [exact Ha|].
        apply nth_error_Some. congruence.
      * apply IHF. inversion Hv'; assumption.
    + cbn [pushRows]. rewrite Hr. unfold alloc.
      eapply eq_trans; [exact Hpush|].
      rewrite length_app. cbn [List.length map seq].
      rewrite <- !app_assoc. cbn [app].
      replace (List.length h + 1) with (S (List.length h)) by lia.
      reflexivity.
Qed.






Example normalizeBase_regroups_new_row :
  normalizeBase [SrcRow sampleSource] [0] (mkCtx (str " 2024 ") None)
  = Some ([SrcRow sampleSource;
           NormRow (setGroup ATIVO
                      (buildRow (mkCtx (str " 2024 ") None) sampleSource))],
          [1]).
Proof. reflexivity. Qed.

Local Close Scope nat_scope.

(** ** C4: the order of period labels *)

Local Open Scope Z_scope.

Lemma orderKind_rank (j k : Kind) :
  (orderKind j < orderKind k <-> kindRank j < kindRank k)
  /\ (orderKind j = orderKind k <-> kindRank j = kindRank k).
Proof. destruct j, k; simpl; lia. Qed.

Section PeriodOrder.

Variable localeCompare : jsstring -> jsstring -> Z.

Lemma comparePeriods_le (a b : jsstring * Parsed) :
  (comparePeriods localeCompare a b <=? 0) = true
  <-> keyed_le localeCompare a b.
Proof.
  unfold comparePeriods, keyed_le.
  destruct (orderKind_rank (kind (snd a)) (kind (snd b))) as [Hlt Heq].
  rewrite Z.leb_le.
  destruct (Z.eqb_spec (orderKind (kind (snd a))) (orderKind (kind (snd b))))
    as [Ek|Ek]; simpl.
  - destruct (Z.eqb_spec (y (snd a)) (y (snd b))) as [Ey|Ey]; simpl.
    + destruct (Z.eqb_spec (n (snd a)) (n (snd b))) as [En|En]; simpl;
        lia.
    + lia.
  - lia.
Qed.

Hypothesis localeCompare_total :
  forall a b, localeCompare a b <= 0 \/ localeCompare b a <= 0.
Hypothesis localeCompare_trans :
  forall a b c,
    localeCompare a b <= 0 -> localeCompare b c <= 0 ->
    localeCompare a c <= 0.

Lemma keyed_le_total (a b : jsstring * Parsed) :
  keyed_le localeCompare a b \/ keyed_le localeCompare b a.
Proof.
  unfold keyed_le. destruct (localeCompare_total (fst a) (fst b)); lia.
Qed.

Lemma keyed_le_trans (a b c : jsstring * Parsed) :
  keyed_le localeCompare a b -> keyed_le localeCompare b c ->
  keyed_le localeCompare a c.
Proof.
  unfold keyed_le. intros Hab Hbc.
  pose proof (localeCompare_trans (fst a) (fst b) (fst c)) as Ht.
  lia.
Qed.

Lemma sorted_map_fst (l : list jsstring) (s : list (jsstring * Parsed)) :
  Permutation s (map (fun raw => (raw, parsePeriod raw)) l) ->
  StronglySorted (keyed_le localeCompare) s ->
  StronglySorted (period_le localeCompare) (map fst s).
Proof.
  intros Hp Hs.
  assert (Hall : Forall (fun x => snd x = parsePeriod (fst x)) s).
  { apply Forall_forall. intros x Hx.
    apply (Permutation_in _ Hp) in Hx. apply in_map_iff in Hx as (r & <- & _).
    reflexivity. }
  clear Hp. induction Hs as [|x s Hs IH Hx]; simpl; constructor.
  - apply IH. inversion Hall; assumption.
  - inversion Hall as [|? ? Ex Hall']; subst.
    apply Forall_forall. intros b Hb.
    apply in_map_iff in Hb as (z & <- & Hz).
    rewrite Forall_forall in Hx, Hall'.
    specialize (Hx z Hz). specialize (Hall' z Hz).
    unfold period_le. rewrite <- Ex, <- Hall'.
    destruct x, z; exact Hx.
Qed.

(** C4 (amended). [sortPeriodLabels] returns a permutation of the labels.
    When no label parses, the list comes back as it is. Otherwise the
    result is ordered: bare years first, then quarters, then year-months,
    then the labels that do not parse; within one kind by year, then by
    index; and labels with the same kind, year and index, the unparsed
    ones among them, by [localeCompare]. *)
Theorem sortPeriodLabels_order (labels : list jsstring) :
  Permutation (sortPeriodLabels localeCompare labels) labels
  /\ ((forall l, In l labels -> kind (parsePeriod l) = KindRaw) ->
      sortPeriodLabels localeCompare labels = labels)
  /\ ((exists l, In l labels /\ kind (parsePeriod l) <> KindRaw) ->
      StronglySorted (period_le localeCompare)
                     (sortPeriodLabels localeCompare labels)).
Proof.
  unfold sortPeriodLabels.
  set (parsed := map (fun raw => (raw, parsePeriod raw)) labels).
  set (before := fun a b => comparePeriods localeCompare a b <=? 0).
  assert (Hfst : map fst parsed = labels).
  { unfold parsed. rewrite map_map. simpl. apply map_id. }
  assert (Hany : existsb (fun x => negb (isRaw (kind (snd x)))) parsed = true
                 <-> exists l, In l labels /\ kind (parsePeriod l) <> KindRaw).
  { rewrite existsb_exists. unfold parsed. split.
    - intros (x & Hx & Hk). apply in_map_iff in Hx as (l & <- & Hl).
      exists l. split; [exact Hl|]. simpl in Hk.
      destruct (kind (parsePeriod l)); simpl in Hk; congruence.
    - intros (l & Hl & Hk). exists (l, parsePeriod l). split.
      + apply in_map_iff. exists l. auto.
      + simpl. destruct (kind (parsePeriod l)); simpl; congruence. }
  split; [|split].
  - destruct (existsb _ parsed); simpl; [|reflexivity].
    etransitivity; [apply Permutation_map, stableSort_perm|].
    rewrite Hfst. reflexivity.
  - intros Hraw.
    destruct (existsb _ parsed) eqn:E; simpl; [|reflexivity].
    destruct (proj1 Hany eq_refl) as (l & Hl & Hk).
    specialize (Hraw l Hl). contradiction.
  - intros Hex. apply Hany in Hex. rewrite Hex. simpl.
    apply (sorted_map_fst labels).
    + apply stableSort_perm.
    + assert (Htot : forall a b, before a b = true \/ before b a = true).
      { intros a b. unfold before. rewrite !comparePeriods_le.
        apply keyed_le_total. }
      assert (Htr : forall a b c, before a b = true -> before b c = true ->
                                  before a c = true).
      { intros a b c. unfold before. rewrite !comparePeriods_le.
        apply keyed_le_trans. }
      pose proof (stableSort_sorted before Htot Htr parsed) as Hs.
      clear - Hs. induction Hs as [|x s Hs IH Hx]; constructor.
      * exact IH.
      * eapply Forall_impl; [|exact Hx]. intros z Hz.
        apply comparePeriods_le. exact Hz.
Qed.

End PeriodOrder.

Lemma compareCodeUnits_total (a b : jsstring) :
  compareCodeUnits a b <= 0 \/ compareCodeUnits b a <= 0.
Proof.
  revert b. induction a as [|x a IH]; intros [|y b]; simpl; try lia.
  rewrite (N.compare_antisym (charCode x) (charCode y)).
  destruct (N.compare (charCode x) (charCode y)); simpl; try lia.
  apply IH.
Qed.

Lemma compareCodeUnits_trans (a b c : jsstring) :
  compareCodeUnits a b <= 0 -> compareCodeUnits b c <= 0 ->
  compareCodeUnits a c <= 0.
Proof.
  revert b c. induction a as [|x a IH]; intros [|y b] [|z c]; simpl;
    try lia.
  destruct (N.compare_spec (charCode x) (charCode y)) as [Exy|Hxy|Hxy];
    destruct (N.compare_spec (charCode y) (charCode z)) as [Eyz|Hyz|Hyz];
    destruct (N.compare_spec (charCode x) (charCode z)) as [Exz|Hxz|Hxz];
    try lia.
  apply IH.
Qed.

Lemma unparsed_label_sorts_last :
  sortPeriodLabels compareCodeUnits [str "saldo final"; str "2023"]
  = [str "2023"; str "saldo final"]
  /\ ~ unparsed_before_years
         (sortPeriodLabels compareCodeUnits [str "saldo final"; str "2023"]).
Proof.
  split; [reflexivity|].
  intros H.
  specialize (H 1%nat 0%nat (str "saldo final") (str "2023")
                eq_refl eq_refl eq_refl eq_refl).
  lia.
Qed.

Example unparsed_labels_alone_keep_their_order :
  sortPeriodLabels compareCodeUnits [str "b"; str "a"] = [str "b"; str "a"].
Proof. reflexivity. Qed.

Example mixed_labels_sorted :
  sortPeriodLabels compareCodeUnits
    (map str ["T2/2024"; "2024-03"; "2023"; "T1/2024"]%string)
  = map str ["2023"; "T1/2024"; "T2/2024"; "2024-03"]%string.
Proof. reflexivity. Qed.

Lemma sortPeriodLabels_order_witness :
  StronglySorted (period_le compareCodeUnits)
    (sortPeriodLabels compareCodeUnits
       (map str ["T2/2024"; "zeta"; "2024-03"; "2023"; "alfa"]%string)).
Proof.
  apply (sortPeriodLabels_order compareCodeUnits compareCodeUnits_total
           compareCodeUnits_trans).
  exists (str "2023"). split.
  - simpl. tauto.
  - vm_compute. discriminate.
Defined.

(** ** C1: the monetary token parser *)

Local Open Scope Q_scope.

(** *** What the specification says about a token *)

Example magnitude_of_1234_56 :
  moneyMagnitude (str "(1.234,56)") == 123456 # 100.
Proof. reflexivity. Qed.

(** *** Character classes *)

Lemma filter_all {A : Type} (p : A -> bool) (l : list A) :
  forallb p l = true -> filter p l = l.
Proof.
  induction l as [|x l IH]; simpl; [reflexivity|].
  intros H. apply andb_true_iff in H as [Hx Hl].
  rewrite Hx, IH by exact Hl. reflexivity.
Qed.

Lemma forallb_impl {A : Type} (p q : A -> bool) (l : list A) :
  (forall x, p x = true -> q x = true) ->
  forallb p l = true -> forallb q l = true.
Proof.
  intros Hpq. induction l as [|x l IH]; simpl; [reflexivity|].
  intros H. apply andb_true_iff in H as [Hx Hl].
  rewrite (Hpq _ Hx), IH by exact Hl. reflexivity.
Qed.

Lemma takeWhile_all (p : ascii -> bool) (l r : jsstring) :
  forallb p l = true ->
  match r with [] => True | c :: _ => p c = false end ->
  takeWhile p (l ++ r) = l /\ dropWhile p (l ++ r) = r.
Proof.
  induction l as [|x l IH]; simpl; intros Hl Hr.
  - destruct r as [|c r]; simpl; [auto|]. rewrite Hr. auto.
  - apply andb_true_iff in Hl as [Hx Hl]. rewrite Hx.
    destruct (IH Hl Hr) as [-> ->]. auto.
Qed.

Lemma takeWhile_forallb (p : ascii -> bool) (s : jsstring) :
  forallb p (takeWhile p s) = true.
Proof.
  induction s as [|c s IH]; simpl; [reflexivity|].
  destruct (p c) eqn:E; simpl; [rewrite E; exact IH | reflexivity].
Qed.

Lemma digit_class (c : ascii) :
  isDigit c = true ->
  isParenChar c = false /\ isMinus c = false /\ isDot c = false
  /\ notComma c = true /\ isWs c = false.
Proof. ascii_cases c. Qed.

Lemma dot_class (c : ascii) :
  isDot c = true ->
  isParenChar c = false /\ isMinus c = false /\ isDigit c = false
  /\ notComma c = true /\ isWs c = false.
Proof. ascii_cases c. Qed.

Lemma groupChar_class (c : ascii) :
  groupChar c = true ->
  isParenChar c = false /\ isMinus c = false
  /\ notComma c = true /\ isWs c = false
  /\ isDigit c = negb (isDot c).
Proof. ascii_cases c. Qed.

(** *** The shape of a token *)

Lemma takeOpt_shape (c : ascii) (s p r : jsstring) :
  takeOpt c s = (p, r) -> optOf c p.
Proof.
  unfold takeOpt, optOf. destruct s as [|x t].
  - intros H; inversion H; auto.
  - destruct (ascii_eqb x c) eqn:E; intros H; inversion H; auto.
    apply ascii_eqb_eq in E. subst. auto.
Qed.

Lemma thousandsGroups_chars (s : jsstring) :
  forallb groupChar (fst (thousandsGroups s)) = true.
Proof.
  assert (H : forall k s, (List.length s <= k)%nat ->
                          forallb groupChar (fst (thousandsGroups s)) = true).
  { induction k as [|k IH]; intros s0 Hk.
    - destruct s0; [reflexivity | simpl in Hk; lia].
    - destruct s0 as [|d [|a [|b [|c rest]]]]; try reflexivity.
      cbn [thousandsGroups].
      destruct (isDot d && isDigit a && isDigit b && isDigit c) eqn:E;
        [|reflexivity].
      repeat (apply andb_true_iff in E as [E ?]).
      specialize (IH rest).
      destruct (thousandsGroups rest) as [g r]. cbn [fst] in *.
      cbn [forallb]. unfold groupChar at 1 2 3 4.
      rewrite E, H, H0, H1, !orb_true_r. cbn [andb orb].
      apply IH. simpl in Hk. lia. }
  apply (H (List.length s)). lia.
Qed.

Lemma matchMoneyAt_shape (s t : jsstring) :
  matchMoneyAt s = Some t -> TokenShape t.
Proof.
  unfold matchMoneyAt.
  destruct (takeOpt "(" s) as [lp s1] eqn:E1.
  destruct (takeOpt "-" s1) as [lm s2] eqn:E2.
  destruct ((1 <=? List.length (takeWhile isDigit s2))%nat &&
            (List.length (takeWhile isDigit s2) <=? 3)%nat) eqn:Elen;
    [|discriminate].
  pose proof (thousandsGroups_chars (dropWhile isDigit s2)) as Hg.
  destruct (thousandsGroups (dropWhile isDigit s2)) as [gs s4].
  cbn [fst] in Hg.
  destruct s4 as [|comma [|a [|b s5]]]; try discriminate.
  destruct (ascii_eqb comma "," && isDigit a && isDigit b) eqn:Ec;
    [|discriminate].
  destruct (takeOpt ")" s5) as [rp s6] eqn:E5.
  destruct (takeOpt "-" s6) as [tm s7] eqn:E6.
  intros H; inversion H; subst t; clear H.
  repeat (apply andb_true_iff in Ec as [Ec ?]).
  apply ascii_eqb_eq in Ec. subst comma.
  apply andb_true_iff in Elen as [Hlo _]. apply Nat.leb_le in Hlo.
  apply (token_shape lp lm (takeWhile isDigit s2) gs a b rp tm);
    eauto using takeOpt_shape, takeWhile_forallb.
  intros E. rewrite E in Hlo. simpl in Hlo. lia.
Qed.


(** *** Reading a plain decimal numeral *)


Lemma parseNonDecimal_plain (z x : ascii) (rest : jsstring) :
  groupChar x = true -> parseNonDecimal (z :: x :: rest) = None.
Proof.
  intros Hx. unfold parseNonDecimal.
  destruct (ascii_eqb z "0"); [|reflexivity].
  replace (ascii_eqb x "x" || ascii_eqb x "X") with false
    by (revert Hx; ascii_cases x).
  replace (ascii_eqb x "o" || ascii_eqb x "O") with false
    by (revert Hx; ascii_cases x).
  replace (ascii_eqb x "b" || ascii_eqb x "B") with false
    by (revert Hx; ascii_cases x).
  reflexivity.
Qed.

Lemma digit_not_sign (c : ascii) :
  isDigit c = true ->
  ascii_eqb c "-" = false /\ ascii_eqb c "+" = false
  /\ ascii_eqb c "I" = false /\ groupChar c = true.
Proof. ascii_cases c. Qed.

(** [Number] of digits, a point and two digits is the number they
    denote. *)
Lemma Number_of_plain_decimal (ints : jsstring) (a b : ascii) :
  ints <> [] -> forallb isDigit ints = true ->
  isDigit a = true -> isDigit b = true ->
  exists q,
    Number_of_string (ints ++ "."%char :: [a; b]) = Fin q
    /\ q == digitsVal (ints ++ [a; b]) # 100.
Proof.
  intros Hne Hd Ha Hb.
  destruct ints as [|c ints]; [contradiction|].
  pose proof Hd as Hd'. cbn [forallb] in Hd'.
  apply andb_true_iff in Hd' as [Hc Hrest].
  destruct (digit_not_sign c Hc) as (Hminus & Hplus & HI & _).
  assert (Htrim : trim ((c :: ints) ++ "."%char :: [a; b])
                  = (c :: ints) ++ "."%char :: [a; b]).
  { apply trim_of_trimmed. split.
    - apply dropWhile_fixed, digit_not_ws, Hc.
    - rewrite rev_app_distr. simpl.
      rewrite (digit_not_ws _ Hb). reflexivity. }
  unfold Number_of_string. rewrite Htrim.
  cbn [app].
  assert (Hnd : parseNonDecimal (c :: ints ++ "."%char :: [a; b]) = None).
  { destruct ints as [|x ints']; cbn [app].
    - apply parseNonDecimal_plain. reflexivity.
    - apply parseNonDecimal_plain.
      cbn [forallb] in Hrest. apply andb_true_iff in Hrest as [Hx _].
      apply digit_not_sign, Hx. }
  rewrite Hnd, Hminus, Hplus.
  unfold parseUnsignedDecimal.
  replace (str_eqb (c :: ints ++ "."%char :: [a; b]) (str "Infinity"))
    with false by (simpl; rewrite HI; reflexivity).
  change (c :: ints ++ "."%char :: [a; b])
    with ((c :: ints) ++ "."%char :: [a; b]).
  destruct (takeWhile_all isDigit (c :: ints) ("."%char :: [a; b]) Hd)
    as [Htake Hdrop]; [reflexivity|].
  rewrite Htake, Hdrop.
  cbn [ascii_eqb]. replace (ascii_eqb "." ".") with true by reflexivity.
  cbn [takeWhile dropWhile]. rewrite Ha, Hb.
  cbn [parseExponent List.length].
  eexists. split; [reflexivity|].
  change (tenPow 2) with 100%positive. change (Qpower 10 0) with 1.
  apply Qmult_1_r.
Qed.

(** *** A token read by [parseMoneyBR] *)

Lemma optOf_filter (c : ascii) (p : jsstring) (f : ascii -> bool) :
  optOf c p -> filter f p = if f c then p else [].
Proof.
  intros [->| ->]; simpl; destruct (f c); reflexivity.
Qed.

Lemma removeAll_app (p : ascii -> bool) (x y : jsstring) :
  removeAll p (x ++ y) = removeAll p x ++ removeAll p y.
Proof. apply filter_app. Qed.

Lemma removeAll_keeps (p q : ascii -> bool) (l : jsstring) :
  (forall c, q c = true -> p c = false) ->
  forallb q l = true -> removeAll p l = l.
Proof.
  intros Hpq Hl. apply filter_all.
  eapply forallb_impl; [|exact Hl].
  intros c Hc. rewrite (Hpq c Hc). reflexivity.
Qed.

Lemma noWs_cleanSpaces (s : jsstring) :
  forallb (fun c => negb (isWs c)) s = true -> cleanSpaces s = s.
Proof.
  intros H. unfold cleanSpaces.
  assert (Hmap : map (fun c => if ascii_eqb c nbsp then " "%char else c) s
                 = s).
  { rewrite <- (map_id s) at 2. apply map_ext_in. intros c Hc.
    rewrite forallb_forall in H. specialize (H c Hc).
    destruct (ascii_eqb c nbsp) eqn:E; [|reflexivity].
    apply ascii_eqb_eq in E. subst c. discriminate. }
  rewrite Hmap.
  assert (Hcol : forall b, collapseWs_from b s = s).
  { clear Hmap. induction s as [|c s IH]; intros b; simpl; [reflexivity|].
    simpl in H. apply andb_true_iff in H as [Hc Hs].
    apply negb_true_iff in Hc. rewrite Hc, (IH Hs). reflexivity. }
  unfold collapseWs. rewrite Hcol.
  apply trim_of_trimmed. split.
  - destruct s as [|c s]; [reflexivity|]. simpl in H.
    apply andb_true_iff in H as [Hc _]. apply negb_true_iff in Hc.
    apply dropWhile_fixed, Hc.
  - assert (Hr : forallb (fun c => negb (isWs c)) (rev s) = true).
    { rewrite forallb_forall in *. intros c Hc. apply H, in_rev, Hc. }
    destruct (rev s) as [|c r]; [reflexivity|]. simpl in Hr.
    apply andb_true_iff in Hr as [Hc _]. apply negb_true_iff in Hc.
    apply dropWhile_fixed, Hc.
Qed.

Lemma tokenChar_not_ws (c : ascii) : tokenChar c = true -> negb (isWs c) = true.
Proof. ascii_cases c. Qed.

Lemma optOf_forallb (c : ascii) (p : jsstring) (f : ascii -> bool) :
  f c = true -> optOf c p -> forallb f p = true.
Proof. intros Hc [->| ->]; simpl; [|rewrite Hc]; reflexivity. Qed.

Lemma token_chars (tok : jsstring) :
  TokenShape tok -> forallb tokenChar tok = true.
Proof.
  intros [lp lm ds gs a b rp tm Hlp Hlm Hne Hds Hgs Ha Hb Hrp Htm].
  rewrite !forallb_app. cbn [forallb]. rewrite !forallb_app.
  rewrite (optOf_forallb "(" lp tokenChar eq_refl Hlp).
  rewrite (optOf_forallb "-" lm tokenChar eq_refl Hlm).
  rewrite (optOf_forallb ")" rp tokenChar eq_refl Hrp).
  rewrite (optOf_forallb "-" tm tokenChar eq_refl Htm).
  assert (Hg : forall c, groupChar c = true -> tokenChar c = true).
  { intros c Hc. unfold tokenChar. rewrite Hc. reflexivity. }
  assert (Hd : forall c, isDigit c = true -> tokenChar c = true).
  { intros c Hc. apply Hg. unfold groupChar. rewrite Hc.
    apply orb_true_r. }
  rewrite (forallb_impl _ _ _ Hd Hds), (forallb_impl _ _ _ Hg Hgs).
  rewrite (Hd a Ha), (Hd b Hb). reflexivity.
Qed.

Lemma optOf_removed (c : ascii) (p : jsstring) (f : ascii -> bool) :
  f c = true -> optOf c p -> removeAll f p = [].
Proof.
  intros Hc Hp. unfold removeAll. rewrite (optOf_filter c p _ Hp), Hc.
  reflexivity.
Qed.

Lemma optOf_kept (c : ascii) (p : jsstring) (f : ascii -> bool) :
  f c = false -> optOf c p -> removeAll f p = p.
Proof.
  intros Hc Hp. unfold removeAll. rewrite (optOf_filter c p _ Hp), Hc.
  reflexivity.
Qed.

Lemma groupChars_digits (gs : jsstring) :
  forallb groupChar gs = true ->
  removeAll isDot gs = filter isDigit gs
  /\ forallb isDigit (filter isDigit gs) = true.
Proof.
  induction gs as [|c gs IH]; simpl; intros H; [auto|].
  apply andb_true_iff in H as [Hc Hgs]. destruct (IH Hgs) as [E1 E2].
  destruct (groupChar_class c Hc) as (_ & _ & _ & _ & Hd).
  unfold removeAll in *. simpl. rewrite Hd.
  destruct (isDot c); simpl; [exact (conj E1 E2)|].
  rewrite E1. split; [reflexivity|].
  rewrite Hd in *. simpl. exact E2.
Qed.

Lemma replaceFirstChar_after (x y : ascii) (l r : jsstring) :
  forallb (fun c => negb (ascii_eqb c x)) l = true ->
  replaceFirstChar x y (l ++ x :: r) = l ++ y :: r.
Proof.
  induction l as [|c l IH]; simpl; intros H.
  - replace (ascii_eqb x x) with true
      by (symmetry; apply ascii_eqb_eq; reflexivity).
    reflexivity.
  - apply andb_true_iff in H as [Hc Hl]. apply negb_true_iff in Hc.
    rewrite Hc, (IH Hl). reflexivity.
Qed.

(** The numeral handed to [Number] and the digits the specification
    reads, for a token of the grammar *)
Lemma numeral_of_token (tok : jsstring) :
  TokenShape tok ->
  exists (ints : jsstring) (a b : ascii),
    ints <> [] /\ forallb isDigit ints = true
    /\ isDigit a = true /\ isDigit b = true
    /\ moneyNumeral tok = ints ++ "."%char :: [a; b]
    /\ integerDigits tok = ints
    /\ centDigits tok = [a; b].
Proof.
  intros [lp lm ds gs a b rp tm Hlp Hlm Hne Hds Hgs Ha Hb Hrp Htm].
  destruct (groupChars_digits gs Hgs) as [Hgd Hgd'].
  exists (ds ++ filter isDigit gs), a, b.
  destruct (digit_class a Ha) as (Hap & Ham & Had & Hac & Haw).
  destruct (digit_class b Hb) as (Hbp & Hbm & Hbd & Hbc & Hbw).
  split; [destruct ds; [contradiction | discriminate]|].
  split; [rewrite forallb_app, Hds, Hgd'; reflexivity|].
  split; [exact Ha|]. split; [exact Hb|].
  change (lp ++ lm ++ ds ++ gs ++ ","%char :: a :: b :: rp ++ tm)
    with (lp ++ lm ++ ds ++ gs ++ [","%char; a; b] ++ rp ++ tm).
  split; [|split].
  - unfold moneyNumeral.
    (* parentheses *)
    rewrite !removeAll_app.
    rewrite (optOf_removed "(" lp isParenChar eq_refl Hlp).
    rewrite (optOf_kept "-" lm isParenChar eq_refl Hlm).
    rewrite (removeAll_keeps isParenChar isDigit ds)
      by (exact Hds || (intros c Hc; apply digit_class, Hc)).
    rewrite (removeAll_keeps isParenChar groupChar gs)
      by (exact Hgs || (intros c Hc; apply groupChar_class, Hc)).
    rewrite (optOf_removed ")" rp isParenChar eq_refl Hrp).
    rewrite (optOf_kept "-" tm isParenChar eq_refl Htm).
    replace (removeAll isParenChar [","%char; a; b]) with [","%char; a; b]
      by (unfold removeAll; simpl; rewrite Hap, Hbp; reflexivity).
    (* minus signs *)
    replace (removeAll isMinus []) with (@nil ascii) by reflexivity.
    rewrite (optOf_removed "-" lm isMinus eq_refl Hlm).
    rewrite (optOf_removed "-" tm isMinus eq_refl Htm).
    rewrite (removeAll_keeps isMinus isDigit ds)
      by (exact Hds || (intros c Hc; apply digit_class, Hc)).
    rewrite (removeAll_keeps isMinus groupChar gs)
      by (exact Hgs || (intros c Hc; apply groupChar_class, Hc)).
    replace (removeAll isMinus [","%char; a; b]) with [","%char; a; b]
      by (unfold removeAll; simpl; rewrite Ham, Hbm; reflexivity).
    cbn [app].
    (* trim *)
    assert (Htrim : trim (ds ++ gs ++ [","%char; a; b])
                    = ds ++ gs ++ [","%char; a; b]).
    { apply trim_of_trimmed. split.
      - destruct ds as [|d ds']; [contradiction|].
        cbn [forallb] in Hds. apply andb_true_iff in Hds as [Hd _].
        apply dropWhile_fixed, digit_not_ws, Hd.
      - rewrite !rev_app_distr. simpl. rewrite Hbw. reflexivity. }
    rewrite Htrim.
    (* dots, then the comma *)
    rewrite !removeAll_app.
    rewrite (removeAll_keeps isDot isDigit ds)
      by (exact Hds || (intros c Hc; apply digit_class, Hc)).
    rewrite Hgd.
    replace (removeAll isDot [","%char; a; b]) with [","%char; a; b]
      by (unfold removeAll; simpl; rewrite Had, Hbd; reflexivity).
    rewrite app_assoc.
    apply replaceFirstChar_after.
    rewrite forallb_app.
    assert (Hnc : forall l, forallb isDigit l = true ->
                    forallb (fun c => negb (ascii_eqb c ",")) l = true).
    { intros l. apply forallb_impl. intros c Hc.
      apply (digit_class c Hc). }
    rewrite (Hnc _ Hds), (Hnc _ Hgd'). reflexivity.
  - unfold integerDigits.
    rewrite !app_assoc.
    destruct (takeWhile_all notComma (((lp ++ lm) ++ ds) ++ gs)
                ([","%char; a; b] ++ rp ++ tm)) as [Htake _].
    + rewrite !forallb_app.
      rewrite (optOf_forallb "(" lp notComma eq_refl Hlp).
      rewrite (optOf_forallb "-" lm notComma eq_refl Hlm).
      rewrite (forallb_impl isDigit notComma ds
                 (fun c Hc => proj1 (proj2 (proj2 (proj2 (digit_class c Hc)))))
                 Hds).
      rewrite (forallb_impl groupChar notComma gs
                 (fun c Hc => proj1 (proj2 (proj2 (groupChar_class c Hc))))
                 Hgs).
      reflexivity.
    + reflexivity.
    + rewrite <- !app_assoc in Htake. rewrite <- !app_assoc.
      rewrite Htake. rewrite !filter_app.
      rewrite (optOf_filter "(" lp isDigit Hlp).
      rewrite (optOf_filter "-" lm isDigit Hlm).
      rewrite (filter_all isDigit ds Hds). reflexivity.
  - unfold centDigits.
    rewrite !app_assoc.
    destruct (takeWhile_all notComma (((lp ++ lm) ++ ds) ++ gs)
                ([","%char; a; b] ++ rp ++ tm)) as [_ Hdrop].
    + rewrite !forallb_app.
      rewrite (optOf_forallb "(" lp notComma eq_refl Hlp).
      rewrite (optOf_forallb "-" lm notComma eq_refl Hlm).
      rewrite (forallb_impl isDigit notComma ds
                 (fun c Hc => proj1 (proj2 (proj2 (proj2 (digit_class c Hc)))))
                 Hds).
      rewrite (forallb_impl groupChar notComma gs
                 (fun c Hc => proj1 (proj2 (proj2 (groupChar_class c Hc))))
                 Hgs).
      reflexivity.
    + reflexivity.
    + rewrite <- !app_assoc in Hdrop. rewrite <- !app_assoc.
      rewrite Hdrop. rewrite !filter_app.
      rewrite (optOf_filter ")" rp isDigit Hrp).
      rewrite (optOf_filter "-" tm isDigit Htm).
      simpl. rewrite Ha, Hb. reflexivity.
Qed.



Lemma parseMoneyBR_unfold (tok : jsstring) :
  parseMoneyBR tok
  = let raw := cleanSpaces tok in
    if negb (nonEmpty raw) then None
    else
      let value := Number_of_string (moneyNumeral raw) in
      if negb (isFinite value) then None
      else Some (mkMoney raw
                   (num_scale value (if isNegativeForm raw then -1 else 1))).
Proof.
  unfold parseMoneyBR, isNegativeForm, moneyNumeral. cbv zeta.
  destruct (negb (nonEmpty (cleanSpaces tok))); [reflexivity|].
  destruct (negb (isFinite _)); [reflexivity|].
  destruct (startsWith (str "(") (cleanSpaces tok)
            && endsWith (str ")") (cleanSpaces tok)),
    (endsWith (str "-") (cleanSpaces tok)),
    (startsWith (str "-") (cleanSpaces tok)); reflexivity.
Qed.


Lemma isFinite_num_scale (x : number) (s : Q) :
  isFinite x = true -> isFinite (num_scale x s) = true.
Proof.
  destruct x as [| | | |q]; try discriminate; intros _; cbn [num_scale].
  - destruct (Qltb s 0); reflexivity.
  - destruct (Qeqb q 0); [destruct (Qltb s 0)|]; reflexivity.
Qed.




Example parseMoneyBR_not_numeric :
  parseMoneyBR (str "abc") = None
  /\ parseMoneyBR (str "   ") = None
  /\ parseMoneyBR (str "1,2,3") = None.
Proof. vm_compute. repeat split; reflexivity. Qed.

(** ** C7: the deferred total line of the ledger parser *)

(** A pending total line that a header follows is emitted with the group
    of the header and the description TOTAL and the group. *)
Example pending_total_flushed_by_header :
  map (fun r => (rawLine r, group r, code r, description r))
      (rows (parseContabilRowsFromText
               (firstTotalLine ++ lineBreak ++ str "PASSIVO")))
  = [(firstTotalLine, Some PASSIVO, Some (str "7"),
      Some (str "TOTAL PASSIVO"))].
Proof. vm_compute. reflexivity. Qed.

(** A pending total line that no header follows is emitted at the end of
    the input in the group OUTROS. *)
Example pending_total_flushed_at_end :
  map (fun r => (rawLine r, group r, code r, description r))
      (rows (parseContabilRowsFromText firstTotalLine))
  = [(firstTotalLine, Some OUTROS, Some (str "7"), None)].
Proof. vm_compute. reflexivity. Qed.

(** Whenever a step puts another line in the place of the pending total
    line, it emits no row: the line that was pending is gone. *)
Lemma replaced_pending_line_is_dropped (st : ParserState) (rawText : jsstring)
  (p p' : PendingTotal) :
  pendingTotalLine st = Some p ->
  pendingTotalLine (step st rawText) = Some p' ->
  p' <> p ->
  emitted (step st rawText) = emitted st.
Proof.
  intros Hp Hp' Hne. unfold step in *.
  destruct (detectColumnOrderFromHeader _); [reflexivity|].
  destruct (detectSectionHeader _); [discriminate|].
  destruct (isHeaderLine _); [reflexivity|].
  destruct (List.length _ <? 2)%nat; [reflexivity|].
  destruct (extractLeadingCode _) as [code0 rest].
  destruct (extractFirstClassification rest) as [cls descRest].
  destruct (Group_eqb (currentGroup st) OUTROS && truthyStr code0
            && negb (truthyStr cls)
            && (negb (nonEmpty (cleanSpaces descRest))
                || strEqOpt (cleanSpaces descRest) code0)
            && (4 <=? List.length _)%nat); [reflexivity|].
  cbn [pendingTotalLine] in Hp'. congruence.
Qed.


Local Open Scope Z_scope.

(** * Further properties of the ledger parser *)

(** ** White space: [cleanSpaces] and [unglueMoneyTokens] *)

Local Open Scope nat_scope.

Lemma nbspToSpace_ws (c : ascii) : isWs (nbspToSpace c) = isWs c.
Proof. ascii_cases c. Qed.

Lemma nbspToSpace_plain (c : ascii) :
  (isWs c = false \/ c = " "%char) -> nbspToSpace c = c.
Proof.
  intros [H| ->]; [|reflexivity].
  unfold nbspToSpace. destruct (ascii_eqb c nbsp) eqn:E; [|reflexivity].
  apply ascii_eqb_eq in E. subst c. discriminate.
Qed.

Lemma collapse_singleSpaces (b : bool) (s : jsstring) :
  singleSpaces b (collapseWs_from b s) = true.
Proof.
  revert b. induction s as [|c s IH]; intros b; [reflexivity|].
  cbn [collapseWs_from]. destruct (isWs c) eqn:Ec.
  - destruct b; [apply IH|].
    cbn [singleSpaces].
    replace (isWs " ") with true by reflexivity.
    rewrite IH. reflexivity.
  - cbn [singleSpaces]. rewrite Ec. apply IH.
Qed.

Lemma singleSpaces_weaken (b : bool) (s : jsstring) :
  singleSpaces b s = true -> singleSpaces false s = true.
Proof.
  destruct b; [|exact (fun H => H)].
  destruct s as [|c s]; [reflexivity|]. cbn [singleSpaces].
  destruct (isWs c); [|exact (fun H => H)].
  rewrite andb_false_r. discriminate.
Qed.

Lemma singleSpaces_app (b : bool) (x y : jsstring) :
  singleSpaces b (x ++ y) = true ->
  singleSpaces b x = true /\ singleSpaces false y = true.
Proof.
  revert b. induction x as [|c x IH]; intros b H.
  - split; [reflexivity|]. eapply singleSpaces_weaken, H.
  - cbn [app singleSpaces] in *. destruct (isWs c).
    + apply andb_true_iff in H as [H1 H2].
      destruct (IH true H2) as [Hx Hy]. rewrite H1, Hx. split; [reflexivity|exact Hy].
    + apply IH, H.
Qed.

(** A string that is already spaced is a fixed point of the collapse. *)
Lemma singleSpaces_fixed (b : bool) (s : jsstring) :
  singleSpaces b s = true ->
  collapseWs_from b (map nbspToSpace s) = s.
Proof.
  revert b. induction s as [|c s IH]; intros b H; [reflexivity|].
  cbn [map collapseWs_from singleSpaces] in *.
  rewrite nbspToSpace_ws. destruct (isWs c) eqn:Ec.
  - apply andb_true_iff in H as [H1 H2]. apply andb_true_iff in H1 as [Hc Hb].
    apply ascii_eqb_eq in Hc. subst c. apply negb_true_iff in Hb. subst b.
    rewrite (IH true H2). reflexivity.
  - rewrite (IH false H), nbspToSpace_plain by (left; exact Ec). reflexivity.
Qed.

(** [trim] cuts white space off both ends and nothing else. *)
Lemma trim_infix (s : jsstring) :
  exists pre post,
    s = pre ++ trim s ++ post
    /\ forallb isWs pre = true /\ forallb isWs post = true.
Proof.
  exists (takeWhile isWs s), (rev (takeWhile isWs (rev (dropWhile isWs s)))).
  split; [|split].
  - unfold trim, trimEnd, trimStart.
    rewrite <- rev_app_distr, takeWhile_dropWhile, rev_involutive.
    symmetry. apply takeWhile_dropWhile.
  - apply takeWhile_forallb.
  - rewrite forallb_forall. intros c Hc. apply in_rev in Hc.
    pose proof (takeWhile_forallb isWs (rev (dropWhile isWs s))) as H.
    rewrite forallb_forall in H. apply H, Hc.
Qed.

Lemma removeAll_all (p : ascii -> bool) (l : jsstring) :
  forallb p l = true -> removeAll p l = [].
Proof.
  induction l as [|c l IH]; [reflexivity|]. cbn [forallb removeAll filter].
  intros H. apply andb_true_iff in H as [Hc Hl]. rewrite Hc. cbn [negb].
  apply IH, Hl.
Qed.

Lemma removeAll_trim (s : jsstring) :
  removeAll isWs (trim s) = removeAll isWs s.
Proof.
  destruct (trim_infix s) as (pre & post & E & Hpre & Hpost).
  rewrite E at 2. rewrite !removeAll_app, (removeAll_all _ _ Hpre),
    (removeAll_all _ _ Hpost), app_nil_r. reflexivity.
Qed.

Lemma removeAll_collapse (b : bool) (s : jsstring) :
  removeAll isWs (collapseWs_from b s) = removeAll isWs s.
Proof.
  revert b. induction s as [|c s IH]; intros b; [reflexivity|].
  cbn [collapseWs_from]. unfold removeAll in *. cbn [filter].
  destruct (isWs c) eqn:Ec; cbn [negb].
  - destruct b; [apply IH|]. cbn [filter].
    replace (isWs " ") with true by reflexivity. cbn [negb]. apply IH.
  - cbn [filter]. rewrite Ec. cbn [negb]. f_equal. apply IH.
Qed.

Lemma removeAll_nbspToSpace (s : jsstring) :
  removeAll isWs (map nbspToSpace s) = removeAll isWs s.
Proof.
  induction s as [|c s IH]; [reflexivity|].
  unfold removeAll in *. cbn [map filter]. rewrite nbspToSpace_ws.
  destruct (isWs c) eqn:Ec; cbn [negb]; [exact IH|].
  rewrite IH, nbspToSpace_plain by (left; exact Ec). reflexivity.
Qed.

Lemma cleanSpaces_unfold (s : jsstring) :
  cleanSpaces s = trim (collapseWs_from false (map nbspToSpace s)).
Proof. reflexivity. Qed.

Lemma cleanSpaces_spaced (s : jsstring) :
  singleSpaces false (cleanSpaces s) = true.
Proof.
  rewrite cleanSpaces_unfold.
  destruct (trim_infix (collapseWs_from false (map nbspToSpace s)))
    as (pre & post & E & _ & _).
  pose proof (collapse_singleSpaces false (map nbspToSpace s)) as H.
  rewrite E in H.
  apply singleSpaces_app in H as [_ H].
  apply singleSpaces_app in H as [H _]. exact H.
Qed.

Lemma cleanSpaces_fixed (s : jsstring) :
  trimmed s -> singleSpaces false s = true -> cleanSpaces s = s.
Proof.
  intros Ht Hs. rewrite cleanSpaces_unfold, (singleSpaces_fixed false s Hs).
  apply trim_of_trimmed, Ht.
Qed.

(** X1. [cleanSpaces] returns a normal form: the result neither starts nor
    ends with white space, its only white-space characters are single
    plain spaces, and it holds the characters of the input that are not
    white space, unchanged and in order; cleaning a cleaned string changes
    nothing. *)
Theorem cleanSpaces_normal_form (s : jsstring) :
  trimmed (cleanSpaces s)
  /\ singleSpaces false (cleanSpaces s) = true
  /\ removeAll isWs (cleanSpaces s) = removeAll isWs s
  /\ cleanSpaces (cleanSpaces s) = cleanSpaces s.
Proof.
  split; [|split; [|split]].
  - rewrite cleanSpaces_unfold. apply trim_is_trimmed.
  - apply cleanSpaces_spaced.
  - rewrite cleanSpaces_unfold, removeAll_trim, removeAll_collapse.
    apply removeAll_nbspToSpace.
  - apply cleanSpaces_fixed; [|apply cleanSpaces_spaced].
    rewrite cleanSpaces_unfold. apply trim_is_trimmed.
Qed.

(** *** Ungluing *)

Lemma unglueAfterCents_cons (c : ascii) (t : jsstring) :
  ascii_eqb c "," = false ->
  unglueAfterCents (c :: t) = c :: unglueAfterCents t.
Proof.
  intros H. cbn [unglueAfterCents]. rewrite H. cbn [andb].
  destruct t as [|a [|b rest]]; reflexivity.
Qed.

Lemma digit_not_comma (c : ascii) : isDigit c = true -> ascii_eqb c "," = false.
Proof. ascii_cases c. Qed.

Lemma digit_not_paren (c : ascii) : isDigit c = true -> ascii_eqb c ")" = false.
Proof. ascii_cases c. Qed.

Lemma unglueAfterCents_hd (s : jsstring) :
  hd_error (unglueAfterCents s) = hd_error s.
Proof.
  destruct s as [|c [|a [|b rest]]]; try reflexivity.
  cbn [unglueAfterCents].
  destruct (ascii_eqb c "," && isDigit a && isDigit b &&
            match rest with c0 :: _ => isDigit c0 | [] => false end);
    reflexivity.
Qed.

Lemma startsWithDigit_hd (x y : jsstring) :
  hd_error x = hd_error y -> startsWithDigit x = startsWithDigit y.
Proof.
  destruct x, y; cbn; intros H; try discriminate; [reflexivity|].
  inversion H. reflexivity.
Qed.

Lemma three_digits_cons (a : ascii) (x : jsstring) :
  startsWithThreeDigits (a :: x)
  = isDigit a
    && match x with b :: y => isDigit b && startsWithDigit y | [] => false end.
Proof.
  destruct x as [|b [|d y]]; cbn; rewrite ?andb_false_r, ?andb_assoc;
    reflexivity.
Qed.

Lemma three_digits_hd (x : jsstring) (c : ascii) :
  hd_error x = Some c -> isDigit c = false -> startsWithThreeDigits x = false.
Proof.
  destruct x as [|a x]; [discriminate|]. cbn [hd_error]. intros H Hc.
  inversion H; subst a. rewrite three_digits_cons, Hc. reflexivity.
Qed.

Lemma unglueAfterCents_three (s : jsstring) :
  startsWithThreeDigits (unglueAfterCents s) = startsWithThreeDigits s.
Proof.
  destruct s as [|a t]; [reflexivity|].
  destruct (isDigit a) eqn:Ea.
  2:{ rewrite (three_digits_hd (a :: t) a eq_refl Ea).
      apply (three_digits_hd _ a); [|exact Ea].
      rewrite unglueAfterCents_hd. reflexivity. }
  rewrite (unglueAfterCents_cons a t (digit_not_comma a Ea)).
  rewrite !three_digits_cons. f_equal.
  destruct t as [|b t']; [reflexivity|].
  destruct (isDigit b) eqn:Eb.
  - rewrite (unglueAfterCents_cons b t' (digit_not_comma b Eb)), Eb.
    f_equal. apply startsWithDigit_hd, unglueAfterCents_hd.
  - pose proof (unglueAfterCents_hd (b :: t')) as Hh.
    destruct (unglueAfterCents (b :: t')) as [|b' r]; [discriminate|].
    cbn in Hh. inversion Hh; subst b'. rewrite Eb. reflexivity.
Qed.

Lemma unglueAfterCents_unglued (s : jsstring) :
  gluedCents (unglueAfterCents s) = false.
Proof.
  assert (H : forall k s, List.length s <= k ->
                          gluedCents (unglueAfterCents s) = false).
  { induction k as [|k IH]; intros s0 Hk.
    - destruct s0; [reflexivity | simpl in Hk; lia].
    - destruct s0 as [|c tl]; [reflexivity|].
      assert (Hplain : gluedCents (c :: unglueAfterCents tl) = false
                       \/ exists a b rest,
                            tl = a :: b :: rest
                            /\ (ascii_eqb c "," && isDigit a && isDigit b
                                && startsWithDigit rest) = true).
      { cbn [gluedCents]. rewrite unglueAfterCents_three.
        rewrite (IH tl) by (simpl in Hk; lia). rewrite orb_false_r.
        destruct (ascii_eqb c "," && startsWithThreeDigits tl) eqn:E;
          [right | left; reflexivity].
        apply andb_true_iff in E as [Ec E3].
        destruct tl as [|a [|b [|d rest]]]; try discriminate.
        exists a, b, (d :: rest). split; [reflexivity|].
        cbn [startsWithThreeDigits] in E3. cbn [startsWithDigit].
        rewrite Ec. cbn [andb]. exact E3. }
      destruct Hplain as [Hplain|(a & b & rest & -> & Hc)].
      + destruct tl as [|a [|b rest]]; try exact Hplain.
        cbn [unglueAfterCents].
        destruct (ascii_eqb c "," && isDigit a && isDigit b &&
                  match rest with c0 :: _ => isDigit c0 | [] => false end)
          eqn:E; [|exact Hplain].
        repeat (apply andb_true_iff in E as [E ?]).
        cbn [gluedCents startsWithThreeDigits].
        replace (isDigit " ") with false by reflexivity.
        rewrite (digit_not_comma a), (digit_not_comma b) by assumption.
        replace (ascii_eqb " " ",") with false by reflexivity.
        rewrite !andb_false_r. cbn [andb orb].
        apply IH. simpl in Hk. lia.
      + cbn [unglueAfterCents]. unfold startsWithDigit in Hc. rewrite Hc.
        repeat (apply andb_true_iff in Hc as [Hc ?]).
        cbn [gluedCents startsWithThreeDigits].
        replace (isDigit " ") with false by reflexivity.
        rewrite (digit_not_comma a), (digit_not_comma b) by assumption.
        replace (ascii_eqb " " ",") with false by reflexivity.
        rewrite !andb_false_r. cbn [andb orb].
        apply IH. simpl in Hk. lia. }
  apply (H (List.length s)). lia.
Qed.

Lemma unglueAfterParen_hd (s : jsstring) :
  hd_error (unglueAfterParen s) = hd_error s.
Proof.
  destruct s as [|c t]; [reflexivity|]. cbn [unglueAfterParen].
  destruct (ascii_eqb c ")" &&
            match t with c0 :: _ => isDigit c0 | [] => false end); reflexivity.
Qed.

Lemma unglueAfterParen_cons (c : ascii) (t : jsstring) :
  ascii_eqb c ")" = false ->
  unglueAfterParen (c :: t) = c :: unglueAfterParen t.
Proof. intros H. cbn [unglueAfterParen]. rewrite H. reflexivity. Qed.

Lemma unglueAfterParen_three (s : jsstring) :
  startsWithThreeDigits (unglueAfterParen s) = startsWithThreeDigits s.
Proof.
  destruct s as [|a t]; [reflexivity|].
  destruct (isDigit a) eqn:Ea.
  2:{ rewrite (three_digits_hd (a :: t) a eq_refl Ea).
      apply (three_digits_hd _ a); [|exact Ea].
      rewrite unglueAfterParen_hd. reflexivity. }
  rewrite (unglueAfterParen_cons a t (digit_not_paren a Ea)).
  rewrite !three_digits_cons. f_equal.
  destruct t as [|b t']; [reflexivity|].
  destruct (isDigit b) eqn:Eb.
  - rewrite (unglueAfterParen_cons b t' (digit_not_paren b Eb)), Eb.
    f_equal. apply startsWithDigit_hd, unglueAfterParen_hd.
  - pose proof (unglueAfterParen_hd (b :: t')) as Hh.
    destruct (unglueAfterParen (b :: t')) as [|b' r]; [discriminate|].
    cbn in Hh. inversion Hh; subst b'. rewrite Eb. reflexivity.
Qed.

Lemma unglueAfterParen_keeps_cents (s : jsstring) :
  gluedCents s = false -> gluedCents (unglueAfterParen s) = false.
Proof.
  induction s as [|c t IH]; [reflexivity|].
  cbn [gluedCents]. intros H. apply orb_false_iff in H as [Hc Ht].
  cbn [unglueAfterParen].
  destruct (ascii_eqb c ")" &&
            match t with c0 :: _ => isDigit c0 | [] => false end) eqn:E.
  - apply andb_true_iff in E as [E _]. apply ascii_eqb_eq in E. subst c.
    cbn [gluedCents]. rewrite (IH Ht). reflexivity.
  - cbn [gluedCents]. rewrite unglueAfterParen_three, Hc, (IH Ht).
    reflexivity.
Qed.

Lemma unglueAfterParen_unglued (s : jsstring) :
  gluedParen (unglueAfterParen s) = false.
Proof.
  induction s as [|c t IH]; [reflexivity|].
  cbn [unglueAfterParen].
  destruct (ascii_eqb c ")" &&
            match t with c0 :: _ => isDigit c0 | [] => false end) eqn:E.
  - cbn [gluedParen startsWithDigit]. rewrite IH.
    replace (isDigit " ") with false by reflexivity.
    replace (ascii_eqb " " ")") with false by reflexivity.
    rewrite andb_false_r. reflexivity.
  - cbn [gluedParen]. rewrite IH, orb_false_r.
    rewrite (startsWithDigit_hd _ t (unglueAfterParen_hd t)). exact E.
Qed.

Lemma collapse_hd_digit (s : jsstring) :
  startsWithDigit (collapseWs_from false s) = startsWithDigit s.
Proof.
  destruct s as [|c t]; [reflexivity|]. cbn [collapseWs_from].
  destruct (isWs c) eqn:Ec; [|reflexivity].
  cbn [startsWithDigit]. destruct (isDigit c) eqn:Ed; [|reflexivity].
  rewrite (digit_not_ws c Ed) in Ec. discriminate.
Qed.

Lemma collapse_three (s : jsstring) :
  startsWithThreeDigits (collapseWs_from false s) = startsWithThreeDigits s.
Proof.
  destruct s as [|a t]; [reflexivity|].
  destruct (isDigit a) eqn:Ea.
  2:{ rewrite (three_digits_hd (a :: t) a eq_refl Ea).
      cbn [collapseWs_from]. destruct (isWs a).
      - apply (three_digits_hd _ " "%char); reflexivity.
      - apply (three_digits_hd _ a); [reflexivity | exact Ea]. }
  cbn [collapseWs_from]. rewrite (digit_not_ws a Ea).
  rewrite !three_digits_cons. f_equal.
  destruct t as [|b t']; [reflexivity|].
  cbn [collapseWs_from]. destruct (isDigit b) eqn:Eb.
  - rewrite (digit_not_ws b Eb), Eb. f_equal. apply collapse_hd_digit.
  - destruct (isWs b); [reflexivity|]. rewrite Eb. reflexivity.
Qed.

Lemma collapse_keeps_cents (b : bool) (s : jsstring) :
  gluedCents s = false -> gluedCents (collapseWs_from b s) = false.
Proof.
  revert b. induction s as [|c t IH]; intros b; [reflexivity|].
  cbn [gluedCents]. intros H. apply orb_false_iff in H as [Hc Ht].
  cbn [collapseWs_from]. destruct (isWs c) eqn:Ec.
  - destruct b; [apply IH, Ht|]. cbn [gluedCents].
    replace (ascii_eqb " " ",") with false by reflexivity.
    apply IH, Ht.
  - cbn [gluedCents]. rewrite collapse_three, Hc. apply IH, Ht.
Qed.

Lemma collapse_keeps_paren (b : bool) (s : jsstring) :
  gluedParen s = false -> gluedParen (collapseWs_from b s) = false.
Proof.
  revert b. induction s as [|c t IH]; intros b; [reflexivity|].
  cbn [gluedParen]. intros H. apply orb_false_iff in H as [Hc Ht].
  cbn [collapseWs_from]. destruct (isWs c) eqn:Ec.
  - destruct b; [apply IH, Ht|]. cbn [gluedParen].
    replace (ascii_eqb " " ")") with false by reflexivity.
    apply IH, Ht.
  - cbn [gluedParen]. rewrite collapse_hd_digit, Hc. apply IH, Ht.
Qed.

Lemma unglueAfterCents_eq (c : ascii) (tl : jsstring) :
  unglueAfterCents (c :: tl)
  = match tl with
    | a :: b :: rest =>
        if ascii_eqb c "," && isDigit a && isDigit b && startsWithDigit rest
        then c :: a :: b :: " "%char :: unglueAfterCents rest
        else c :: unglueAfterCents tl
    | _ => c :: unglueAfterCents tl
    end.
Proof. destruct tl as [|a [|b rest]]; reflexivity. Qed.

Lemma removeAll_unglueAfterCents (s : jsstring) :
  removeAll isWs (unglueAfterCents s) = removeAll isWs s.
Proof.
  assert (H : forall k s, List.length s <= k ->
                removeAll isWs (unglueAfterCents s) = removeAll isWs s).
  { induction k as [|k IH]; intros s0 Hk.
    - destruct s0; [reflexivity | simpl in Hk; lia].
    - destruct s0 as [|c tl]; [reflexivity|]. simpl in Hk.
      assert (Hstep : removeAll isWs (c :: unglueAfterCents tl)
                      = removeAll isWs (c :: tl)).
      { unfold removeAll in *. cbn [filter].
        rewrite (IH tl) by lia. reflexivity. }
      rewrite unglueAfterCents_eq.
      destruct tl as [|a [|b rest]]; try exact Hstep.
      destruct (ascii_eqb c "," && isDigit a && isDigit b
                && startsWithDigit rest); [|exact Hstep].
      simpl in Hk. unfold removeAll in *. cbn [filter].
      replace (isWs " ") with true by reflexivity. cbn [negb].
      rewrite (IH rest) by lia. reflexivity. }
  apply (H (List.length s)). lia.
Qed.

Lemma removeAll_unglueAfterParen (s : jsstring) :
  removeAll isWs (unglueAfterParen s) = removeAll isWs s.
Proof.
  induction s as [|c t IH]; [reflexivity|]. cbn [unglueAfterParen].
  unfold removeAll in *.
  destruct (ascii_eqb c ")" &&
            match t with c0 :: _ => isDigit c0 | [] => false end);
    cbn [filter]; rewrite ?IH;
    replace (isWs " ") with true by reflexivity; reflexivity.
Qed.

(** X2. [unglueMoneyTokens] only inserts or merges blanks: the characters
    of the line that are not white space come out unchanged and in order;
    and in its result no cents group (a comma and two digits) and no
    closing parenthesis has a digit directly behind it. *)
Theorem unglueMoneyTokens_separates (line : jsstring) :
  removeAll isWs (unglueMoneyTokens line) = removeAll isWs line
  /\ gluedCents (unglueMoneyTokens line) = false
  /\ gluedParen (unglueMoneyTokens line) = false.
Proof.
  unfold unglueMoneyTokens, collapseWs. split; [|split].
  - rewrite removeAll_collapse, removeAll_unglueAfterParen.
    apply removeAll_unglueAfterCents.
  - apply collapse_keeps_cents, unglueAfterParen_keeps_cents,
      unglueAfterCents_unglued.
  - apply collapse_keeps_paren, unglueAfterParen_unglued.
Qed.

Local Open Scope Z_scope.

(** ** Monetary tokens of a line *)

Local Open Scope nat_scope.

(** Every token that has the shape of the grammar parses, and its raw text
    is the token. *)
Lemma parseMoneyBR_of_shape (tok : jsstring) :
  TokenShape tok ->
  exists m, parseMoneyBR tok = Some m /\ raw m = tok
            /\ isFinite (value m) = true.
Proof.
  intros Hshape.
  destruct (numeral_of_token tok Hshape)
    as (ints & a & b & Hne & Hints & Ha & Hb & Hnum & _ & _).
  destruct (Number_of_plain_decimal ints a b Hne Hints Ha Hb)
    as (q & Hq & _).
  assert (Hclean : cleanSpaces tok = tok).
  { apply noWs_cleanSpaces. eapply forallb_impl; [|apply token_chars, Hshape].
    apply tokenChar_not_ws. }
  assert (Hnonempty : nonEmpty tok = true).
  { destruct Hshape as [lp lm ds gs a' b' rp tm Hlp Hlm Hds]. clear - Hds.
    destruct lp; [|reflexivity]. destruct lm; [|reflexivity].
    destruct ds; [contradiction | reflexivity]. }
  rewrite parseMoneyBR_unfold. cbv zeta.
  rewrite Hclean, Hnonempty, Hnum, Hq. cbn [negb isFinite].
  eexists. split; [reflexivity|]. split; [reflexivity|].
  cbn [value]. apply isFinite_num_scale. reflexivity.
Qed.

Lemma thousandsGroups_eq (s : jsstring) :
  thousandsGroups s
  = match s with
    | d :: a :: b :: c :: rest =>
        if isDot d && isDigit a && isDigit b && isDigit c
        then let '(g, r) := thousandsGroups rest in (d :: a :: b :: c :: g, r)
        else ([], s)
    | _ => ([], s)
    end.
Proof. destruct s as [|d [|a [|b [|c rest]]]]; reflexivity. Qed.

(** The greedy run of groups is the same in front of any text that does
    not itself start with a group. *)
Lemma thousandsGroups_greedy (s gs s4 : jsstring) :
  thousandsGroups s = (gs, s4) ->
  (gs = [] \/ exists t, gs = "."%char :: t)
  /\ forall r, thousandsGroups r = ([], r) ->
               thousandsGroups (gs ++ r) = (gs, r).
Proof.
  assert (H : forall k s gs s4, List.length s <= k ->
              thousandsGroups s = (gs, s4) ->
              (gs = [] \/ exists t, gs = "."%char :: t)
              /\ forall r, thousandsGroups r = ([], r) ->
                           thousandsGroups (gs ++ r) = (gs, r)).
  { induction k as [|k IH]; intros s0 gs0 r0 Hk E.
    - destruct s0; [|simpl in Hk; lia]. inversion E. split; [left; reflexivity|].
      intros r Hr. exact Hr.
    - rewrite thousandsGroups_eq in E.
      destruct s0 as [|d [|a [|b [|c rest]]]];
        try (inversion E; split; [left; reflexivity|]; intros r Hr; exact Hr).
      destruct (isDot d && isDigit a && isDigit b && isDigit c) eqn:Ec.
      2:{ inversion E; split; [left; reflexivity|]; intros r Hr; exact Hr. }
      destruct (thousandsGroups rest) as [g r1] eqn:Er.
      inversion E; subst gs0 r0; clear E.
      destruct (IH rest g r1) as [_ Hg]; [simpl in Hk; lia | exact Er |].
      split.
      + right. repeat (apply andb_true_iff in Ec as [Ec ?]).
        unfold isDot in Ec. apply ascii_eqb_eq in Ec. subst d. eauto.
      + intros r Hr. cbn [app]. rewrite thousandsGroups_eq, Ec, (Hg r Hr).
        reflexivity. }
  apply (H (List.length s) s gs s4). lia.
Qed.

Lemma takeOpt_app (c : ascii) (p r : jsstring) :
  optOf c p ->
  (p = [] -> match r with x :: _ => ascii_eqb x c = false | [] => True end) ->
  takeOpt c (p ++ r) = (p, r).
Proof.
  intros [->| ->] Hr.
  - specialize (Hr eq_refl). destruct r as [|x r]; [reflexivity|].
    cbn [app takeOpt]. rewrite Hr. reflexivity.
  - cbn [app takeOpt].
    replace (ascii_eqb c c) with true
      by (symmetry; apply ascii_eqb_eq; reflexivity).
    reflexivity.
Qed.

Lemma takeOpt_rest (c : ascii) (s p r : jsstring) :
  takeOpt c s = (p, r) ->
  s = p ++ r
  /\ (p = [] -> match r with x :: _ => ascii_eqb x c = false | [] => True end).
Proof.
  unfold takeOpt. destruct s as [|x t].
  - intros H; inversion H. auto.
  - destruct (ascii_eqb x c) eqn:E; intros H; inversion H; subst.
    + split; [reflexivity | discriminate].
    + split; [reflexivity | intros _; exact E].
Qed.

Lemma digit_not_open (c : ascii) :
  isDigit c = true ->
  ascii_eqb c "(" = false /\ ascii_eqb c "-" = false.
Proof. ascii_cases c. Qed.

(** What the pattern matches at the head of a text it matches again, in
    full, on the match itself. *)
Lemma matchMoneyAt_again (s t : jsstring) :
  matchMoneyAt s = Some t -> matchMoneyAt t = Some t.
Proof.
  unfold matchMoneyAt at 1.
  destruct (takeOpt "(" s) as [lp s1] eqn:E1.
  destruct (takeOpt "-" s1) as [lm s2] eqn:E2.
  destruct ((1 <=? List.length (takeWhile isDigit s2)) &&
            (List.length (takeWhile isDigit s2) <=? 3)) eqn:Elen;
    [|discriminate].
  destruct (thousandsGroups (dropWhile isDigit s2)) as [gs s4] eqn:Eg.
  destruct s4 as [|comma [|a [|b s5]]]; try discriminate.
  destruct (ascii_eqb comma "," && isDigit a && isDigit b) eqn:Ec;
    [|discriminate].
  destruct (takeOpt ")" s5) as [rp s6] eqn:E5.
  destruct (takeOpt "-" s6) as [tm s7] eqn:E6.
  intros H; inversion H; subst t; clear H.
  set (ds := takeWhile isDigit s2) in *.
  pose proof (takeWhile_forallb isDigit s2) as Hds. fold ds in Hds.
  pose proof (takeOpt_shape _ _ _ _ E1) as Hlp.
  pose proof (takeOpt_shape _ _ _ _ E2) as Hlm.
  pose proof (takeOpt_shape _ _ _ _ E5) as Hrp.
  pose proof (takeOpt_shape _ _ _ _ E6) as Htm.
  destruct (thousandsGroups_greedy _ _ _ Eg) as [Hgs Hgreedy].
  assert (Hd1 : exists d ds', ds = d :: ds' /\ isDigit d = true).
  { apply andb_true_iff in Elen as [Hlo _]. apply Nat.leb_le in Hlo.
    destruct ds as [|d ds']; [simpl in Hlo; lia|].
    exists d, ds'. split; [reflexivity|].
    cbn [forallb] in Hds. apply andb_true_iff in Hds as [Hd _]. exact Hd. }
  destruct Hd1 as (d & ds' & Eds & Hd).
  destruct (digit_not_open d Hd) as [Hdo Hdm].
  repeat (apply andb_true_iff in Ec as [Ec ?]).
  apply ascii_eqb_eq in Ec. subst comma.
  set (tail := ","%char :: a :: b :: rp ++ tm).
  unfold matchMoneyAt.
  (* the opening parenthesis and the leading minus *)
  rewrite (takeOpt_app "(" lp (lm ++ ds ++ gs ++ tail) Hlp).
  2:{ intros _. destruct Hlm as [->| ->]; [|reflexivity].
      rewrite Eds. exact Hdo. }
  rewrite (takeOpt_app "-" lm (ds ++ gs ++ tail) Hlm).
  2:{ intros _. rewrite Eds. exact Hdm. }
  (* the leading digits *)
  destruct (takeWhile_all isDigit ds (gs ++ tail) Hds) as [Htake Hdrop].
  { destruct Hgs as [->|(g' & ->)]; reflexivity. }
  rewrite Htake, Hdrop, Elen.
  (* the groups of thousands *)
  assert (Hcomma : thousandsGroups tail = ([], tail)).
  { unfold tail. rewrite thousandsGroups_eq.
    destruct (rp ++ tm) as [|x [|y r]]; reflexivity. }
  rewrite (Hgreedy tail Hcomma).
  unfold tail at 1.
  replace (ascii_eqb "," ",") with true by reflexivity.
  rewrite H, H0. cbn [andb].
  (* the closing parenthesis and the trailing minus *)
  destruct (takeOpt_rest _ _ _ _ E6) as [_ Htm'].
  rewrite (takeOpt_app ")" rp tm Hrp).
  2:{ intros _. destruct Htm as [->| ->]; reflexivity. }
  rewrite <- (app_nil_r tm) at 1.
  rewrite (takeOpt_app "-" tm [] Htm) by (intros _; exact I).
  reflexivity.
Qed.

Lemma matchMoneyAt_is_token (s t : jsstring) :
  matchMoneyAt s = Some t -> isMoneyToken t = true.
Proof.
  intros H. unfold isMoneyToken. rewrite (matchMoneyAt_again s t H).
  apply str_eqb_refl.
Qed.

Lemma moneyMatches_from_matched (k : nat) (s tok : jsstring) :
  In tok (moneyMatches_from k s) -> exists s', matchMoneyAt s' = Some tok.
Proof.
  revert k. induction s as [|c tl IH]; intros k; [intros []|].
  cbn [moneyMatches_from]. destruct k as [|k]; [|apply IH].
  destruct (matchMoneyAt (c :: tl)) as [t|] eqn:E; [|apply IH].
  intros [<-|H]; [eauto | eapply IH, H].
Qed.

Lemma parsedTokens_all (toks : list jsstring) :
  Forall (fun t => exists m, parseMoneyBR t = Some m) toks ->
  List.length (parsedTokens toks) = List.length toks.
Proof.
  induction 1 as [|t toks [m Hm] _ IH]; [reflexivity|].
  cbn [parsedTokens]. rewrite Hm. cbn [List.length]. rewrite IH. reflexivity.
Qed.

Lemma moneyMatches_tokens (line : jsstring) :
  Forall (fun tok => isMoneyToken tok = true
                     /\ exists m, parseMoneyBR tok = Some m /\ raw m = tok
                                  /\ isFinite (value m) = true)
         (moneyMatches line).
Proof.
  apply Forall_forall. intros tok Hin.
  destruct (moneyMatches_from_matched 0 line tok Hin) as [s' Hs'].
  split; [eapply matchMoneyAt_is_token, Hs'|].
  apply parseMoneyBR_of_shape. eapply matchMoneyAt_shape, Hs'.
Qed.


Example matches_of_a_glued_line :
  moneyMatches (unglueMoneyTokens (str "1 ATIVO 15.196.986,855.511.188,33"))
  = [str "15.196.986,85"; str "5.511.188,33"].
Proof. vm_compute. reflexivity. Qed.

Local Open Scope Z_scope.

(** ** Monetary columns of a row *)

Local Open Scope nat_scope.

Lemma lastFour_length {A : Type} (l : list A) :
  List.length (lastFour l) = Nat.min 4 (List.length l).
Proof. unfold lastFour. rewrite length_skipn. lia. Qed.

Lemma lastFour_in {A : Type} (l : list A) (x : A) :
  In x (lastFour l) -> In x l.
Proof.
  unfold lastFour. intros H.
  rewrite <- (firstn_skipn (List.length l - 4) l). apply in_or_app. auto.
Qed.

Lemma mapMoneyTokens_columns (tokens : list jsstring) (order : ColumnOrder) :
  let parsed := parsedTokens tokens in
  let cols := mapMoneyTokens tokens order in
  Permutation (filled cols) (lastFour parsed)
  /\ (4 <= List.length parsed ->
      columnsInOrder order cols = map Some (lastFour parsed))
  /\ (2 <= List.length parsed ->
      exists m, c_saldoAnterior cols = Some m)
  /\ (parsed = [] -> cols = mkCols None None None None).
Proof.
  intros parsed cols. subst cols. unfold mapMoneyTokens. fold parsed.
  pose proof (lastFour_length parsed) as Hlen.
  destruct (lastFour parsed) as [|m1 [|m2 [|m3 [|m4 [|m5 rest]]]]] eqn:E;
    cbn [List.length] in Hlen.
  - split; [constructor|]. split; [intros H; lia|]. split; [intros H; lia|].
    reflexivity.
  - split; [apply Permutation_refl|].
    split; [intros H; lia|]. split; [intros H; lia|].
    intros H. rewrite H in Hlen. simpl in Hlen. lia.
  - split; [destruct order; apply Permutation_refl || apply perm_swap|].
    split; [intros H; lia|].
    split; [intros _; destruct order; cbn; eauto|].
    intros H. rewrite H in Hlen. simpl in Hlen. lia.
  - split.
    { destruct order; [apply Permutation_refl|].
      cbn. apply Permutation_refl. }
    split; [intros H; lia|].
    split; [intros _; destruct order; cbn; eauto|].
    intros H. rewrite H in Hlen. simpl in Hlen. lia.
  - split.
    { destruct order; [apply Permutation_refl|]. cbn.
      change [m4; m1; m2; m3] with ([m4] ++ [m1; m2; m3]).
      change [m1; m2; m3; m4] with ([m1; m2; m3] ++ [m4]).
      apply Permutation_app_comm. }
    split; [intros _; destruct order; reflexivity|].
    split; [intros _; destruct order; cbn; eauto|].
    intros H. rewrite H in Hlen. simpl in Hlen. lia.
  - exfalso. lia.
Qed.

(** X4. [mapMoneyTokens] fills the columns with the last four parsed
    tokens and nothing else: the values it stores are exactly those, each
    once. With four or more tokens the columns, read in the order of the
    header, are the last four tokens in line order, whichever of the two
    orders is in force; with two or more tokens the previous balance is
    always present; with none every column is null. *)
Theorem mapMoneyTokens_fills_from_last_four
  (tokens : list jsstring) (order : ColumnOrder) :
  Permutation (filled (mapMoneyTokens tokens order))
              (lastFour (parsedTokens tokens))
  /\ (4 <= List.length (parsedTokens tokens) ->
      columnsInOrder order (mapMoneyTokens tokens order)
      = map Some (lastFour (parsedTokens tokens)))
  /\ (2 <= List.length (parsedTokens tokens) ->
      exists m, c_saldoAnterior (mapMoneyTokens tokens order) = Some m)
  /\ (parsedTokens tokens = [] ->
      mapMoneyTokens tokens order = mkCols None None None None).
Proof. exact (mapMoneyTokens_columns tokens order). Qed.

Lemma mapMoneyTokens_fills_from_last_four_witness :
  columnsInOrder SANT_DEB_CRED_SA (mapMoneyTokens fiveTokens SANT_DEB_CRED_SA)
  = map Some (lastFour (parsedTokens fiveTokens))
  /\ (exists m, c_saldoAnterior (mapMoneyTokens fiveTokens SA_SANT_DEB_CRED)
                = Some m)
  /\ mapMoneyTokens [str "abc"] SA_SANT_DEB_CRED = mkCols None None None None.
Proof.
  split; [|split].
  - apply (mapMoneyTokens_fills_from_last_four fiveTokens SANT_DEB_CRED_SA).
    vm_compute. lia.
  - apply (mapMoneyTokens_fills_from_last_four fiveTokens SA_SANT_DEB_CRED).
    vm_compute. lia.
  - apply (mapMoneyTokens_fills_from_last_four [str "abc"] SA_SANT_DEB_CRED).
    vm_compute. reflexivity.
Defined.

Local Open Scope Z_scope.

(** ** The line loop of the parser *)

Local Open Scope nat_scope.

Lemma detectSectionHeader_not_outros (line : jsstring) (g : Group) :
  detectSectionHeader line = Some g -> g <> OUTROS.
Proof.
  unfold detectSectionHeader.
  repeat match goal with
         | |- context [if ?b then _ else _] => destruct b
         end; intros H; inversion H; discriminate.
Qed.

Lemma Group_eqb_eq (a b : Group) : Group_eqb a b = true <-> a = b.
Proof. destruct a, b; simpl; split; intros H; congruence. Qed.

Lemma step_outcome (st : ParserState) (rawText : jsstring) :
  StepOutcome st (processed rawText) (step st rawText).
Proof.
  unfold step. fold (processed rawText).
  generalize (processed rawText). intros line.
  destruct (detectColumnOrderFromHeader line); [apply step_order|].
  destruct (detectSectionHeader line) as [g|] eqn:Es.
  { apply step_section. eapply detectSectionHeader_not_outros, Es. }
  destruct (isHeaderLine line); [apply step_skip|].
  destruct (List.length (moneyMatches line) <? 2) eqn:E2; [apply step_skip|].
  apply Nat.ltb_ge in E2.
  destruct (extractLeadingCode _) as [code0 rest].
  destruct (extractFirstClassification rest) as [cls descRest].
  destruct (Group_eqb (currentGroup st) OUTROS && truthyStr code0
            && negb (truthyStr cls)
            && (negb (nonEmpty (cleanSpaces descRest))
                || strEqOpt (cleanSpaces descRest) code0)
            && (4 <=? List.length (moneyMatches line))) eqn:Eb.
  - repeat (apply andb_true_iff in Eb as [Eb ?]).
    apply step_buffer; [apply Group_eqb_eq, Eb | apply Nat.leb_le; assumption].
  - apply (step_row st line); [exact E2|].
    intros Hne. destruct (Group_eqb (currentGroup st) OUTROS) eqn:Eg;
      [apply Group_eqb_eq in Eg; contradiction | reflexivity].
Qed.

Lemma parsedTokens_in (toks : list jsstring) (m : MoneyBR) :
  In m (parsedTokens toks) ->
  exists t, In t toks /\ parseMoneyBR t = Some m.
Proof.
  induction toks as [|t toks IH]; [intros []|]. cbn [parsedTokens].
  destruct (parseMoneyBR t) as [m'|] eqn:E.
  - intros [<-|H]; [exists t; split; [left; reflexivity | exact E]|].
    destruct (IH H) as (t' & Ht' & Hp). exists t'. split; [right|]; assumption.
  - intros H. destruct (IH H) as (t' & Ht' & Hp).
    exists t'. split; [right|]; assumption.
Qed.

Lemma parsed_match_raw (line : jsstring) (m : MoneyBR) :
  In m (parsedTokens (moneyMatches line)) ->
  In (raw m) (moneyMatches line) /\ parseMoneyBR (raw m) = Some m.
Proof.
  intros H. destruct (parsedTokens_in _ _ H) as (t & Ht & Hp).
  pose proof (moneyMatches_tokens line) as Hall.
  rewrite Forall_forall in Hall.
  destruct (Hall t Ht) as [_ (m' & Hm' & Hraw & _)].
  assert (m' = m) by congruence. subst m'. rewrite Hraw. auto.
Qed.

Lemma parsed_matches_length (line : jsstring) :
  List.length (parsedTokens (moneyMatches line))
  = List.length (moneyMatches line).
Proof.
  apply parsedTokens_all. eapply Forall_impl; [|apply moneyMatches_tokens].
  intros t [_ (m & Hm & _)]. eauto.
Qed.

(** The columns read from a line with two tokens or more *)
Lemma columns_of_line (line : jsstring) (o : ColumnOrder) :
  2 <= List.length (moneyMatches line) ->
  (exists m, c_saldoAnterior (mapMoneyTokens (moneyMatches line) o) = Some m)
  /\ forall m, In m (filled (mapMoneyTokens (moneyMatches line) o)) ->
               In (raw m) (moneyMatches line)
               /\ parseMoneyBR (raw m) = Some m.
Proof.
  intros H2.
  destruct (mapMoneyTokens_columns (moneyMatches line) o)
    as (Hperm & _ & Hant & _).
  split; [apply Hant; rewrite parsed_matches_length; exact H2|].
  intros m Hm. apply parsed_match_raw, lastFour_in.
  eapply Permutation_in; [exact Hperm | exact Hm].
Qed.

Lemma rowOfLines_more (L : list jsstring) (l : jsstring) (r : ContabilRow) :
  rowOfLines L r -> rowOfLines (L ++ [l]) r.
Proof.
  intros (Hg & Ha & (l0 & Hl0 & Hr) & H2 & Hv).
  repeat split; try assumption; try apply Hv; try assumption.
  exists l0. split; [apply in_or_app; left|]; assumption.
Qed.

Lemma pendingOfLines_more (L : list jsstring) (l : jsstring) p :
  pendingOfLines L p -> pendingOfLines (L ++ [l]) p.
Proof.
  intros ((l0 & Hl0 & Hr) & H4 & Ho). split; [|split; assumption].
  exists l0. split; [apply in_or_app; left|]; assumption.
Qed.

Lemma flushed_row (L : list jsstring) (p : PendingTotal) (r : ContabilRow) :
  pendingOfLines L p ->
  rawLine r = p_line p ->
  (exists g, group r = Some g) ->
  rowValues r = filled (p_cols p) ->
  saldoAnterior r = c_saldoAnterior (p_cols p) ->
  rowOfLines L r.
Proof.
  intros (Hl & H4 & (o & Ho)) Hraw Hg Hvals Hant.
  destruct (columns_of_line (p_line p) o) as [Ha Hv]; [lia|].
  rewrite <- Ho in Ha, Hv.
  split; [exact Hg|]. split; [rewrite Hant; exact Ha|].
  split; [rewrite Hraw; exact Hl|]. split; [rewrite Hraw; lia|].
  intros m Hm. rewrite Hraw. apply Hv. rewrite <- Hvals. exact Hm.
Qed.

Lemma loopInvariant_step (L : list jsstring) (st : ParserState)
  (l : jsstring) :
  loopInvariant L st -> loopInvariant (L ++ [l]) (step st l).
Proof.
  intros (Hrows & Hpend & Hcount).
  assert (Hrows' : Forall (rowOfLines (L ++ [l])) (emitted st)).
  { eapply Forall_impl; [|exact Hrows]. intros r. apply rowOfLines_more. }
  assert (Hlast : In l (L ++ [l])) by (apply in_or_app; right; left; reflexivity).
  pose proof (step_outcome st l) as Hout.
  revert Hout. generalize (step st l). intros st' Hout.
  unfold loopInvariant, pendingCount in *. rewrite length_app.
  cbn [List.length].
  destruct Hout as [o | g Hg | | c Hcg H4 | g c d cls H2 Hgrp];
    cbn [emitted pendingTotalLine currentGroup].
  - split; [exact Hrows'|]. split; [|lia].
    intros p Hp. destruct (Hpend p Hp) as [H1 H3].
    split; [apply pendingOfLines_more, H1 | exact H3].
  - destruct (pendingTotalLine st) as [p|] eqn:Ep.
    + destruct (Hpend p eq_refl) as [Hp _].
      split; [|split; [discriminate | rewrite length_app; simpl; lia]].
      apply Forall_app. split; [exact Hrows'|]. constructor; [|constructor].
      apply (flushed_row _ p); try reflexivity;
        [apply pendingOfLines_more, Hp | cbn; eauto].
    + split; [exact Hrows'|]. split; [discriminate | lia].
  - split; [exact Hrows'|]. split; [|lia].
    intros p Hp. destruct (Hpend p Hp) as [H1 H3].
    split; [apply pendingOfLines_more, H1 | exact H3].
  - split; [exact Hrows'|]. split.
    + intros p Hp. inversion Hp; subst p. split; [|exact Hcg].
      split; [exists l; split; [exact Hlast | reflexivity]|].
      split; [exact H4 | eexists; reflexivity].
    + destruct (pendingTotalLine st); lia.
  - split; [|split].
    + apply Forall_app. split; [exact Hrows'|]. constructor; [|constructor].
      destruct (columns_of_line (processed l) (columnOrder st) H2) as [Ha Hv].
      split; [cbn; eauto|]. split; [exact Ha|].
      split; [exists l; split; [exact Hlast | reflexivity]|].
      split; [exact H2 | exact Hv].
    + intros p Hp. destruct (Hpend p Hp) as [H1 H3].
      split; [apply pendingOfLines_more, H1 | exact H3].
    + rewrite length_app. simpl. destruct (pendingTotalLine st); lia.
Qed.

Lemma loopInvariant_run (ls L : list jsstring) (st : ParserState) :
  loopInvariant L st -> loopInvariant (L ++ ls) (fold_left step ls st).
Proof.
  revert L st. induction ls as [|l ls IH]; intros L st H.
  - rewrite app_nil_r. exact H.
  - cbn [fold_left].
    replace (L ++ l :: ls) with ((L ++ [l]) ++ ls)
      by (rewrite <- app_assoc; reflexivity).
    apply IH, loopInvariant_step, H.
Qed.

Lemma loopInvariant_initial : loopInvariant [] initialState.
Proof.
  split; [constructor|]. split; [discriminate | apply Nat.le_refl].
Qed.

Lemma parse_unfold (text : jsstring) :
  nonEmpty text = true -> nonEmpty (trim text) = true ->
  parseContabilRowsFromText text
  = let st := fold_left step (contentLines text) initialState in
    let rows := match pendingTotalLine st with
                | Some p => emitted st ++ [finalFlushRow p]
                | None => emitted st
                end in
    mkResult rows (if nonEmptyRows rows then [] else [warnNoRows]).
Proof.
  intros H1 H2. unfold parseContabilRowsFromText. rewrite H1, H2. reflexivity.
Qed.

Lemma parsed_rows_invariant (text : jsstring) :
  Forall (rowOfLines (contentLines text))
         (rows (parseContabilRowsFromText text))
  /\ List.length (rows (parseContabilRowsFromText text))
     <= List.length (contentLines text).
Proof.
  destruct (nonEmpty text) eqn:H1.
  2:{ unfold parseContabilRowsFromText. rewrite H1. cbn. split; [constructor|lia]. }
  destruct (nonEmpty (trim text)) eqn:H2.
  2:{ unfold parseContabilRowsFromText. rewrite H1, H2. cbn.
      split; [constructor|lia]. }
  rewrite (parse_unfold text H1 H2). cbv zeta. cbn [rows].
  destruct (loopInvariant_run (contentLines text) [] initialState
              loopInvariant_initial) as (Hrows & Hpend & Hcount).
  cbn [app] in *. unfold pendingCount in Hcount.
  destruct (pendingTotalLine
              (fold_left step (contentLines text) initialState)) as [p|].
  - destruct (Hpend p eq_refl) as [Hp _]. split.
    + apply Forall_app. split; [exact Hrows|]. constructor; [|constructor].
      apply (flushed_row _ p); try reflexivity; [exact Hp | cbn; eauto].
    + rewrite length_app. simpl. lia.
  - split; [exact Hrows | lia].
Qed.



Example cash_row_fields :
  (group cashRow, code cashRow, classification cashRow, description cashRow)
  = (Some ATIVO, Some (str "11"), Some (str "1.1.01"), Some (str "Caixa"))
  /\ map raw (rowValues cashRow) = [str "1.234,56"; str "2,00"].
Proof. vm_compute. split; reflexivity. Qed.

(** X6. The parser returns at most one row per non-empty line of the
    text, and at most one warning. *)
Theorem parsed_rows_bounded_by_lines (text : jsstring) :
  List.length (rows (parseContabilRowsFromText text))
  <= List.length (contentLines text)
  /\ List.length (warnings (parseContabilRowsFromText text)) <= 1.
Proof.
  split; [apply parsed_rows_invariant|].
  unfold parseContabilRowsFromText.
  destruct (negb (nonEmpty text) || negb (nonEmpty (trim text)));
    [simpl; lia|].
  cbn [warnings]. destruct (nonEmptyRows _); simpl; lia.
Qed.

Lemma quiet_lines_emit_nothing (ls : list jsstring) (st : ParserState) :
  Forall (fun l => List.length (moneyMatches (processed l)) < 2) ls ->
  emitted st = [] -> pendingTotalLine st = None ->
  emitted (fold_left step ls st) = []
  /\ pendingTotalLine (fold_left step ls st) = None.
Proof.
  intros Hall. revert st. induction Hall as [|l ls Hl _ IH]; intros st He Hp.
  - split; assumption.
  - cbn [fold_left].
    pose proof (step_outcome st l) as Hout.
    revert Hout. generalize (step st l). intros st' Hout.
    apply IH;
      destruct Hout as [o | g Hg | | c Hcg H4 | g c d cls H2 Hgrp];
      cbn [emitted pendingTotalLine]; try assumption; try lia;
      try reflexivity.
    rewrite Hp. exact He.
Qed.

(** X7. A text that is empty or only white space yields no rows and the
    warning that the text is empty. A text in which no line holds two
    monetary tokens yields no rows, and the warning that no row was
    detected. In general the result has a warning exactly when it has no
    rows. *)
Theorem parser_without_rows :
  (forall text, trim text = [] ->
                parseContabilRowsFromText text = mkResult [] [warnEmptyText])
  /\ (forall text,
         trim text <> [] ->
         Forall (fun l => List.length (moneyMatches (processed l)) < 2)
                (contentLines text) ->
         parseContabilRowsFromText text = mkResult [] [warnNoRows])
  /\ (forall text,
         rows (parseContabilRowsFromText text) = []
         <-> warnings (parseContabilRowsFromText text) <> []).
Proof.
  split; [|split].
  - intros text H. unfold parseContabilRowsFromText. rewrite H.
    cbn [nonEmpty negb]. rewrite orb_true_r. reflexivity.
  - intros text Hne Hall.
    assert (H2 : nonEmpty (trim text) = true)
      by (destruct (trim text); [contradiction | reflexivity]).
    assert (H1 : nonEmpty text = true).
    { destruct text; [|reflexivity]. rewrite trim_nil in Hne. contradiction. }
    rewrite (parse_unfold text H1 H2). cbv zeta.
    destruct (quiet_lines_emit_nothing (contentLines text) initialState Hall
                eq_refl eq_refl) as [-> ->].
    reflexivity.
  - intros text. unfold parseContabilRowsFromText.
    destruct (negb (nonEmpty text) || negb (nonEmpty (trim text))).
    + cbn. split; [discriminate | reflexivity].
    + cbn [rows warnings].
      destruct (match pendingTotalLine _ with
                | Some p => _ ++ [finalFlushRow p]
                | None => _
                end) as [|r rs]; cbn.
      * split; [discriminate | reflexivity].
      * split; [discriminate | intros H; contradiction].
Qed.

Lemma parser_without_rows_witness :
  parseContabilRowsFromText (str "   ") = mkResult [] [warnEmptyText]
  /\ parseContabilRowsFromText (str "Balancete de verificacao 1,00")
     = mkResult [] [warnNoRows].
Proof.
  destruct parser_without_rows as (Hempty & Hquiet & _). split.
  - apply Hempty. vm_compute. reflexivity.
  - apply Hquiet.
    + vm_compute. discriminate.
    + replace (contentLines (str "Balancete de verificacao 1,00"))
        with [str "Balancete de verificacao 1,00"]
        by (vm_compute; reflexivity).
      apply Forall_cons; [|apply Forall_nil].
      vm_compute. apply le_n.
Defined.

Lemma section_is_kept (ls : list jsstring) (st : ParserState) :
  currentGroup st <> OUTROS -> pendingTotalLine st = None ->
  currentGroup (fold_left step ls st) <> OUTROS
  /\ pendingTotalLine (fold_left step ls st) = None
  /\ exists new,
       emitted (fold_left step ls st) = emitted st ++ new
       /\ Forall (fun r => exists g, group r = Some g /\ g <> OUTROS) new.
Proof.
  revert st. induction ls as [|l ls IH]; intros st Hg Hp.
  - split; [exact Hg|]. split; [exact Hp|]. exists [].
    rewrite app_nil_r. split; [reflexivity | constructor].
  - cbn [fold_left].
    pose proof (step_outcome st l) as Hout.
    revert Hout. generalize (step st l). intros st' Hout.
    assert (Hstep : currentGroup st' <> OUTROS
                    /\ pendingTotalLine st' = None
                    /\ exists new,
                         emitted st' = emitted st ++ new
                         /\ Forall (fun r => exists g, group r = Some g
                                                       /\ g <> OUTROS) new).
    { destruct Hout as [o | g Hg' | | c Hcg H4 | g c d cls H2 Hgrp];
        cbn [currentGroup pendingTotalLine emitted].
      - split; [exact Hg|]. split; [exact Hp|]. exists [].
        rewrite app_nil_r. split; [reflexivity | constructor].
      - split; [exact Hg'|]. split; [reflexivity|]. exists [].
        rewrite Hp, app_nil_r. split; [reflexivity | constructor].
      - split; [exact Hg|]. split; [exact Hp|]. exists [].
        rewrite app_nil_r. split; [reflexivity | constructor].
      - contradiction.
      - split; [exact Hg|]. split; [exact Hp|]. eexists.
        split; [reflexivity|]. constructor; [|constructor].
        exists g. split; [reflexivity|]. rewrite (Hgrp Hg). exact Hg. }
    destruct Hstep as (Hg1 & Hp1 & new1 & He1 & Hn1).
    destruct (IH st' Hg1 Hp1) as (Hg2 & Hp2 & new2 & He2 & Hn2).
    split; [exact Hg2|]. split; [exact Hp2|]. exists (new1 ++ new2).
    rewrite He2, He1, app_assoc. split; [reflexivity|].
    apply Forall_app. split; assumption.
Qed.

Lemma pending_only_without_section (ls : list jsstring) :
  forall p, pendingTotalLine (fold_left step ls initialState) = Some p ->
            currentGroup (fold_left step ls initialState) = OUTROS.
Proof.
  intros p Hp.
  destruct (loopInvariant_run ls [] initialState loopInvariant_initial)
    as (_ & Hpend & _).
  apply (Hpend p Hp).
Qed.

(** X8. A line is held back as the pending total line only while no
    section header has been seen. From the first section header on the
    current group is never OUTROS again, no line is held back, and every
    row emitted has the group of a section header, whatever its
    classification says. *)
Theorem section_header_is_sticky (before after : list jsstring) :
  let st := fold_left step before initialState in
  let st' := fold_left step after st in
  (forall p, pendingTotalLine st = Some p -> currentGroup st = OUTROS)
  /\ (currentGroup st <> OUTROS ->
      currentGroup st' <> OUTROS
      /\ pendingTotalLine st' = None
      /\ exists new,
           emitted st' = emitted st ++ new
           /\ Forall (fun r => exists g, group r = Some g /\ g <> OUTROS)
                     new).
Proof.
  intros st st'. split.
  - apply (pending_only_without_section before).
  - intros Hg. apply section_is_kept; [exact Hg|].
    destruct (pendingTotalLine st) as [p|] eqn:Ep; [|reflexivity].
    exfalso. apply Hg. apply (pending_only_without_section before p Ep).
Qed.

Lemma section_header_is_sticky_witness :
  let st := fold_left step [str "PASSIVO"] initialState in
  let st' := fold_left step (tl headerThenRows) st in
  currentGroup st' <> OUTROS /\ pendingTotalLine st' = None.
Proof.
  destruct (section_header_is_sticky [str "PASSIVO"] (tl headerThenRows))
    as [_ H].
  destruct H as (Hg & Hp & _).
  - vm_compute. discriminate.
  - exact (conj Hg Hp).
Defined.

Example rows_under_a_section_header :
  map group (emitted (fold_left step headerThenRows initialState))
  = [Some PASSIVO; Some PASSIVO].
Proof. vm_compute. reflexivity. Qed.

Local Open Scope Z_scope.

(** ** Code and classification glued together *)

Local Open Scope nat_scope.

(** What follows a prefix of a trimmed string is trimmed as soon as it
    starts with a character that is not white space. *)
Lemma trimmed_suffix (x : jsstring) (c : ascii) (y : jsstring) :
  trimmed (x ++ c :: y) -> isWs c = false -> trimmed (c :: y).
Proof.
  intros [_ Hend] Hc. split; [apply dropWhile_fixed, Hc|].
  rewrite rev_app_distr in Hend.
  destruct (rev (c :: y)) as [|z w] eqn:E.
  - reflexivity.
  - apply dropWhile_fixed. cbn [app] in Hend.
    eapply dropWhile_head, Hend.
Qed.

Lemma cleanSpaces_trimmed (s : jsstring) : trimmed (cleanSpaces s).
Proof. rewrite cleanSpaces_unfold. apply trim_is_trimmed. Qed.

(** X9. When [splitFusedCodeClassification] finds a code glued to a
    classification, the cleaned text is the code, a dot and the rest; the
    code is one to six digits and the rest starts with the root digit 1, 2
    or 3 and a dot. The line [code rest] that the parser rebuilds from the
    two is read back by [extractLeadingCode] as exactly that code and that
    rest. *)
Theorem fused_code_splits_and_reads_back (s c rest : jsstring) :
  splitFusedCodeClassification s = (Some c, rest) ->
  cleanSpaces s = c ++ "."%char :: rest
  /\ forallb isDigit c = true
  /\ 1 <= List.length c <= 6
  /\ (exists root t, rest = root :: "."%char :: t /\ is123 root = true)
  /\ extractLeadingCode (c ++ " "%char :: rest) = (Some c, rest).
Proof.
  unfold splitFusedCodeClassification.
  pose proof (cleanSpaces_trimmed s) as Htrim.
  pose proof (takeWhile_dropWhile isDigit (cleanSpaces s)) as Hsplit.
  pose proof (takeWhile_forallb isDigit (cleanSpaces s)) as Hds.
  revert Htrim Hsplit Hds. generalize (cleanSpaces s). intros txt.
  generalize (takeWhile isDigit txt) (dropWhile isDigit txt).
  intros ds r Htrim Hsplit Hds.
  destruct (lenBetween 1 6 ds) eqn:Elen; [|discriminate].
  destruct r as [|d [|c0 [|d2 [|a tail]]]]; try discriminate.
  destruct (isDot d && is123 c0 && isDot d2 && isDigit a
            && noLineTerminator (c0 :: d2 :: a :: tail)) eqn:Econd;
    [|discriminate].
  repeat (apply andb_true_iff in Econd as [Econd ?]).
  rename H into Hnl, H0 into Ha, H1 into Hd2, H2 into Hc0.
  unfold isDot in Econd, Hd2.
  apply ascii_eqb_eq in Econd, Hd2. subst d d2.
  set (m3 := c0 :: "."%char :: a :: tail) in *.
  assert (Hm3 : trim m3 = m3).
  { apply trim_of_trimmed.
    apply (trimmed_suffix (ds ++ ["."%char]) c0 ("."%char :: a :: tail)).
    - rewrite <- app_assoc. cbn [app]. fold m3. rewrite Hsplit. exact Htrim.
    - apply root_not_ws, Hc0. }
  rewrite Hm3. cbn [nonEmpty m3]. fold m3.
  intros H. inversion H; subst c rest; clear H.
  unfold lenBetween in Elen. apply andb_true_iff in Elen as [Hlo Hhi].
  apply Nat.leb_le in Hlo, Hhi.
  split; [symmetry; exact Hsplit|]. split; [exact Hds|].
  split; [lia|]. split; [exists c0, (a :: tail); split; [reflexivity | exact Hc0]|].
  (* reading the rebuilt line back *)
  unfold extractLeadingCode.
  assert (Hstart : dropWhile isWs (ds ++ " "%char :: m3) = ds ++ " "%char :: m3).
  { destruct ds as [|x ds']; [simpl in Hlo; lia|].
    cbn [forallb] in Hds. apply andb_true_iff in Hds as [Hx _].
    apply dropWhile_fixed, digit_not_ws, Hx. }
  rewrite Hstart.
  destruct (takeWhile_all isDigit ds (" "%char :: m3) Hds eq_refl)
    as [-> ->].
  unfold lenBetween. rewrite (proj2 (Nat.leb_le _ _) Hlo),
    (proj2 (Nat.leb_le _ _) Hhi). cbn [andb].
  replace (isWs " ") with true by reflexivity.
  assert (Hdrop : dropWhile isWs (" "%char :: m3) = m3).
  { cbn [dropWhile]. replace (isWs " ") with true by reflexivity.
    apply dropWhile_fixed, root_not_ws, Hc0. }
  rewrite Hdrop, Hnl, Hm3. reflexivity.
Qed.

Lemma fused_code_splits_and_reads_back_witness :
  extractLeadingCode (str "371 1.3.02 Caixa")
  = (Some (str "371"), str "1.3.02 Caixa").
Proof.
  apply (fused_code_splits_and_reads_back (str " 371.1.3.02  Caixa")
           (str "371") (str "1.3.02 Caixa")).
  vm_compute. reflexivity.
Defined.

Local Open Scope Z_scope.

(** ** The group read from a classification *)

Local Open Scope nat_scope.

Lemma str_eqb_startsWith (p q s : jsstring) :
  str_eqb s (p ++ q) = true -> startsWith p s = true.
Proof.
  intros H. apply str_eqb_eq in H. subst s.
  induction p as [|c p IH]; [reflexivity|]. cbn [app startsWith].
  rewrite IH. replace (ascii_eqb c c) with true
    by (symmetry; apply ascii_eqb_eq; reflexivity).
  reflexivity.
Qed.

Lemma analyze_group_same (x : option jsstring) :
  AnalyzeEngine.groupFromClassification x
  = NormalizeBase.groupFromClassification x.
Proof.
  unfold AnalyzeEngine.groupFromClassification,
    NormalizeBase.groupFromClassification.
  rewrite analyze_copy_same.
  generalize (NormalizeBase.normalizeClassification x). intros cls.
  assert (H : forall d : string,
             str_eqb cls (str d) || str_eqb cls (str d ++ str ".0")
             || startsWith (str d ++ str ".") cls
             = str_eqb cls (str d) || startsWith (str d ++ str ".") cls).
  { intros d. destruct (str_eqb cls (str d)); [reflexivity|]. cbn [orb].
    destruct (str_eqb cls (str d ++ str ".0")) eqn:E; [|reflexivity].
    cbn [orb]. symmetry.
    apply (str_eqb_startsWith (str d ++ str ".") (str "0")).
    rewrite <- app_assoc. exact E. }
  rewrite !H. reflexivity.
Qed.

(** The normalization leaves a plan root, a root digit alone or in front
    of a dot, as it is. *)
Lemma normalize_plan_root (c0 : jsstring) :
  isPlanRoot (trim c0) = true ->
  NormalizeBase.normalizeClassification (Some c0) = trim c0.
Proof.
  unfold NormalizeBase.normalizeClassification. cbn [strOr].
  generalize (trim c0). intros cls Hroot.
  destruct cls as [|r t]; [discriminate|]. cbn [nonEmpty negb].
  destruct (isDotted (r :: t)); [reflexivity|].
  cbn [isPlanRoot] in Hroot. apply andb_true_iff in Hroot as [Hr Ht].
  destruct t as [|d t]; [reflexivity|]. unfold isDot in Ht.
  apply ascii_eqb_eq in Ht. subst d.
  assert (Hfd : matchFusedDecimal (r :: "."%char :: t) = None).
  { destruct t as [|a [|b t]]; try reflexivity. cbn [matchFusedDecimal].
    replace (isDigit ".") with false by reflexivity.
    rewrite andb_false_r. reflexivity. }
  assert (Hff : matchFusedFour (r :: "."%char :: t) = None).
  { destruct t as [|a [|b [|c t]]]; try reflexivity. cbn [matchFusedFour].
    replace (isDigit ".") with false by reflexivity.
    rewrite andb_false_r. reflexivity. }
  rewrite Hfd, Hff. reflexivity.
Qed.

Lemma infer_group_same (c : option jsstring) (g : Group) :
  inferGroupByClassification c = Some g ->
  NormalizeBase.groupFromClassification c = g.
Proof.
  unfold inferGroupByClassification. destruct c as [c0|]; [|discriminate].
  destruct (negb (nonEmpty c0)); [discriminate|].
  destruct (isPlanRoot (trim c0)) eqn:Hroot; [|discriminate]. cbn [negb].
  unfold NormalizeBase.groupFromClassification.
  rewrite (normalize_plan_root c0 Hroot).
  destruct (trim c0) as [|r t]; [discriminate|].
  cbn [isPlanRoot] in Hroot. apply andb_true_iff in Hroot as [_ Ht].
  assert (Hshape : t = [] \/ exists t', t = "."%char :: t').
  { destruct t as [|d t']; [left; reflexivity|]. right. exists t'.
    unfold isDot in Ht. apply ascii_eqb_eq in Ht. subst d. reflexivity. }
  destruct (ascii_eqb r "1") eqn:E1.
  { apply ascii_eqb_eq in E1. subst r. intros H; inversion H.
    destruct Hshape as [->|(t' & ->)]; reflexivity. }
  destruct (ascii_eqb r "2") eqn:E2.
  { apply ascii_eqb_eq in E2. subst r. intros H; inversion H.
    destruct Hshape as [->|(t' & ->)]; reflexivity. }
  destruct (ascii_eqb r "3") eqn:E3; [|discriminate].
  apply ascii_eqb_eq in E3. subst r. intros H; inversion H.
  destruct Hshape as [->|(t' & ->)]; reflexivity.
Qed.

(** X10. The three places that read a group off a classification agree:
    the copy of [groupFromClassification] in the analysis engine returns
    the same group as the one in normalizeBase.ts for every input, and
    whenever the parser's [inferGroupByClassification] infers a group, it
    is that group too. The parser infers less: a fused classification
    such as 1234 is ATIVO after normalization, and nothing for the
    parser. *)
Theorem group_inference_consistent :
  (forall x, AnalyzeEngine.groupFromClassification x
             = NormalizeBase.groupFromClassification x)
  /\ (forall c g, inferGroupByClassification c = Some g ->
                  NormalizeBase.groupFromClassification c = g)
  /\ inferGroupByClassification (Some (str "1234")) = None
  /\ NormalizeBase.groupFromClassification (Some (str "1234")) = ATIVO.
Proof.
  split; [exact analyze_group_same|]. split; [exact infer_group_same|].
  split; reflexivity.
Qed.

Lemma group_inference_consistent_witness :
  NormalizeBase.groupFromClassification (Some (str " 2.1.01 ")) = PASSIVO.
Proof.
  destruct group_inference_consistent as (_ & H & _).
  apply H. vm_compute. reflexivity.
Defined.

Local Open Scope Z_scope.

(** ** [normalizeBase] as a function of the source rows *)

Local Open Scope nat_scope.

Lemma regroup_exact (out : list Ref) :
  forall h : Store,
    NoDup out ->
    (forall r, In r out -> exists n, nth_error h r = Some (NormRow n)) ->
    exists h',
      regroup h out = Some h'
      /\ (forall a, ~ In a out -> nth_error h' a = nth_error h a)
      /\ (forall r n, In r out -> nth_error h r = Some (NormRow n) ->
                      nth_error h' r = Some (NormRow (regrouped n))).
Proof.
  induction out as [|rr out IH]; intros h Hnd Hv.
  - exists h. split; [reflexivity|]. split; [reflexivity|]. intros r n [].
  - inversion Hnd as [|? ? Hnotin Hnd']; subst.
    destruct (Hv rr (or_introl eq_refl)) as [n Hn].
    assert (Hlt : rr < List.length h)
      by (apply nth_error_Some; congruence).
    set (h1 := match groupFromDescription n with
               | Some g => assign h rr (NormRow (setGroup g n))
               | None => h
               end).
    assert (Hrr : nth_error h1 rr = Some (NormRow (regrouped n))).
    { unfold h1, regrouped. destruct (groupFromDescription n);
        [apply assign_same, Hlt | exact Hn]. }
    assert (Hother : forall a, a <> rr -> nth_error h1 a = nth_error h a).
    { intros a Ha. unfold h1. destruct (groupFromDescription n);
        [apply assign_other; congruence | reflexivity]. }
    assert (Hv1 : forall r, In r out ->
                            exists m, nth_error h1 r = Some (NormRow m)).
    { intros r Hr. rewrite Hother by (intros ->; contradiction).
      apply Hv. right. exact Hr. }
    destruct (IH h1 Hnd' Hv1) as (h' & Hre & Hout & Hin).
    exists h'. split; [|split].
    + cbn [regroup]. rewrite Hn. unfold h1 in Hre.
      destruct (groupFromDescription n); exact Hre.
    + intros a Ha. rewrite Hout by (intros H; apply Ha; right; exact H).
      apply Hother. intros ->. apply Ha. left. reflexivity.
    + intros r m [<-|Hr] Hm.
      * rewrite Hout by exact Hnotin. rewrite Hrr. congruence.
      * apply Hin; [exact Hr|].
        rewrite Hother by (intros ->; contradiction). exact Hm.
Qed.

Lemma normalizeBase_rows (h : Store) (rows : list Ref) (ctx : Ctx) :
  refs_to_sources h rows ->
  exists (h' : Store) (out : list Ref),
    normalizeBase h rows ctx = Some (h', out)
    /\ forall i r src,
         nth_error rows i = Some r ->
         nth_error h r = Some (SrcRow src) ->
         nth_error out i = Some (List.length h + i)
         /\ nth_error h' (List.length h + i)
            = Some (NormRow (normalizedRow ctx src)).
Proof.
  intros Hv.
  destruct (pushRows_spec ctx rows h [] Hv) as (srcs & HF & Hpush).
  simpl in Hpush.
  set (h1 := h ++ map (fun s => NormRow (buildRow ctx s)) srcs) in *.
  set (out := seq (List.length h) (List.length rows)) in *.
  pose proof (Forall2_length HF) as Hlen. unfold Ref in *.
  assert (Hnew : forall i src, nth_error srcs i = Some src ->
                   nth_error h1 (List.length h + i)
                   = Some (NormRow (buildRow ctx src))).
  { intros i src Hi. unfold h1.
    rewrite nth_error_app2 by lia.
    replace (List.length h + i - List.length h) with i by lia.
    rewrite nth_error_map, Hi. reflexivity. }
  assert (Hv1 : forall r, In r out ->
                          exists n, nth_error h1 r = Some (NormRow n)).
  { intros r Hr. unfold out in Hr. apply in_seq in Hr.
    destruct (nth_error srcs (r - List.length h)) as [src|] eqn:E.
    - exists (buildRow ctx src).
      replace r with (List.length h + (r - List.length h)) by lia.
      apply Hnew, E.
    - apply nth_error_None in E. exfalso. lia. }
  destruct (regroup_exact out h1 (seq_NoDup _ _) Hv1) as (h' & Hre & _ & Hin).
  exists h', out. split.
  { unfold normalizeBase.
    replace (pushRows ctx h rows []) with (Some (h1, out))
      by (symmetry; exact Hpush).
    replace (regroup h1 out) with (Some h') by (symmetry; exact Hre).
    reflexivity. }
  intros i r src Hi Hr.
  assert (Hilt : i < List.length rows)
    by (apply nth_error_Some; congruence).
  assert (Hs : nth_error srcs i = Some src).
  { clear - HF Hi Hr. revert i Hi. induction HF as [|a s l l' Ha HF IHF];
      intros [|i] Hi; simpl in *; try discriminate.
    - inversion Hi; subst. congruence.
    - apply IHF, Hi. }
  split.
  { unfold out. rewrite nth_error_seq.
    destruct (Nat.ltb_spec i (List.length rows)); [reflexivity | lia]. }
  apply Hin; [unfold out; apply in_seq; lia | apply Hnew, Hs].
Qed.

Lemma normalizedRow_group (ctx : Ctx) (src : ContabilRow) :
  (exists g, n_group (normalizedRow ctx src) = Some g)
  /\ (forall g, group src = Some g -> isSection g = true ->
                normalizedRow ctx src = buildRow ctx src
                /\ n_group (normalizedRow ctx src) = Some g).
Proof.
  unfold normalizedRow, regrouped. split.
  - destruct (groupFromDescription (buildRow ctx src));
      cbn; eauto.
  - intros g Hg Hs.
    assert (H : groupFromDescription (buildRow ctx src) = None).
    { unfold groupFromDescription. cbn [n_group buildRow]. rewrite Hg.
      destruct g; try reflexivity. discriminate. }
    rewrite H. split; [reflexivity|]. cbn [n_group buildRow].
    rewrite Hg. reflexivity.
Qed.

(** X11. [normalizeBase], with its two loops and the assignment to the
    rows it has pushed, computes a function of each source row: the i-th
    row of the result is the record built from the i-th source row with
    the description fall-back applied to its group, also when the same
    source row is listed twice. Every row of the result has a group; and a
    source row whose group is ATIVO, PASSIVO or DRE keeps it, and is the
    record of the first loop unchanged. *)
Theorem normalizeBase_maps_rows (h : Store) (rows : list Ref) (ctx : Ctx) :
  refs_to_sources h rows ->
  exists (h' : Store) (out : list Ref),
    normalizeBase h rows ctx = Some (h', out)
    /\ forall i r src,
         nth_error rows i = Some r ->
         nth_error h r = Some (SrcRow src) ->
         nth_error out i = Some (List.length h + i)
         /\ nth_error h' (List.length h + i)
            = Some (NormRow (normalizedRow ctx src))
         /\ (exists g, n_group (normalizedRow ctx src) = Some g)
         /\ (forall g, group src = Some g -> isSection g = true ->
                       normalizedRow ctx src = buildRow ctx src
                       /\ n_group (normalizedRow ctx src) = Some g).
Proof.
  intros Hv. destruct (normalizeBase_rows h rows ctx Hv) as (h' & out & E & H).
  exists h', out. split; [exact E|]. intros i r src Hi Hr.
  destruct (H i r src Hi Hr) as [H1 H2].
  destruct (normalizedRow_group ctx src) as [H3 H4].
  split; [exact H1|]. split; [exact H2|]. split; [exact H3 | exact H4].
Qed.

Lemma normalizeBase_maps_rows_witness :
  exists h' out,
    normalizeBase [SrcRow totalSource] [0; 0] (mkCtx (str "2024") None)
    = Some (h', out)
    /\ nth_error out 1 = Some 2
    /\ option_map (fun o => match o with
                            | NormRow n => n_group n
                            | SrcRow _ => None
                            end) (nth_error h' 2)
       = Some (Some ATIVO).
Proof.
  destruct (normalizeBase_maps_rows [SrcRow totalSource] [0; 0]
              (mkCtx (str "2024") None))
    as (h' & out & E & H).
  - repeat constructor; exists totalSource; reflexivity.
  - exists h', out. split; [exact E|].
    destruct (H 1 0 totalSource eq_refl eq_refl) as (H1 & H1' & _).
    split; [exact H1|].
    cbn [List.length Nat.add] in H1'. rewrite H1'. vm_compute. reflexivity.
Defined.

Local Open Scope Z_scope.

(** * Further properties of the KPI engine *)

(** ** Rounding to cents *)

Local Open Scope Q_scope.

Lemma brRound_cents (x : Q) : brRound x == inject_Z (centsOf x) / 100.
Proof. unfold brRound. apply Qred_correct. Qed.

Lemma brRound_times_100 (x : Q) : brRound x * 100 == inject_Z (centsOf x).
Proof. rewrite brRound_cents. field. Qed.

Lemma brRound_proper (x y : Q) : x == y -> brRound x = brRound y.
Proof.
  intros H. unfold brRound. apply Qred_complete.
  rewrite H. reflexivity.
Qed.


Lemma brRound_monotone (x y : Q) : x <= y -> brRound x <= brRound y.
Proof.
  intros H.
  assert (Hz : (centsOf x <= centsOf y)%Z).
  { apply Qfloor_resp_le. lra. }
  pose proof (brRound_times_100 x) as Hx.
  pose proof (brRound_times_100 y) as Hy.
  assert (Hq : inject_Z (centsOf x) <= inject_Z (centsOf y)).
  { rewrite <- Zle_Qle. exact Hz. }
  lra.
Qed.

Lemma centsOf_of_cents (z : Z) : centsOf (inject_Z z / 100) = z.
Proof.
  unfold centsOf.
  pose proof (Qfloor_le (inject_Z z / 100 * 100 + (1 # 2))) as Hle.
  pose proof (Qlt_floor (inject_Z z / 100 * 100 + (1 # 2))) as Hlt.
  set (f := Qfloor (inject_Z z / 100 * 100 + (1 # 2))) in *.
  assert (E : inject_Z z / 100 * 100 == inject_Z z) by field.
  rewrite E in Hle, Hlt. rewrite inject_Z_plus in Hlt.
  change (inject_Z 1) with 1 in Hlt.
  assert (H1 : inject_Z f < inject_Z (z + 1)).
  { rewrite inject_Z_plus. change (inject_Z 1) with 1. lra. }
  assert (H2 : inject_Z z < inject_Z (f + 1)).
  { rewrite inject_Z_plus. change (inject_Z 1) with 1. lra. }
  rewrite <- Zlt_Qlt in H1, H2. lia.
Qed.


Lemma brRound_nonneg (x : Q) : 0 <= x -> 0 <= brRound x.
Proof.
  intros H. apply brRound_monotone in H.
  replace (brRound 0) with 0 in H by reflexivity. exact H.
Qed.




Local Open Scope Z_scope.

(** ** Maps filled by a loop *)

Local Open Scope nat_scope.

Lemma mapGet_mapSet_other {V : Type} (k k' : jsstring) (v : V)
  (m : list (jsstring * V)) :
  str_eqb k' k = false -> mapGet k' (mapSet k v m) = mapGet k' m.
Proof.
  intros Hne. induction m as [|[k0 v0] m IH]; simpl.
  - rewrite Hne. reflexivity.
  - destruct (str_eqb k k0) eqn:E; simpl.
    + apply str_eqb_eq in E. subst k0. rewrite Hne. reflexivity.
    + rewrite IH. reflexivity.
Qed.

Lemma mapGet_in {V : Type} (k : jsstring) (v : V) (m : list (jsstring * V)) :
  NoDup (map fst m) -> (In (k, v) m <-> mapGet k m = Some v).
Proof.
  induction m as [|[k0 v0] m IH]; simpl; intros Hnd.
  - split; [intros [] | discriminate].
  - inversion Hnd as [|? ? Hnotin Hnd']; subst.
    destruct (str_eqb k k0) eqn:E.
    + apply str_eqb_eq in E. subst k0. split.
      * intros [H|H]; [congruence|].
        exfalso. apply Hnotin. apply (in_map fst) in H. exact H.
      * intros H. left. congruence.
    + rewrite <- (IH Hnd'). split; [|auto].
      intros [H|H]; [|exact H]. inversion H; subst.
      rewrite str_eqb_refl in E. discriminate.
Qed.

Section AggregateFacts.
Context {R V : Type}.
Variable keyOf : R -> option jsstring.
Variable upd : V -> R -> V.
Variable init : V.

Lemma aggOf_snoc (k : jsstring) (l : list R) (r : R) :
  aggOf keyOf upd init k (l ++ [r])
  = if hasKey keyOf k r
    then Some (upd (match aggOf keyOf upd init k l with
                    | Some v => v
                    | None => init
                    end) r)
    else aggOf keyOf upd init k l.
Proof.
  unfold aggOf. rewrite filter_app. cbn [filter].
  destruct (hasKey keyOf k r); [|rewrite app_nil_r; reflexivity].
  destruct (filter (hasKey keyOf k) l) as [|x xs]; [reflexivity|].
  cbn [app]. change (x :: xs ++ [r]) with ((x :: xs) ++ [r]).
  rewrite fold_left_app. reflexivity.
Qed.

Lemma aggregate_from (rest done : list R) (m : list (jsstring * V)) :
  (forall k, mapGet k m = aggOf keyOf upd init k done) ->
  forall k, mapGet k (fold_left (aggStep keyOf upd init) rest m)
            = aggOf keyOf upd init k (done ++ rest).
Proof.
  revert done m. induction rest as [|r rest IH]; intros done m Hm k.
  - rewrite app_nil_r. apply Hm.
  - cbn [fold_left].
    replace (done ++ r :: rest) with ((done ++ [r]) ++ rest)
      by (rewrite <- app_assoc; reflexivity).
    apply IH. clear k. intros k. rewrite aggOf_snoc.
    unfold aggStep, hasKey. destruct (keyOf r) as [k0|]; [|apply Hm].
    destruct (str_eqb k k0) eqn:E.
    + apply str_eqb_eq in E. subst k0.
      rewrite mapGet_mapSet_same, Hm. reflexivity.
    + rewrite mapGet_mapSet_other by exact E. apply Hm.
Qed.

Lemma aggregate_lookup (rows : list R) (k : jsstring) :
  mapGet k (fold_left (aggStep keyOf upd init) rows [])
  = aggOf keyOf upd init k rows.
Proof. apply (aggregate_from rows [] []). intros k'. reflexivity. Qed.

Lemma aggregate_nodup (rows : list R) (m : list (jsstring * V)) :
  NoDup (map fst m) ->
  NoDup (map fst (fold_left (aggStep keyOf upd init) rows m)).
Proof.
  revert m. induction rows as [|r rows IH]; intros m Hm; [exact Hm|].
  cbn [fold_left]. apply IH. unfold aggStep.
  destruct (keyOf r); [apply mapSet_nodup, Hm | exact Hm].
Qed.

(** The entries of the map are the keys that some row has, each with the
    fold of the update over its rows. *)
Lemma aggregate_entries (rows : list R) (k : jsstring) (v : V) :
  In (k, v) (fold_left (aggStep keyOf upd init) rows [])
  <-> filter (hasKey keyOf k) rows <> []
      /\ v = fold_left upd (filter (hasKey keyOf k) rows) init.
Proof.
  rewrite (mapGet_in k v _ (aggregate_nodup rows [] (NoDup_nil _))).
  rewrite aggregate_lookup. unfold aggOf.
  destruct (filter (hasKey keyOf k) rows) as [|x xs].
  - split; [discriminate | intros [H _]; contradiction].
  - split.
    + intros H. inversion H. split; [discriminate | reflexivity].
    + intros [_ ->]. reflexivity.
Qed.

End AggregateFacts.

(** ** The rows of a period *)

Lemma fold_left_pointwise {A B : Type} (f g : A -> B -> A) (l : list B) (a : A) :
  (forall x y, f x y = g x y) -> fold_left f l a = fold_left g l a.
Proof.
  intros H. revert a. induction l as [|y l IH]; intros a; [reflexivity|].
  cbn [fold_left]. rewrite H. apply IH.
Qed.

Lemma groupByPeriod_aggregate keep base :
  groupByPeriod keep base
  = fold_left (aggStep (periodKey keep) pushRow []) base [].
Proof.
  unfold groupByPeriod. apply fold_left_pointwise. intros m r.
  unfold aggStep, periodKey, pushRow.
  destruct (negb (nonEmpty (period r)) || negb (keep r)); reflexivity.
Qed.

Lemma pushRow_fold (l acc : list NormalizedBaseRow) :
  fold_left pushRow l acc = acc ++ l.
Proof.
  revert acc. induction l as [|r l IH]; intros acc;
    [rewrite app_nil_r; reflexivity|].
  cbn [fold_left]. rewrite IH. unfold pushRow. rewrite <- app_assoc.
  reflexivity.
Qed.

Lemma periodKey_rows keep p base :
  filter (hasKey (periodKey keep) p) base = rowsOfPeriod keep p base.
Proof.
  unfold rowsOfPeriod. apply filter_ext. intros r.
  unfold hasKey, periodKey.
  destruct (nonEmpty (period r)), (keep r); cbn; reflexivity.
Qed.

Lemma groupByPeriod_entries keep base p rows :
  In (p, rows) (groupByPeriod keep base)
  <-> rows <> [] /\ rows = rowsOfPeriod keep p base.
Proof.
  rewrite groupByPeriod_aggregate, aggregate_entries, periodKey_rows,
    pushRow_fold. cbn [app].
  split; intros [H1 H2]; split; congruence.
Qed.

(** X13. The loop that groups the rows by period, in the DRE figures and
    in the totals of the balance sheet alike, files under each period
    exactly the rows of that period that are kept, in the order of the
    base; a row without a period is in no group; no period occurs twice
    and no group is empty. *)
Theorem groupByPeriod_partitions (keep : NormalizedBaseRow -> bool)
  (base : list NormalizedBaseRow) :
  NoDup (map fst (groupByPeriod keep base))
  /\ (forall p rows,
         In (p, rows) (groupByPeriod keep base)
         <-> rows <> [] /\ rows = rowsOfPeriod keep p base)
  /\ (forall p, mapGet p (groupByPeriod keep base)
                = match rowsOfPeriod keep p base with
                  | [] => None
                  | rows => Some rows
                  end)
  /\ rowsOfPeriod keep [] base = [].
Proof.
  split; [apply groupByPeriod_nodup|].
  split; [apply groupByPeriod_entries|]. split.
  - intros p. rewrite groupByPeriod_aggregate, aggregate_lookup.
    unfold aggOf. rewrite periodKey_rows.
    destruct (rowsOfPeriod keep p base) as [|x xs]; [reflexivity|].
    rewrite pushRow_fold. reflexivity.
  - unfold rowsOfPeriod. induction base as [|r base IH]; [reflexivity|].
    cbn [filter]. destruct (period r); cbn; [exact IH|].
    rewrite andb_false_r. exact IH.
Qed.

Local Open Scope Z_scope.

(** ** Buckets of the plan of accounts *)

Local Open Scope nat_scope.

Lemma computeBuckets_unfold (rows : list NormalizedBaseRow) :
  computeBuckets rows
  = stableSort largerFirst
      (map toBucket (fold_left (aggStep bucketOf addToBucket (0%Q, 0)) rows [])).
Proof.
  reflexivity.
Qed.

Lemma addToBucket_fold (l : list NormalizedBaseRow) (t : Q) (n : nat) :
  fold_left addToBucket l (t, n)
  = (fold_left (fun t r => (t + KpiEngine.balanceOrMovement r)%Q) l t,
     n + List.length l).
Proof.
  revert t n. induction l as [|r l IH]; intros t n.
  - cbn. f_equal. lia.
  - cbn [fold_left List.length]. unfold addToBucket at 2. cbn [fst snd].
    rewrite IH. f_equal. lia.
Qed.

Lemma largerFirst_total (a b : KpiEngine.Bucket) :
  largerFirst a b = true \/ largerFirst b a = true.
Proof.
  unfold largerFirst. rewrite !Qleb_true.
  destruct (Qlt_le_dec (Qabs (KpiEngine.total a)) (Qabs (KpiEngine.total b)));
    [right | left]; lra.
Qed.

Lemma largerFirst_trans (a b c : KpiEngine.Bucket) :
  largerFirst a b = true -> largerFirst b c = true -> largerFirst a c = true.
Proof. unfold largerFirst. rewrite !Qleb_true. lra. Qed.

Lemma bucket_entries (rows : list NormalizedBaseRow) (b : KpiEngine.Bucket) :
  In b (computeBuckets rows)
  <-> rowsOfBucket (KpiEngine.key b) rows <> []
      /\ KpiEngine.total b
         = brRound (sumBalances (rowsOfBucket (KpiEngine.key b) rows))
      /\ KpiEngine.lines b
         = List.length (rowsOfBucket (KpiEngine.key b) rows).
Proof.
  rewrite computeBuckets_unfold.
  set (m := fold_left (aggStep bucketOf addToBucket (0%Q, 0)) rows []).
  assert (Hentry : forall k t n,
             In (k, (t, n)) m
             <-> rowsOfBucket k rows <> []
                 /\ t = sumBalances (rowsOfBucket k rows)
                 /\ n = List.length (rowsOfBucket k rows)).
  { intros k t n. unfold m. rewrite aggregate_entries.
    fold (rowsOfBucket k rows). rewrite addToBucket_fold. cbn [Nat.add].
    fold (sumBalances (rowsOfBucket k rows)).
    split.
    - intros [H1 H2]. inversion H2. auto.
    - intros (H1 & -> & ->). auto. }
  split.
  - intros Hin.
    apply (Permutation_in _ (stableSort_perm largerFirst _)) in Hin.
    apply in_map_iff in Hin as ([k [t n]] & <- & Hin).
    apply Hentry in Hin as (H1 & -> & ->). cbn. auto.
  - intros (H1 & H2 & H3).
    apply (Permutation_in _ (Permutation_sym (stableSort_perm largerFirst _))).
    apply in_map_iff.
    exists (KpiEngine.key b,
            (sumBalances (rowsOfBucket (KpiEngine.key b) rows),
             List.length (rowsOfBucket (KpiEngine.key b) rows))).
    split.
    + destruct b as [k t n]. cbn in *. subst t n. reflexivity.
    + apply Hentry. auto.
Qed.

Lemma bucket_keys_nodup (rows : list NormalizedBaseRow) :
  NoDup (map KpiEngine.key (computeBuckets rows)).
Proof.
  rewrite computeBuckets_unfold.
  eapply Permutation_NoDup.
  - apply Permutation_map, Permutation_sym, stableSort_perm.
  - rewrite map_map.
    replace (map (fun x => KpiEngine.key (toBucket x))
                 (fold_left (aggStep bucketOf addToBucket (0%Q, 0)) rows []))
      with (map fst (fold_left (aggStep bucketOf addToBucket (0%Q, 0)) rows [])).
    + apply aggregate_nodup. constructor.
    + apply map_ext. intros [k [t n]]. reflexivity.
Qed.

(** X14. [computeBuckets] returns one bucket for every bucket key that
    some row has, and no other: its [lines] is the number of rows with
    that key, and its [total] the rounded sum, in row order, of what each
    of those rows contributes. No key occurs twice, and the buckets come
    ordered by the magnitude of their total, the largest first. *)
Theorem computeBuckets_totals (rows : list NormalizedBaseRow) :
  StronglySorted
    (fun a b => (Qabs (KpiEngine.total b) <= Qabs (KpiEngine.total a))%Q)
    (computeBuckets rows)
  /\ NoDup (map KpiEngine.key (computeBuckets rows))
  /\ forall b,
       In b (computeBuckets rows)
       <-> rowsOfBucket (KpiEngine.key b) rows <> []
           /\ KpiEngine.total b
              = brRound (sumBalances (rowsOfBucket (KpiEngine.key b) rows))
           /\ KpiEngine.lines b
              = List.length (rowsOfBucket (KpiEngine.key b) rows).
Proof.
  split; [|split; [apply bucket_keys_nodup | apply bucket_entries]].
  rewrite computeBuckets_unfold.
  pose proof (stableSort_sorted largerFirst largerFirst_total
                largerFirst_trans
                (map toBucket
                   (fold_left (aggStep bucketOf addToBucket (0%Q, 0)) rows [])))
    as Hs.
  revert Hs. generalize (stableSort largerFirst
    (map toBucket (fold_left (aggStep bucketOf addToBucket (0%Q, 0)) rows []))).
  intros l Hs. induction Hs as [|a l Hs IH Hall]; constructor; [exact IH|].
  eapply Forall_impl; [|exact Hall]. intros b Hb. unfold largerFirst in Hb.
  apply Qleb_true in Hb. lra.
Qed.

Example buckets_of_sample_rows :
  map (fun b => (KpiEngine.key b, KpiEngine.total b, KpiEngine.lines b))
      (computeBuckets bucketRows)
  = [(str "3.7", 699%Q, 1); (str "3.1", (195 # 2)%Q, 2)].
Proof. vm_compute. reflexivity. Qed.

Local Open Scope Z_scope.

(** ** The value of an income-statement row *)

Local Open Scope Q_scope.

Lemma Qabs_cases (x : Q) :
  (0 <= x /\ Qabs x == x) \/ (x < 0 /\ Qabs x == - x).
Proof.
  destruct (Qlt_le_dec x 0) as [H|H].
  - right. split; [exact H|]. apply Qabs_neg. lra.
  - left. split; [exact H|]. apply Qabs_pos. exact H.
Qed.

Lemma tiny_value : tiny == 1 # 1000000000.
Proof. reflexivity. Qed.

Lemma dreValue_zero_iff (r : NormalizedBaseRow) (prefer : KpiEngine.Prefer) :
  KpiEngine.dreValue r prefer == 0
  <-> negligible (n_credito r) /\ negligible (n_debito r)
      /\ negligible (n_saldoAtual r) /\ negligible (n_saldoAnterior r).
Proof.
  unfold KpiEngine.dreValue, negligible. cbv zeta.
  generalize (KpiEngine.numFromAny (n_credito r)) as cred.
  generalize (KpiEngine.numFromAny (n_debito r)) as deb.
  generalize (KpiEngine.numFromAny (n_saldoAtual r)) as sa.
  generalize (KpiEngine.numFromAny (n_saldoAnterior r)) as sb.
  intros sb sa deb cred.
  pose proof tiny_value as Ht.
  destruct (Qabs_cases cred) as [[? Ec]|[? Ec]];
  destruct (Qabs_cases deb) as [[? Ed]|[? Ed]];
  destruct (Qabs_cases sa) as [[? Ea]|[? Ea]];
  destruct (Qabs_cases sb) as [[? Eb]|[? Eb]];
  destruct (Qltb tiny (Qabs cred)) eqn:Hc;
  destruct (Qltb tiny (Qabs deb)) eqn:Hd;
  destruct (Qltb tiny (Qabs sa)) eqn:Ha;
  destruct (Qltb tiny (Qabs sb)) eqn:Hb;
  rewrite ?Qltb_true, ?Qltb_false in *;
  destruct prefer; cbn [orb]; split; intros; lra.
Qed.

(** X16. The value [dreValue] reads from a row is 0 exactly when all four
    numeric columns of the row are empty (at most 1e-9 in magnitude), for
    either preferred column: a row with any figure in it contributes to
    the sums of the income statement. *)
Theorem dreValue_zero_only_for_empty_rows
  (r : NormalizedBaseRow) (prefer : KpiEngine.Prefer) :
  KpiEngine.dreValue r prefer == 0
  <-> negligible (n_credito r) /\ negligible (n_debito r)
      /\ negligible (n_saldoAtual r) /\ negligible (n_saldoAnterior r).
Proof. apply dreValue_zero_iff. Qed.

Local Open Scope Z_scope.

(** ** The reported figures of a period *)

Local Open Scope Q_scope.

Lemma wholeCents_brRound (x : Q) : wholeCents (brRound x).
Proof. exists (centsOf x). apply brRound_cents. Qed.














Example net_revenue_can_be_negative :
  (receita_bruta lossEntry, deducoes lossEntry, receita_liquida lossEntry,
   lucro_bruto lossEntry, margem_bruta_pct lossEntry)
  = (100, 150, -50, Some (-80), Some 160).
Proof. vm_compute. reflexivity. Qed.


Local Open Scope Z_scope.

(** ** The magnitude correction in general *)

Local Open Scope Q_scope.

Lemma applyGluedFix_outcome (title : Title) (r : Q) (ctx : option number) :
  exists q, applyGluedFix title (Fin r) ctx = Fin q /\ FixOutcome r q.
Proof.
  unfold applyGluedFix. cbv zeta. fold (signOf r).
  destruct (Qltb (Qabs r) tiny); [exists 0; split; constructor|].
  destruct (Qltb 0 (Qabs r - 10000000)) eqn:E1;
    destruct (Qltb 0 (Qabs r - 20000000)) eqn:E2;
    rewrite ?Qltb_true in *;
    destruct title;
    repeat match goal with
           | |- context [KpiEngine.inBand ?a ?b ?c] =>
               destruct (KpiEngine.inBand a b c); cbn [andb]
           | |- context [if ?c then _ else _] =>
               destruct c; cbn [andb]
           end;
    eexists; (split; [reflexivity|]);
    first [ apply fix_zero | apply fix_same | apply fix_tenth
          | apply fix_minus; [lra | assumption] ].
Qed.

Lemma tenth_le (n : Q) : 0 <= n -> 0 <= n / 10 /\ n / 10 <= n.
Proof.
  intros H. assert (E : n / 10 * 10 == n) by field.
  revert E. generalize (n / 10). intros t E. split; lra.
Qed.

Lemma signOf_times (r m : Q) :
  0 <= m -> m <= Qabs r ->
  Qabs (signOf r * m) == m
  /\ (0 <= r -> 0 <= signOf r * m) /\ (r <= 0 -> signOf r * m <= 0).
Proof.
  intros Hm Hr. unfold signOf. destruct (Qltb r 0) eqn:E.
  - apply Qltb_true in E. split; [|split; intros; lra].
    rewrite Qabs_neg by lra. lra.
  - apply Qltb_false in E. rewrite (Qabs_pos r E) in Hr.
    split; [rewrite Qabs_pos by lra; lra|].
    split; intros; lra.
Qed.

Lemma outcome_bounds (r q : Q) :
  FixOutcome r q ->
  Qabs q <= Qabs r /\ (0 <= r -> 0 <= q) /\ (r <= 0 -> q <= 0).
Proof.
  pose proof (Qabs_nonneg r) as Hn.
  intros [| |c Hc Hpos|].
  - split; [exact Hn|]. split; intros; lra.
  - split; [lra|]. split; intros; assumption.
  - destruct (signOf_times r (Qabs r - c)) as (E & H1 & H2); [lra | lra|].
    split; [rewrite E; lra|]. split; assumption.
  - destruct (tenth_le (Qabs r) Hn) as [T1 T2].
    destruct (signOf_times r (Qabs r / 10) T1 T2) as (E & H1 & H2).
    split; [rewrite E; exact T2|]. split; assumption.
Qed.

Lemma passivo_within_envelope (r a q : Q) :
  applyGluedFix TitlePassivo (Fin r) (Some (Fin a)) = Fin q ->
  Qabs q <= envelope a.
Proof.
  pose proof (Qabs_nonneg r) as Hn. pose proof (Qabs_nonneg a) as Ha.
  pose proof tiny_value as Ht.
  assert (H0 : Qabs 0 == 0) by reflexivity.
  destruct (tenth_le (Qabs r) Hn) as [T1 T2].
  pose proof (Q.le_max_l (Qabs a * 20) 200000000) as Hm1.
  pose proof (Q.le_max_r (Qabs a * 20) 200000000) as Hm2.
  unfold applyGluedFix, envelope. cbv zeta. fold (signOf r).
  cbn [KpiEngine.ativoOf num_abs num_truthy num_scale].
  destruct (Qltb (Qabs r) tiny);
    [intros H; inversion H; subst q; destruct (Qeqb a 0); lra|].
  assert (Ez : Qeqb (Qabs a) 0 = Qeqb a 0).
  { destruct (Qeqb a 0) eqn:E.
    - apply Qeqb_true. apply Qabs_zero_iff. apply Qeqb_true, E.
    - apply Qeqb_false. intros H. apply Qeqb_false in E. apply E.
      apply Qabs_zero_iff, H. }
  rewrite Ez.
  assert (Hbound : forall m, 0 <= m -> m <= Qabs r ->
                             Qabs (signOf r * m) == m).
  { intros m H1 H2. apply (signOf_times r m H1 H2). }
  destruct (Qeqb a 0) eqn:Ea.
  - (* no assets total to compare with *)
    cbn [negb orb andb num_gtb num_ltb unsigned0].
    replace (Qltb 0 (Qabs a)) with false.
    2:{ symmetry. apply Qltb_false. apply Qeqb_true in Ez. lra. }
    destruct (KpiEngine.inBand 30000000 40000000 (Qabs r)) eqn:B3; cbn [andb].
    { apply inBand_true in B3. intros H; inversion H. subst q.
      rewrite (Hbound _ T1 T2). lra. }
    destruct (Qltb 1000000000 (Qabs r)) eqn:Eo.
    { intros H; inversion H. subst q. lra. }
    apply Qltb_false in Eo.
    destruct (Qltb 0 (Qabs r - 20000000)) eqn:E2;
      destruct (Qltb 0 (Qabs r - 10000000)) eqn:E1;
      rewrite ?Qltb_true in *;
      repeat match goal with
             | |- context [KpiEngine.inBand ?x ?y ?z] =>
                 destruct (KpiEngine.inBand x y z); cbn [andb]
             | |- context [if ?c then _ else _] => destruct c; cbn [andb]
             end;
      intros H; inversion H; subst q; rewrite ?Hbound by lra; lra.
  - apply Qeqb_false in Ea.
    assert (Hpos : 0 < Qabs a).
    { destruct (Qeq_dec (Qabs a) 0) as [E|E]; [|lra].
      exfalso. apply Ea, Qabs_zero_iff, E. }
    cbn [negb orb andb num_gtb num_ltb unsigned0 num_max].
    replace (Qltb 0 (Qabs a)) with true by (symmetry; apply Qltb_true, Hpos).
    destruct (KpiEngine.inBand 30000000 40000000 (Qabs r) &&
              (Qltb (Qabs a * (2 # 10)) (Qabs r / 10) &&
               Qltb (Qabs r / 10) (Qabs a * 5))) eqn:B3.
    { apply andb_true_iff in B3 as [B3 _]. apply inBand_true in B3.
      intros H; inversion H. rewrite (Hbound _ T1 T2). lra. }
    destruct (Qltb (Qmax (Qabs a * 20) 200000000) (Qabs r)) eqn:Eo.
    { intros H; inversion H. subst q. lra. }
    apply Qltb_false in Eo.
    destruct (Qltb 0 (Qabs r - 20000000)) eqn:E2;
      destruct (Qltb 0 (Qabs r - 10000000)) eqn:E1;
      rewrite ?Qltb_true in *;
      repeat match goal with
             | |- context [KpiEngine.inBand ?x ?y ?z] =>
                 destruct (KpiEngine.inBand x y z); cbn [andb]
             | |- context [if ?c then _ else _] => destruct c; cbn [andb]
             end;
      intros H; inversion H; subst q; rewrite ?Hbound by lra; lra.
Qed.

Lemma band_guard (lo hi cap n : Q) :
  hi - lo <= cap ->
  KpiEngine.inBand lo hi n && Qltb 0 (n - lo) && Qltb (n - lo) cap
  = KpiEngine.inBand lo hi n && Qltb 0 (n - lo).
Proof.
  intros Hcap. destruct (KpiEngine.inBand lo hi n) eqn:Hb; [|reflexivity].
  apply inBand_true in Hb. cbn [andb].
  replace (Qltb (n - lo) cap) with true; [apply andb_true_r|].
  symmetry. apply Qltb_true. lra.
Qed.

Lemma fix_copies_agree (title : Title) (raw : number) (ctx : option number) :
  applyGluedFixFromText title raw ctx = applyGluedFix title raw ctx.
Proof.
  destruct title; [apply ativo_copies_agree|].
  destruct raw as [| | | |r]; try reflexivity.
  unfold applyGluedFixFromText, applyGluedFix. cbv zeta.
  rewrite (band_guard 20000000 30000000 50000000 (Qabs r)) by lra.
  rewrite (band_guard 10000000 20000000 50000000 (Qabs r)) by lra.
  reflexivity.
Qed.

(** X17. Whatever the title and the context, the magnitude correction of
    a finite value never increases its magnitude and never changes its
    sign: the result is 0, the value itself, the value with a constant
    taken off its magnitude, or a tenth of it. For a liabilities total the
    result moreover stays within an envelope: at most the larger of 20
    times the magnitude of the assets total and 200,000,000 when an assets
    total other than 0 is given, and at most 1,000,000,000 otherwise. A
    value that is not finite is corrected to 0. *)
Theorem correction_never_inflates :
  (forall title r ctx,
      exists q, applyGluedFix title (Fin r) ctx = Fin q
                /\ Qabs q <= Qabs r
                /\ (0 <= r -> 0 <= q) /\ (r <= 0 -> q <= 0))
  /\ (forall r a q,
         applyGluedFix TitlePassivo (Fin r) (Some (Fin a)) = Fin q ->
         Qabs q <= envelope a)
  /\ (forall r q,
         applyGluedFix TitlePassivo (Fin r) None = Fin q ->
         Qabs q <= 1000000000)
  /\ (forall title raw ctx,
         isFinite raw = false -> applyGluedFix title raw ctx = Fin 0).
Proof.
  split; [|split; [|split]].
  - intros title r ctx.
    destruct (applyGluedFix_outcome title r ctx) as (q & Hq & Ho).
    exists q. split; [exact Hq|]. apply outcome_bounds, Ho.
  - exact passivo_within_envelope.
  - intros r q H. apply (passivo_within_envelope r 0 q). exact H.
  - intros title [| | | |r] ctx H; try reflexivity; discriminate.
Qed.

Lemma correction_never_inflates_witness :
  Qabs (3108254378 # 1000) <= envelope 4500000
  /\ applyGluedFix TitlePassivo (Fin 250000000) (Some (Fin 5000000)) = Fin 0
  /\ applyGluedFix TitleAtivo PInf None = Fin 0.
Proof.
  destruct correction_never_inflates as (_ & Henv & _ & Hinf).
  split; [|split].
  - apply (Henv (3108254378 # 100) 4500000). reflexivity.
  - reflexivity.
  - apply Hinf. reflexivity.
Defined.

(** X18. The copy of the magnitude correction in exactTruth.ts returns
    the same result as the one in the KPI engine for every title, every
    value and every context: the upper guards that only the engine has
    (below 9,999,999,999 and below 50,000,000) hold for every value inside
    the bands. *)
Theorem correction_copies_agree
  (title : Title) (raw : number) (ctx : option number) :
  applyGluedFixFromText title raw ctx = applyGluedFix title raw ctx.
Proof. apply fix_copies_agree. Qed.

Local Open Scope Z_scope.

(** ** The row picked as a total *)

Local Open Scope Q_scope.

Lemma sorted_head_in {V : Type} (before : V -> V -> bool) (l : list V) (x : V) :
  hd_error (stableSort before l) = Some x -> In x l.
Proof.
  intros H. apply (Permutation_in _ (stableSort_perm before l)).
  destruct (stableSort before l) as [|h t]; [discriminate|].
  inversion H. left. reflexivity.
Qed.

Lemma sorted_head_none {V : Type} (before : V -> V -> bool) (l : list V) :
  hd_error (stableSort before l) = None -> l = [].
Proof.
  intros H. destruct l as [|x l]; [reflexivity|].
  destruct (stableSort_nonempty before (x :: l)) as [y Hy]; [discriminate|].
  congruence.
Qed.

Lemma plausible_in (ativo : number) (cands : list Candidate) (x : Candidate) :
  In x (plausible ativo cands) -> In x cands.
Proof.
  unfold plausible.
  destruct (filter _ cands) as [|y l] eqn:E; [exact (fun H => H)|].
  intros H. rewrite <- E in H. apply filter_In in H. apply H.
Qed.

Lemma candidate_of_row (title : Title) (rows : list NormalizedBaseRow)
  (opts : option number) (x : Candidate) :
  In x (candidatesOf title rows opts) ->
  In (cand_r x) rows
  /\ applyGluedFix title (Fin (KpiEngine.saldoRaw (cand_r x))) opts
     = Fin (cand_fixed x)
  /\ tiny < Qabs (cand_fixed x).
Proof.
  unfold candidatesOf. intros H. apply in_flat_map in H as (r & Hr & Hx).
  assert (Hin : In r rows).
  { unfold KpiEngine.byTitleDesc, KpiEngine.byClass, KpiEngine.byBrokenPdf,
      KpiEngine.byGroup in Hr.
    repeat (apply in_app_or in Hr as [Hr|Hr]);
      try (apply filter_In in Hr; apply Hr).
    destruct title; [contradiction|]. apply filter_In in Hr. apply Hr. }
  cbv zeta in Hx.
  destruct (applyGluedFix title (Fin (KpiEngine.saldoRaw r)) opts)
    as [| | | |fixed] eqn:E; try contradiction.
  destruct (Qltb tiny (Qabs fixed)) eqn:Et; [|contradiction].
  destruct Hx as [<-|[]]. cbn [cand_r cand_fixed].
  split; [exact Hin|]. split; [exact E|]. apply Qltb_true, Et.
Qed.

Section PickedRow.

Variable log10 : Q -> Q.

Lemma byScore_in (title : Title) (l : list Candidate) (r : NormalizedBaseRow) :
  byScore log10 title l = Some r -> exists x, In x l /\ cand_r x = r.
Proof.
  unfold byScore.
  destruct (hd_error (stableSort _ l)) as [x|] eqn:E; [|discriminate].
  intros H. inversion H. exists x. split; [|reflexivity].
  eapply sorted_head_in, E.
Qed.

Lemma byScore_none (title : Title) (l : list Candidate) :
  byScore log10 title l = None -> l = [].
Proof.
  unfold byScore.
  destruct (hd_error (stableSort _ l)) as [x|] eqn:E; [discriminate|].
  intros _. eapply sorted_head_none, E.
Qed.

Lemma pickTotal_candidate (rows : list NormalizedBaseRow) (title : Title)
  (opts : option number) (r : NormalizedBaseRow) :
  pickTotal log10 rows title opts = Some r ->
  exists x, In x (candidatesOf title rows opts) /\ cand_r x = r.
Proof.
  unfold pickTotal. cbv zeta.
  destruct (candidatesOf title rows opts) as [|c cs] eqn:Ec; [discriminate|].
  set (cands := c :: cs).
  assert (Hp : forall a x, In x (plausible a cands) -> In x cands)
    by (intros a x; apply plausible_in).
  destruct title; [apply byScore_in|].
  destruct (num_gtb _ _); [|apply byScore_in].
  destruct (num_abs (KpiEngine.ativoOf opts)) as [| | | |a] eqn:Ea.
  1-4: intros H; apply byScore_in in H as (x & Hx & E);
       exists x; (split; [eapply Hp, Hx | exact E]).
  unfold bestByRelErr.
  destruct (hd_error (stableSort _ (plausible (Fin a) cands)))
    as [best|] eqn:Eb.
  - destruct (Qltb (relErr a best) (35 # 100)).
    + intros H; inversion H. exists best. split; [|reflexivity].
      eapply Hp, sorted_head_in, Eb.
    + intros H; apply byScore_in in H as (x & Hx & E).
      exists x; split; [eapply Hp, Hx | exact E].
  - intros H; apply byScore_in in H as (x & Hx & E).
    exists x; split; [eapply Hp, Hx | exact E].
Qed.

Lemma pickTotal_none (rows : list NormalizedBaseRow) (title : Title)
  (opts : option number) :
  pickTotal log10 rows title opts = None <-> candidatesOf title rows opts = [].
Proof.
  unfold pickTotal. cbv zeta. split.
  2:{ intros ->. reflexivity. }
  destruct (candidatesOf title rows opts) as [|c cs] eqn:Ec;
    [reflexivity|].
  set (cands := c :: cs).
  assert (Hne : forall a, plausible a cands <> [])
    by (intros a; apply plausible_nonempty; discriminate).
  intros H. exfalso.
  destruct title; [apply byScore_none in H; discriminate|].
  destruct (num_gtb _ _); [|apply byScore_none in H; discriminate].
  destruct (num_abs (KpiEngine.ativoOf opts)) as [| | | |a] eqn:Ea.
  1-4: apply byScore_none in H; eapply Hne, H.
  unfold bestByRelErr in H.
  destruct (hd_error (stableSort _ (plausible (Fin a) cands)))
    as [best|] eqn:Eb.
  - destruct (Qltb (relErr a best) (35 # 100)); [discriminate|].
    apply byScore_none in H. eapply Hne, H.
  - apply byScore_none in H. eapply Hne, H.
Qed.

End PickedRow.

(** X19. [pickTotal] never invents a row: what it returns is a row of its
    input whose current balance, after the magnitude correction, is
    finite and larger than 1e-9 in magnitude. It returns null exactly
    when no row is a candidate, in particular for an empty list of
    rows. This holds whatever the fall-back score does with
    [Math.log10]. *)
Theorem pickTotal_returns_a_candidate_row (log10 : Q -> Q)
  (rows : list NormalizedBaseRow) (title : Title) (opts : option number) :
  (forall r, pickTotal log10 rows title opts = Some r ->
             In r rows
             /\ exists fixed,
                  applyGluedFix title (Fin (KpiEngine.saldoRaw r)) opts
                  = Fin fixed
                  /\ tiny < Qabs fixed)
  /\ (pickTotal log10 rows title opts = None
      <-> candidatesOf title rows opts = [])
  /\ pickTotal log10 [] title opts = None.
Proof.
  split; [|split; [apply pickTotal_none | destruct title; reflexivity]].
  intros r H.
  destruct (pickTotal_candidate log10 rows title opts r H) as (x & Hx & <-).
  destruct (candidate_of_row title rows opts x Hx) as (H1 & H2 & H3).
  split; [exact H1|]. exists (cand_fixed x). split; assumption.
Qed.

Lemma pickTotal_returns_a_candidate_row_witness :
  In passivoExampleRow [passivoExampleRow]
  /\ exists fixed,
       applyGluedFix TitlePassivo
         (Fin (KpiEngine.saldoRaw passivoExampleRow)) (Some (Fin 4500000))
       = Fin fixed
       /\ tiny < Qabs fixed.
Proof.
  destruct (pickTotal_returns_a_candidate_row (fun _ => 0)
              [passivoExampleRow] TitlePassivo (Some (Fin 4500000)))
    as (H & _).
  apply H. vm_compute. reflexivity.
Defined.

Local Open Scope Z_scope.

(** * Further properties of the analysis engine *)

(** ** The first [n] of a ranking *)

Local Open Scope Q_scope.

Lemma sorted_app_order {A : Type} (R : A -> A -> Prop) (l1 l2 : list A) :
  StronglySorted R (l1 ++ l2) ->
  StronglySorted R l1
  /\ forall x y, In x l1 -> In y l2 -> R x y.
Proof.
  induction l1 as [|a l1 IH]; cbn [app]; intros H.
  - split; [constructor | intros x y []].
  - inversion H as [|? ? Hs Hall]; subst. destruct (IH Hs) as [H1 H2].
    rewrite Forall_app in Hall. destruct Hall as [Ha1 Ha2].
    split; [constructor; assumption|].
    intros x y [<-|Hx] Hy; [|apply H2; assumption].
    rewrite Forall_forall in Ha2. apply Ha2, Hy.
Qed.

(** X20. [topN] returns the [n] best elements of the array, best first:
    as many elements as the array has, up to [n]; together with the
    elements left out they are the array; an element left out never
    scores higher than one returned; and the result is ordered by
    descending score. *)
Theorem topN_selects_largest {T : Type} (arr : list T) (k : nat)
  (score : T -> Q) :
  List.length (AnalyzeEngine.topN arr k score) = Nat.min k (List.length arr)
  /\ StronglySorted (fun a b => score b <= score a)
                    (AnalyzeEngine.topN arr k score)
  /\ exists rest,
       Permutation (AnalyzeEngine.topN arr k score ++ rest) arr
       /\ forall x y, In x (AnalyzeEngine.topN arr k score) -> In y rest ->
                      score y <= score x.
Proof.
  unfold AnalyzeEngine.topN.
  set (before := fun a b : T => Qleb (score b - score a) 0).
  pose proof (stableSort_perm before arr) as Hp.
  assert (Hs : StronglySorted (fun a b => before a b = true)
                              (stableSort before arr)).
  { apply stableSort_sorted.
    - intros a b. unfold before. rewrite !Qleb_true.
      destruct (Qlt_le_dec (score a) (score b)); [right | left]; lra.
    - intros a b c. unfold before. rewrite !Qleb_true. lra. }
  revert Hp Hs. generalize (stableSort before arr). intros s Hp Hs.
  rewrite <- (firstn_skipn k s) in Hs.
  destruct (sorted_app_order _ _ _ Hs) as [H1 H2].
  split; [|split].
  - rewrite length_firstn, (Permutation_length Hp). reflexivity.
  - clear - H1. induction H1 as [|a l Hl IH Hall]; constructor; [exact IH|].
    eapply Forall_impl; [|exact Hall]. intros b Hb. unfold before in Hb.
    apply Qleb_true in Hb. lra.
  - exists (skipn k s). split; [rewrite firstn_skipn; exact Hp|].
    intros x y Hx Hy. specialize (H2 x y Hx Hy). unfold before in H2.
    apply Qleb_true in H2. lra.
Qed.

(** ** The key of an account in the variation map *)

Local Open Scope nat_scope.

Lemma digits_then_bar (c c' x y : jsstring) :
  forallb isDigit c = true -> forallb isDigit c' = true ->
  c ++ "|"%char :: x = c' ++ "|"%char :: y -> c = c' /\ x = y.
Proof.
  revert c'. induction c as [|a c IH]; intros [|a' c'] Hc Hc' E;
    cbn [app forallb] in *.
  - inversion E. auto.
  - inversion E; subst a'. apply andb_true_iff in Hc' as [Ha _]. discriminate.
  - inversion E; subst a. apply andb_true_iff in Hc as [Ha _]. discriminate.
  - inversion E; subst a'.
    apply andb_true_iff in Hc as [_ Hc]. apply andb_true_iff in Hc' as [_ Hc'].
    destruct (IH c' Hc Hc' H1) as [-> ->]. auto.
Qed.

Lemma trim_digits (c : jsstring) : forallb isDigit c = true -> trim c = c.
Proof.
  intros H. apply trim_of_trimmed. split.
  - destruct c as [|a c]; [reflexivity|]. cbn [forallb] in H.
    apply andb_true_iff in H as [Ha _]. apply dropWhile_fixed, digit_not_ws, Ha.
  - assert (Hr : forallb isDigit (rev c) = true).
    { rewrite forallb_forall in *. intros x Hx. apply H, in_rev, Hx. }
    destruct (rev c) as [|a r]; [reflexivity|]. cbn [forallb] in Hr.
    apply andb_true_iff in Hr as [Ha _]. apply dropWhile_fixed, digit_not_ws, Ha.
Qed.

(** X21. Two rows get the same key in the variation map only if they
    agree on the code and on the description up to case and surrounding
    blanks: for codes made of digits, as the parser extracts them, equal
    keys mean equal codes and equal upper-cased trimmed descriptions; and
    the key of a row with a code is never the key of a row without. *)
Theorem mkKey_separates_accounts :
  (forall c c' d d',
      forallb isDigit c = true -> forallb isDigit c' = true ->
      c <> [] -> c' <> [] ->
      mkKey (Some c) d = mkKey (Some c') d' ->
      c = c' /\ keyDescription d = keyDescription d')
  /\ (forall c d d',
         forallb isDigit c = true -> c <> [] ->
         mkKey (Some c) d <> mkKey None d')
  /\ (forall d d', mkKey None d = mkKey None d'
                   -> keyDescription d = keyDescription d').
Proof.
  split; [|split].
  - intros c c' d d' Hc Hc' Hne Hne'. unfold mkKey. cbn [strOr].
    rewrite (trim_digits c Hc), (trim_digits c' Hc').
    replace (nonEmpty c) with true by (destruct c; [contradiction|reflexivity]).
    replace (nonEmpty c') with true
      by (destruct c'; [contradiction|reflexivity]).
    fold (keyDescription d). fold (keyDescription d').
    intros E. apply app_inv_head in E.
    apply (digits_then_bar c c') in E as [E1 E2]; [|assumption|assumption].
    split; [exact E1|]. apply (app_inv_head (str "D:")). exact E2.
  - intros c d d' Hc Hne. unfold mkKey. cbn [strOr].
    rewrite (trim_digits c Hc), trim_nil.
    destruct c as [|a c]; [contradiction|]. cbn [nonEmpty].
    cbn [str list_ascii_of_string app]. discriminate.
  - intros d d'. unfold mkKey. cbn [strOr]. rewrite trim_nil. cbn [nonEmpty].
    cbn [str list_ascii_of_string app]. intros E. inversion E as [E'].
    exact E'.
Qed.

Lemma mkKey_separates_accounts_witness :
  keyDescription (Some (str " caixa ")) = keyDescription (Some (str "CAIXA"))
  /\ mkKey (Some (str "11")) (Some (str "Caixa"))
     <> mkKey None (Some (str "Caixa")).
Proof.
  destruct mkKey_separates_accounts as (Hsame & Hdiff & _). split.
  - apply (Hsame (str "11") (str "11")); try reflexivity; try discriminate.
  - apply Hdiff; [reflexivity | discriminate].
Defined.

Local Open Scope Z_scope.

(** * Totals of assets and liabilities by period *)

Local Open Scope Q_scope.

Lemma wholeCents_fixed (z : Z) : brRound (inject_Z z / 100) == inject_Z z / 100.
Proof. rewrite brRound_cents, centsOf_of_cents. reflexivity. Qed.

Lemma envelope_cents (a : Q) :
  wholeCents a -> wholeCents (envelope a) /\ 0 <= envelope a.
Proof.
  intros [z Hz]. unfold envelope.
  destruct (Qeqb a 0).
  - split; [exists 100000000000%Z; reflexivity | discriminate].
  - assert (Ha : exists k : Z, Qabs a * 20 == inject_Z k / 100).
    { destruct (Qabs_cases a) as [[_ E]|[_ E]].
      - exists (z * 20)%Z. rewrite E, Hz, inject_Z_mult.
        replace (inject_Z 20) with 20 by reflexivity. field.
      - exists (- z * 20)%Z. rewrite E, Hz, inject_Z_mult, inject_Z_opp.
        replace (inject_Z 20) with 20 by reflexivity. field. }
    split.
    + destruct Ha as [k Hk].
      destruct (Q.max_spec (Qabs a * 20) 200000000) as [[_ E]|[_ E]].
      * exists 20000000000%Z. rewrite E. reflexivity.
      * exists k. rewrite E. exact Hk.
    + apply Qle_trans with 200000000; [discriminate | apply Q.le_max_r].
Qed.

Lemma brRound_within (q bound : Q) :
  wholeCents bound -> Qabs q <= bound -> Qabs (brRound q) <= bound.
Proof.
  intros [z Hz] Hq. apply Qabs_Qle_condition in Hq as [Hlo Hhi].
  apply Qabs_Qle_condition. split.
  - apply brRound_monotone in Hlo.
    assert (E : - bound == inject_Z (- z) / 100).
    { rewrite Hz, inject_Z_opp. field. }
    rewrite (brRound_proper _ _ E), wholeCents_fixed, <- E in Hlo. exact Hlo.
  - apply brRound_monotone in Hhi.
    rewrite (brRound_proper _ _ Hz), wholeCents_fixed, <- Hz in Hhi. exact Hhi.
Qed.

Lemma groupByPeriod_without_periods keep (base : list NormalizedBaseRow) :
  (forall r, In r base -> period r = []) -> groupByPeriod keep base = [].
Proof.
  unfold groupByPeriod. intros Hall.
  match goal with
  | |- fold_left ?f base [] = [] =>
      enough (H : forall m, fold_left f base m = m) by apply H
  end.
  induction base as [|r base IH]; intros m; [reflexivity|].
  cbn [fold_left]. rewrite (Hall r (or_introl eq_refl)).
  cbn [nonEmpty negb orb].
  apply IH. intros r' Hr'. apply Hall. right. exact Hr'.
Qed.

Section BalanceEntries.

Variable log10 : Q -> Q.
Variable numberToString : Q -> jsstring.

Lemma balanceEntry_period p rows :
  bal_period (fst (balanceEntry log10 numberToString p rows)) = p.
Proof. reflexivity. Qed.

Lemma balanceEntry_facts (p : jsstring) (rows : list NormalizedBaseRow) :
  let e := fst (balanceEntry log10 numberToString p rows) in
  bal_year e = firstYear rows
  /\ wholeCents (bal_ativo_total e) /\ wholeCents (bal_passivo_total e)
  /\ Qabs (bal_passivo_total e) <= envelope (bal_ativo_total e)
  /\ (pickTotal log10 rows TitleAtivo None = None ->
      bal_ativo_total e = 0
      /\ In (noteNoAtivo p)
            (snd (balanceEntry log10 numberToString p rows)))
  /\ (pickTotal log10 rows TitlePassivo (Some (Fin (bal_ativo_total e)))
      = None ->
      bal_passivo_total e = 0
      /\ In (noteNoPassivo p)
            (snd (balanceEntry log10 numberToString p rows))).
Proof.
  intros e. subst e. unfold balanceEntry. cbn [fst snd bal_year
    bal_ativo_total bal_passivo_total].
  set (ativoRow := pickTotal log10 rows TitleAtivo None).
  set (ativo_total := brRound (finiteOr0 (applyGluedFix TitleAtivo _ None))).
  set (passivoRow := pickTotal log10 rows TitlePassivo _).
  set (passivo_raw := KpiEngine.numFromAny (KpiEngine.saldoOf passivoRow)).
  split; [reflexivity|].
  split; [apply wholeCents_brRound|].
  split; [apply wholeCents_brRound|].
  split; [|split].
  - destruct (applyGluedFix_outcome TitlePassivo passivo_raw
                (Some (Fin ativo_total))) as (q & Eq & _).
    rewrite Eq. cbn [finiteOr0].
    apply brRound_within.
    + apply envelope_cents, wholeCents_brRound.
    + eapply passivo_within_envelope, Eq.
  - intros Hnone. split.
    + subst ativo_total. fold ativoRow in Hnone. rewrite Hnone. reflexivity.
    + fold ativoRow in Hnone. rewrite Hnone. left. reflexivity.
  - intros Hnone. fold passivoRow in Hnone. split.
    + subst passivo_raw. rewrite Hnone. reflexivity.
    + rewrite Hnone. apply in_or_app. right. left. reflexivity.
Qed.

Lemma balance_entries (base : list NormalizedBaseRow) :
  let res := computeBalanceTotalsFromBase log10 numberToString base in
  bal_byPeriod res
  = map (fun '(p, rows) => fst (balanceEntry log10 numberToString p rows))
        (groupByPeriod (fun _ => true) base)
  /\ forall p rows, In (p, rows) (groupByPeriod (fun _ => true) base) ->
                    incl (snd (balanceEntry log10 numberToString p rows))
                         (bal_notes res).
Proof.
  intros res. subst res. unfold computeBalanceTotalsFromBase.
  cbv zeta. cbn [bal_byPeriod bal_notes].
  generalize (groupByPeriod (fun _ => true) base). intros groups.
  split.
  - rewrite map_map. apply map_ext. intros [p rows]. reflexivity.
  - intros p rows Hin note Hnote.
    assert (H : In note
                  (flat_map snd
                     (map (fun '(p0, rows0) =>
                             balanceEntry log10 numberToString p0 rows0)
                          groups))).
    { apply in_flat_map. exists (balanceEntry log10 numberToString p rows).
      split; [|exact Hnote].
      apply in_map_iff. exists (p, rows). split; [reflexivity | exact Hin]. }
    destruct (map fst _); [apply in_or_app; left|]; exact H.
Qed.

End BalanceEntries.

(** X22. [computeBalanceTotalsFromBase] reports one entry for each period
    that base rows name, in the order of the loop that groups the rows.
    In an entry the year is the first year among the period's rows, both
    totals are whole cents, and the liabilities total stays within the
    bound that the correction applies: a thousand million when the assets
    total is zero, and otherwise twenty times the assets total or two
    hundred million, whichever is larger. A total for which no row is
    picked is reported as zero, with a note that names the period. A base
    without periods gives no entry and the one note that says so. *)
Theorem balance_totals_by_period (log10 : Q -> Q)
  (numberToString : Q -> jsstring) (base : list NormalizedBaseRow) :
  let res := computeBalanceTotalsFromBase log10 numberToString base in
  map bal_period (bal_byPeriod res)
  = map fst (groupByPeriod (fun _ => true) base)
  /\ (forall e, In e (bal_byPeriod res) ->
        let rows := rowsOfPeriod (fun _ => true) (bal_period e) base in
        rows <> []
        /\ bal_year e = firstYear rows
        /\ wholeCents (bal_ativo_total e)
        /\ wholeCents (bal_passivo_total e)
        /\ Qabs (bal_passivo_total e) <= envelope (bal_ativo_total e)
        /\ (pickTotal log10 rows TitleAtivo None = None ->
            bal_ativo_total e = 0
            /\ In (noteNoAtivo (bal_period e)) (bal_notes res))
        /\ (pickTotal log10 rows TitlePassivo
                      (Some (Fin (bal_ativo_total e))) = None ->
            bal_passivo_total e = 0
            /\ In (noteNoPassivo (bal_period e)) (bal_notes res)))
  /\ ((forall r, In r base -> period r = []) ->
      bal_byPeriod res = [] /\ bal_notes res = [noteNoPeriods]).
Proof.
  intros res.
  destruct (balance_entries log10 numberToString base) as [Hby Hnotes].
  fold res in Hby, Hnotes.
  split; [|split].
  - rewrite Hby, map_map. apply map_ext. intros [p rows]. reflexivity.
  - intros e He rows. rewrite Hby in He. apply in_map_iff in He.
    destruct He as ([p rs] & <- & Hin).
    pose proof (Hnotes p rs Hin) as Hincl.
    apply groupByPeriod_entries in Hin as [Hne Ers].
    subst rows. rewrite balanceEntry_period. rewrite <- Ers.
    destruct (balanceEntry_facts log10 numberToString p rs)
      as (Hy & Ha & Hp & Henv & Hna & Hnp).
    split; [exact Hne|]. split; [exact Hy|]. split; [exact Ha|].
    split; [exact Hp|]. split; [exact Henv|]. split.
    + intros H. destruct (Hna H) as [E Hn]. split; [exact E | apply Hincl, Hn].
    + intros H. destruct (Hnp H) as [E Hn]. split; [exact E | apply Hincl, Hn].
  - intros Hall. subst res. unfold computeBalanceTotalsFromBase.
    assert (E : groupByPeriod (fun _ => true) base = []).
    { apply groupByPeriod_without_periods, Hall. }
    rewrite E. split; reflexivity.
Qed.

Lemma balance_totals_by_period_witness :
  let res := computeBalanceTotalsFromBase (fun _ => 0) (fun _ => [])
               [mkNorm [] None None None (Some (str "Caixa")) None
                       VAbsent VAbsent VAbsent VAbsent None] in
  bal_byPeriod res = [] /\ bal_notes res = [noteNoPeriods].
Proof.
  apply (balance_totals_by_period (fun _ => 0) (fun _ => [])
           [mkNorm [] None None None (Some (str "Caixa")) None
                   VAbsent VAbsent VAbsent VAbsent None]).
  intros r [<- | []]. reflexivity.
Defined.

Local Open Scope Z_scope.

(** * The money parser of the text path *)

Local Open Scope Q_scope.














(** A minus sign is not part of the pattern of the text path: it reads
    the figure without it, where the parser of the balance sheet reads a
    negative amount. *)
Example minus_sign_is_not_read :
  ExactTruth.moneyReMatches (str "-1.234,56") = [str "1.234,56"]
  /\ moneyMatches (str "-1.234,56") = [str "-1.234,56"].
Proof. split; reflexivity. Qed.

Local Open Scope Z_scope.

(** * The line of a total in the text of the PDF *)

Local Open Scope Z_scope.

Section FirstBest.

Context {V : Type} (before : V -> V -> bool).

Hypothesis before_total : forall a b, before a b = true \/ before b a = true.
Hypothesis before_trans :
  forall a b c, before a b = true -> before b c = true -> before a c = true.

(** The head of the sorted list is the first of the elements that no
    other element goes strictly in front of. *)
Lemma stableSort_head_first (l : list V) (x : V) :
  hd_error (stableSort before l) = Some x ->
  exists pre post,
    l = pre ++ x :: post
    /\ (forall y, In y pre -> before y x = false)
    /\ (forall y, In y post -> before x y = true).
Proof.
  revert x. induction l as [|a l IH]; intros x; [discriminate|].
  cbn [stableSort fold_right]. fold (stableSort before l).
  destruct (stableSort before l) as [|h t] eqn:Es.
  - cbn. intros H. inversion H; subst a.
    assert (l = []) as ->.
    { pose proof (stableSort_perm before l) as Hp. rewrite Es in Hp.
      apply Permutation_nil, Hp. }
    exists [], []. split; [reflexivity|]. split; intros y [].
  - cbn [insertSorted].
    assert (Hh : hd_error (stableSort before l) = Some h)
      by (rewrite Es; reflexivity).
    destruct (before a h) eqn:E; cbn [hd_error]; intros H; inversion H; subst.
    + exists [], l. split; [reflexivity|]. split; [intros y []|].
      intros y Hy.
      destruct (stableSort_head before before_total before_trans l h Hh)
        as [_ Hall].
      eapply before_trans; [exact E | apply Hall, Hy].
    + destruct (IH x eq_refl) as (pre & post & -> & Hpre & Hpost).
      exists (a :: pre), post. split; [reflexivity|]. split; [|exact Hpost].
      intros y [<-|Hy]; [exact E | apply Hpre, Hy].
Qed.

End FirstBest.

Lemma lineCandidates_filter (lines : list jsstring) (title : Title) :
  lineCandidates lines title
  = map (candidateOf title) (filter (qualifies title) lines).
Proof.
  unfold lineCandidates. induction lines as [|l lines IH]; [reflexivity|].
  cbn [flat_map filter]. rewrite IH. unfold qualifies at 2.
  destruct (includes (titleName title) (normalizeTxt l)); [|reflexivity].
  cbn [negb andb].
  destruct (List.length (ExactTruth.moneyReMatches l) <? 3)%nat eqn:E.
  - apply Nat.ltb_lt in E.
    replace (3 <=? _)%nat with false by (symmetry; apply Nat.leb_gt; exact E).
    reflexivity.
  - apply Nat.ltb_ge in E.
    replace (3 <=? _)%nat with true by (symmetry; apply Nat.leb_le; exact E).
    reflexivity.
Qed.

Lemma filter_split {A : Type} (p : A -> bool) (l : list A) (pre post : list A)
  (x : A) :
  filter p l = pre ++ x :: post ->
  exists l1 l2, l = l1 ++ x :: l2 /\ filter p l1 = pre /\ filter p l2 = post
                /\ p x = true.
Proof.
  revert pre. induction l as [|a l IH]; intros pre H.
  - destruct pre; discriminate.
  - cbn [filter] in H. destruct (p a) eqn:E.
    + destruct pre as [|b pre]; cbn [app] in H; inversion H; subst.
      * exists [], l. cbn [filter app]. auto.
      * destruct (IH pre H2) as (l1 & l2 & -> & <- & <- & Hx).
        exists (b :: l1), l2. cbn [filter app]. rewrite E. auto.
    + destruct (IH pre H) as (l1 & l2 & -> & <- & <- & Hx).
      exists (a :: l1), l2. cbn [filter app]. rewrite E. auto.
Qed.

Lemma map_split {A B : Type} (f : A -> B) (l : list A) (pre post : list B)
  (y : B) :
  map f l = pre ++ y :: post ->
  exists l1 x l2, l = l1 ++ x :: l2 /\ map f l1 = pre /\ f x = y
                  /\ map f l2 = post.
Proof.
  revert pre. induction l as [|a l IH]; intros pre H.
  - destruct pre; discriminate.
  - destruct pre as [|b pre]; cbn [map app] in H; inversion H; subst.
    + exists [], a, l. auto.
    + destruct (IH pre H2) as (l1 & x & l2 & -> & <- & <- & <-).
      exists (a :: l1), x, l2. auto.
Qed.

Lemma lineScore_bounds (title : Title) (up : jsstring) :
  0 <= lineScore title up <= 13.
Proof.
  unfold lineScore. cbv zeta.
  destruct title; cbn [ExactTruth.isPassivo negb andb];
    rewrite ?andb_false_r, ?andb_true_r;
    repeat match goal with
           | |- context [if ?c then _ else _] => destruct c
           end; lia.
Qed.

Lemma pickBestLine_none (lines : list jsstring) (title : Title) :
  pickBestLine lines title = None
  <-> existsb (qualifies title) lines = false.
Proof.
  unfold pickBestLine. rewrite lineCandidates_filter. split.
  - intros Hnone. apply sorted_head_none in Hnone.
    apply map_eq_nil in Hnone.
    induction lines as [|l lines IH]; [reflexivity|].
    cbn [filter existsb] in *.
    destruct (qualifies title l); [discriminate | apply IH, Hnone].
  - intros Hall.
    replace (filter (qualifies title) lines) with (@nil jsstring);
      [reflexivity|].
    symmetry. induction lines as [|l lines IH]; [reflexivity|].
    cbn [filter existsb] in *. apply orb_false_iff in Hall as [-> Hall].
    apply IH, Hall.
Qed.

(** X24. [pickBestLine] returns the first of the best lines. The line it
    returns is one of the lines given, names the title and has at least
    three money tokens, which are the ones returned with it; every line
    in front of it that could be chosen has a strictly lower score, and
    no line after it has a higher one. Scores lie between 0 and 13. The
    result is [null] exactly when no line names the title with three
    money tokens. *)
Theorem pickBestLine_first_of_the_best (lines : list jsstring)
  (title : Title) :
  (forall c, pickBestLine lines title = Some c ->
     c = candidateOf title (lc_line c)
     /\ qualifies title (lc_line c) = true
     /\ 0 <= lc_score c <= 13
     /\ exists front back,
          lines = front ++ lc_line c :: back
          /\ (forall l, In l front -> qualifies title l = true ->
                        lineScore title (normalizeTxt l) < lc_score c)
          /\ (forall l, In l back -> qualifies title l = true ->
                        lineScore title (normalizeTxt l) <= lc_score c))
  /\ (pickBestLine lines title = None
      <-> forall l, In l lines -> qualifies title l = false).
Proof.
  set (before := fun a b : LineCandidate => lc_score b - lc_score a <=? 0).
  assert (Htot : forall a b, before a b = true \/ before b a = true).
  { intros a b. unfold before. rewrite !Z.leb_le. lia. }
  assert (Htrans : forall a b c, before a b = true -> before b c = true ->
                                 before a c = true).
  { intros a b c. unfold before. rewrite !Z.leb_le. lia. }
  split.
  - intros c Hc. unfold pickBestLine in Hc. fold before in Hc.
    apply (stableSort_head_first before Htot Htrans) in Hc
      as (pre & post & Hsplit & Hpre & Hpost).
    rewrite lineCandidates_filter in Hsplit.
    apply map_split in Hsplit as (q1 & x & q2 & Hf & <- & Hx & <-).
    apply filter_split in Hf as (l1 & l2 & -> & <- & <- & Hq).
    subst c. cbn [candidateOf lc_line lc_score].
    split; [reflexivity|]. split; [exact Hq|].
    split; [apply lineScore_bounds|].
    exists l1, l2. split; [reflexivity|]. split.
    + intros l Hl Hql.
      assert (Hb : before (candidateOf title l) (candidateOf title x) = false).
      { apply Hpre, in_map, filter_In. split; assumption. }
      unfold before in Hb. cbn [candidateOf lc_score] in Hb.
      apply Z.leb_gt in Hb. lia.
    + intros l Hl Hql.
      assert (Hb : before (candidateOf title x) (candidateOf title l) = true).
      { apply Hpost, in_map, filter_In. split; assumption. }
      unfold before in Hb. cbn [candidateOf lc_score] in Hb.
      apply Z.leb_le in Hb. lia.
  - rewrite pickBestLine_none. split.
    + intros Hex l Hl. destruct (qualifies title l) eqn:E; [|reflexivity].
      assert (Ht : existsb (qualifies title) lines = true)
        by (apply existsb_exists; exists l; split; assumption).
      congruence.
    + intros Hall. destruct (existsb (qualifies title) lines) eqn:E;
        [|reflexivity].
      apply existsb_exists in E as (l & Hl & Hq).
      rewrite (Hall l Hl) in Hq. discriminate.
Qed.

Lemma pickBestLine_first_of_the_best_witness :
  lc_line (candidateOf TitleAtivo (str "TOTAL ATIVO 1,00 2,00 3,00"))
  = str "TOTAL ATIVO 1,00 2,00 3,00"
  /\ qualifies TitleAtivo (str "TOTAL ATIVO 1,00 2,00 3,00") = true.
Proof.
  destruct (pickBestLine_first_of_the_best
              [str "ATIVO CIRCULANTE 9,00 9,00 9,00";
               str "TOTAL ATIVO 1,00 2,00 3,00";
               str "ATIVO 4,00 5,00 6,00"] TitleAtivo) as [Hsome _].
  destruct (Hsome (candidateOf TitleAtivo (str "TOTAL ATIVO 1,00 2,00 3,00")))
    as (_ & Hq & _); [vm_compute; reflexivity|].
  split; [reflexivity | exact Hq].
Defined.

Local Open Scope Z_scope.

(** * Exact totals by period *)

Local Open Scope Q_scope.

Lemma yearOfPeriod_first (base : list NormalizedBaseRow) (p : jsstring) :
  yearOfPeriod base p = firstYear (rowsLabelled p base).
Proof.
  unfold rowsLabelled. induction base as [|r base IH]; [reflexivity|].
  cbn [yearOfPeriod filter]. destruct (str_eqb (period r) p); [|exact IH].
  cbn [firstYear]. destruct (year r); [reflexivity | exact IH].
Qed.

Lemma textFix_within_envelope (raw : number) (a : Q) :
  Qabs (finiteOr0 (applyGluedFixFromText TitlePassivo raw (Some (Fin a))))
  <= envelope a.
Proof.
  rewrite fix_copies_agree.
  assert (H0 : 0 <= envelope a).
  { unfold envelope. destruct (Qeqb a 0); [discriminate|].
    apply Qle_trans with 200000000; [discriminate | apply Q.le_max_r]. }
  destruct raw as [| | | |r]; try exact H0.
  destruct (applyGluedFix_outcome TitlePassivo r (Some (Fin a)))
    as (q & Eq & _).
  rewrite Eq. cbn [finiteOr0]. eapply passivo_within_envelope, Eq.
Qed.

Section TextTotals.

Variable log10 : Q -> Q.
Variable numberToString : Q -> jsstring.

Lemma extractTotals_yields (text p : jsstring) :
  (exists t, extractTotalsFromPdfText numberToString text p = Some t)
  <-> yieldsTotals text = true.
Proof.
  unfold extractTotalsFromPdfText, yieldsTotals. cbv zeta.
  pose proof (pickBestLine_none (splitLines text) TitleAtivo) as Ha.
  pose proof (pickBestLine_none (splitLines text) TitlePassivo) as Hp.
  destruct (pickBestLine (splitLines text) TitleAtivo) as [ca|].
  - destruct (pickBestLine (splitLines text) TitlePassivo) as [cp|].
    + split; [intros _ | eauto].
      destruct (existsb (qualifies TitleAtivo) (splitLines text));
        [|destruct Ha as [_ Ha]; discriminate Ha; reflexivity].
      destruct (existsb (qualifies TitlePassivo) (splitLines text));
        [reflexivity | destruct Hp as [_ Hp]; discriminate Hp; reflexivity].
    + rewrite (proj1 Hp eq_refl), andb_false_r.
      split; [intros [t Ht] |]; discriminate.
  - rewrite (proj1 Ha eq_refl).
    split; [intros [t Ht] |]; discriminate.
Qed.

Lemma extractTotals_facts (text p : jsstring) :
  match extractTotalsFromPdfText numberToString text p with
  | Some (a, l, _) => wholeCents a /\ wholeCents l /\ Qabs l <= envelope a
  | None => True
  end.
Proof.
  unfold extractTotalsFromPdfText. cbv zeta.
  destruct (pickBestLine (splitLines text) TitleAtivo) as [ca|];
    [|exact I].
  destruct (pickBestLine (splitLines text) TitlePassivo) as [cp|];
    [|exact I].
  split; [apply wholeCents_brRound|]. split; [apply wholeCents_brRound|].
  apply brRound_within.
  - apply envelope_cents, wholeCents_brRound.
  - apply textFix_within_envelope.
Qed.

Lemma totalsFromTexts_from (base : list NormalizedBaseRow)
  (texts : list (jsstring * jsstring))
  (T : list KpiEngine.BalanceKpiPeriod) (N : list jsstring) :
  fold_left
    (fun acc entry =>
       let '(totals, notes) := acc in
       let '(p, text) := entry in
       match extractTotalsFromPdfText numberToString text p with
       | Some (a, l, pushed) =>
           (totals ++ [KpiEngine.mkBalance p (yearOfPeriod base p) a l],
            notes ++ pushed)
       | None => (totals, notes)
       end)
    texts (T, N)
  = (T ++ entriesOfTexts numberToString base texts,
     N ++ notesOfTexts numberToString texts).
Proof.
  revert T N. induction texts as [|[p text] texts IH]; intros T N.
  - cbn. rewrite !app_nil_r. reflexivity.
  - cbn [fold_left]. unfold entriesOfTexts, notesOfTexts.
    cbn [flat_map fst snd].
    fold (entriesOfTexts numberToString base texts).
    fold (notesOfTexts numberToString texts).
    destruct (extractTotalsFromPdfText numberToString text p)
      as [[[a l] pushed]|].
    + rewrite IH, <- !app_assoc. reflexivity.
    + rewrite IH. reflexivity.
Qed.

Lemma totalsFromTexts_entries (base : list NormalizedBaseRow)
  (texts : list (jsstring * jsstring)) :
  totalsFromTexts numberToString base texts
  = (entriesOfTexts numberToString base texts,
     notesOfTexts numberToString texts).
Proof. unfold totalsFromTexts. apply totalsFromTexts_from. Qed.

Lemma entriesOfTexts_periods (base : list NormalizedBaseRow)
  (texts : list (jsstring * jsstring)) :
  map bal_period (entriesOfTexts numberToString base texts)
  = map fst (filter (fun entry => yieldsTotals (snd entry)) texts).
Proof.
  unfold entriesOfTexts. induction texts as [|[p text] texts IH];
    [reflexivity|].
  cbn [flat_map filter fst snd]. rewrite map_app, IH.
  pose proof (extractTotals_yields text p) as Hy.
  destruct (extractTotalsFromPdfText numberToString text p)
    as [[[a l] pushed]|].
  - rewrite (proj1 Hy) by eauto. reflexivity.
  - destruct (yieldsTotals text); [|reflexivity].
    destruct (proj2 Hy eq_refl) as [t Ht]. discriminate.
Qed.

Lemma entriesOfTexts_facts (base : list NormalizedBaseRow)
  (texts : list (jsstring * jsstring)) (e : KpiEngine.BalanceKpiPeriod) :
  In e (entriesOfTexts numberToString base texts) ->
  bal_year e = firstYear (rowsLabelled (bal_period e) base)
  /\ wholeCents (bal_ativo_total e) /\ wholeCents (bal_passivo_total e)
  /\ Qabs (bal_passivo_total e) <= envelope (bal_ativo_total e).
Proof.
  unfold entriesOfTexts. intros He. apply in_flat_map in He.
  destruct He as ([p text] & _ & He). cbn [fst snd] in He.
  pose proof (extractTotals_facts text p) as Hfacts.
  destruct (extractTotalsFromPdfText numberToString text p)
    as [[[a l] pushed]|]; [|destruct He].
  destruct He as [<-|[]]. cbn.
  split; [apply yearOfPeriod_first | exact Hfacts].
Qed.

Lemma notesOfTexts_none (texts : list (jsstring * jsstring)) :
  filter (fun entry => yieldsTotals (snd entry)) texts = [] ->
  notesOfTexts numberToString texts = [].
Proof.
  unfold notesOfTexts. induction texts as [|[p text] texts IH];
    [reflexivity|].
  cbn [flat_map filter fst snd].
  pose proof (extractTotals_yields text p) as Hy.
  destruct (yieldsTotals text); [discriminate|].
  destruct (extractTotalsFromPdfText numberToString text p) as [t|].
  - destruct Hy as [Hy _]. discriminate Hy. eauto.
  - exact IH.
Qed.

End TextTotals.

(** X25. Where [extractExactTotalsByPeriod] takes its totals from.
    Without texts the result is the one of [computeBalanceTotalsFromBase].
    With texts, the periods reported are the keys whose text has a line
    for the assets and a line for the liabilities, in the order of the
    keys; each entry has the first year among the base rows of its
    period, totals in whole cents, and a liabilities total within the
    bound of the correction. When no text has both lines, the totals are
    those of the base and the notes start with the one that reports the
    fall-back. *)
Theorem exact_totals_sources (log10 : Q -> Q)
  (numberToString : Q -> jsstring) (base : list NormalizedBaseRow) :
  let fromBase := computeBalanceTotalsFromBase log10 numberToString base in
  let exact := extractExactTotalsByPeriod log10 numberToString base in
  exact None = fromBase
  /\ exact (Some []) = fromBase
  /\ forall texts,
       texts <> [] ->
       let found := filter (fun entry => yieldsTotals (snd entry)) texts in
       (found = [] ->
        bal_byPeriod (exact (Some texts)) = bal_byPeriod fromBase
        /\ bal_notes (exact (Some texts))
           = noteFallback :: bal_notes fromBase)
       /\ (found <> [] ->
           map bal_period (bal_byPeriod (exact (Some texts))) = map fst found
           /\ forall e, In e (bal_byPeriod (exact (Some texts))) ->
                bal_year e = firstYear (rowsLabelled (bal_period e) base)
                /\ wholeCents (bal_ativo_total e)
                /\ wholeCents (bal_passivo_total e)
                /\ Qabs (bal_passivo_total e)
                   <= envelope (bal_ativo_total e)).
Proof.
  intros fromBase exact.
  assert (Hnone : exact None = fromBase).
  { subst exact fromBase. unfold extractExactTotalsByPeriod.
    destruct (computeBalanceTotalsFromBase log10 numberToString base).
    reflexivity. }
  split; [exact Hnone|]. split; [exact Hnone|].
  intros texts Hne found.
  pose proof (entriesOfTexts_periods numberToString base texts) as Hper.
  fold found in Hper.
  assert (Hex : exact (Some texts)
                = match entriesOfTexts numberToString base texts with
                  | _ :: _ =>
                      KpiEngine.mkBalanceResult
                        (entriesOfTexts numberToString base texts)
                        (notesOfTexts numberToString texts)
                  | [] =>
                      KpiEngine.mkBalanceResult
                        (bal_byPeriod fromBase)
                        ((notesOfTexts numberToString texts
                            ++ [noteFallback]) ++ bal_notes fromBase)
                  end).
  { subst exact. unfold extractExactTotalsByPeriod.
    destruct texts; [contradiction|].
    rewrite totalsFromTexts_entries. reflexivity. }
  rewrite Hex. clear Hex. split.
  - intros Hfound. rewrite Hfound in Hper. apply map_eq_nil in Hper.
    rewrite Hper. cbn [bal_byPeriod bal_notes].
    split; [reflexivity|].
    rewrite (notesOfTexts_none numberToString texts Hfound). reflexivity.
  - intros Hfound.
    destruct (entriesOfTexts numberToString base texts) as [|e0 es] eqn:E.
    + cbn [map] in Hper. symmetry in Hper. apply map_eq_nil in Hper.
      contradiction.
    + cbn [bal_byPeriod]. split; [exact Hper|].
      intros e He. rewrite <- E in He. eapply entriesOfTexts_facts, He.
Qed.

Lemma exact_totals_sources_witness :
  let texts := [(str "2024", str "sem totais")] in
  bal_byPeriod (extractExactTotalsByPeriod (fun _ => 0) (fun _ => []) []
                  (Some texts)) = []
  /\ bal_notes (extractExactTotalsByPeriod (fun _ => 0) (fun _ => []) []
                  (Some texts)) = [noteFallback; noteNoPeriods].
Proof.
  destruct (exact_totals_sources (fun _ => 0) (fun _ => []) [])
    as (_ & _ & Htexts).
  destruct (Htexts [(str "2024", str "sem totais")]) as [Hnone _];
    [discriminate|].
  apply Hnone. reflexivity.
Defined.

Local Open Scope Z_scope.

(** * Monthly labels and the DRE total *)

Local Open Scope Z_scope.

Lemma matchDateAt_some (s dd mm yyyy rest : jsstring) :
  matchDateAt s = Some (dd, mm, yyyy, rest) ->
  s = dd ++ "/"%char :: mm ++ "/"%char :: yyyy ++ rest
  /\ forallb isDigit dd = true /\ List.length dd = 2%nat
  /\ forallb isDigit mm = true /\ List.length mm = 2%nat
  /\ forallb isDigit yyyy = true /\ List.length yyyy = 4%nat.
Proof.
  unfold matchDateAt.
  destruct s as [|d1 [|d2 [|s1 [|m1 [|m2 [|s2 [|y1 [|y2 [|y3 [|y4 r]]]]]]]]]];
    try discriminate.
  destruct (forallb isDigit [d1; d2; m1; m2; y1; y2; y3; y4]
            && ascii_eqb s1 "/" && ascii_eqb s2 "/") eqn:E; [|discriminate].
  intros H. inversion H; subst; clear H.
  apply andb_true_iff in E as [E E2]. apply andb_true_iff in E as [E E1].
  apply ascii_eqb_eq in E1, E2. subst s1 s2.
  cbn [forallb] in E. repeat (apply andb_true_iff in E as [? E]).
  cbn [forallb app List.length].
  repeat match goal with H : isDigit _ = true |- _ => rewrite H; clear H end.
  repeat split; reflexivity.
Qed.

Lemma digit_not_T (c : ascii) : isDigit c = true -> isT c = false.
Proof. ascii_cases c. Qed.

Lemma findQuarter_without_T (s : jsstring) :
  forallb (fun c => negb (isT c)) s = true -> findQuarter s = None.
Proof.
  induction s as [|c s IH]; [reflexivity|].
  cbn [forallb]. intros H. apply andb_true_iff in H as [Hc Hs].
  cbn [findQuarter matchQuarterAt].
  destruct (isT c); [discriminate|]. apply IH, Hs.
Qed.

(** X26. A range within one month gets the label of that month, which
    [parsePeriod] reads back as that month of that year: if
    [toMonthlyLabelFromRange] returns a label, the range is two dates
    [dd/mm/yyyy] joined by two dots with the same month and year, the
    label is [yyyy-mm], and [parsePeriod] gives it the kind of a month
    with that year and that month. *)
Theorem monthly_label_reads_back (range label : jsstring) :
  toMonthlyLabelFromRange range = Some label ->
  exists d1 d2 mm yyyy,
    range = d1 ++ "/"%char :: mm ++ "/"%char :: yyyy
               ++ "."%char :: "."%char
               :: d2 ++ "/"%char :: mm ++ "/"%char :: yyyy
    /\ forallb isDigit (d1 ++ d2 ++ mm ++ yyyy) = true
    /\ List.length d1 = 2%nat /\ List.length d2 = 2%nat
    /\ List.length mm = 2%nat /\ List.length yyyy = 4%nat
    /\ label = yyyy ++ "-"%char :: mm
    /\ parsePeriod label = mkParsed KindM (digitsVal yyyy) (digitsVal mm).
Proof.
  unfold toMonthlyLabelFromRange.
  destruct (matchDateAt range) as [[[[dd1 mm1] yyyy1] r1]|] eqn:E1;
    [|discriminate].
  destruct r1 as [|p1 [|p2 rest]]; try discriminate.
  destruct (ascii_eqb p1 "." && ascii_eqb p2 ".") eqn:Ep; [|discriminate].
  destruct (matchDateAt rest) as [[[[dd2 mm2] yyyy2] r2]|] eqn:E2;
    [|discriminate].
  destruct r2; [|discriminate].
  destruct (str_eqb mm1 mm2 && str_eqb yyyy1 yyyy2) eqn:Es; [|discriminate].
  intros H. inversion H; subst label; clear H.
  apply andb_true_iff in Ep as [Ep1 Ep2]. apply ascii_eqb_eq in Ep1, Ep2.
  subst p1 p2.
  apply andb_true_iff in Es as [Em Ey]. apply str_eqb_eq in Em, Ey.
  subst mm2 yyyy2.
  apply matchDateAt_some in E1 as (-> & Hd1 & Ld1 & Hm & Lm & Hy & Ly).
  apply matchDateAt_some in E2 as (-> & Hd2 & Ld2 & _).
  exists dd1, dd2, mm1, yyyy1.
  split; [rewrite app_nil_r; reflexivity|].
  split; [rewrite !forallb_app, Hd1, Hd2, Hm, Hy; reflexivity|].
  do 4 (split; [assumption|]). split; [reflexivity|].
  destruct yyyy1 as [|a [|b [|c [|d [|]]]]]; try discriminate.
  destruct mm1 as [|m1 [|m2 [|]]]; try discriminate.
  cbn [forallb] in Hy, Hm.
  repeat (apply andb_true_iff in Hy as [? Hy]).
  repeat (apply andb_true_iff in Hm as [? Hm]).
  cbn [app]. unfold parsePeriod.
  assert (Htrim : trim [a; b; c; d; "-"%char; m1; m2]
                  = [a; b; c; d; "-"%char; m1; m2]).
  { apply trim_of_trimmed. split.
    - apply dropWhile_fixed, digit_not_ws. assumption.
    - cbn [rev app]. apply dropWhile_fixed, digit_not_ws. assumption. }
  rewrite Htrim. cbv zeta.
  rewrite findQuarter_without_T.
  - unfold matchYearMonth. cbn [forallb].
    repeat match goal with H : isDigit _ = true |- _ => rewrite H end.
    reflexivity.
  - cbn [forallb].
    repeat match goal with
           | H : isDigit _ = true |- _ =>
               rewrite (digit_not_T _ H); clear H
           end.
    reflexivity.
Qed.

Lemma monthly_label_reads_back_witness :
  exists d1 d2 mm yyyy,
    str "01/03/2024..31/03/2024"
    = d1 ++ "/"%char :: mm ++ "/"%char :: yyyy
         ++ "."%char :: "."%char
         :: d2 ++ "/"%char :: mm ++ "/"%char :: yyyy
    /\ forallb isDigit (d1 ++ d2 ++ mm ++ yyyy) = true
    /\ List.length d1 = 2%nat /\ List.length d2 = 2%nat
    /\ List.length mm = 2%nat /\ List.length yyyy = 4%nat
    /\ str "2024-03" = yyyy ++ "-"%char :: mm
    /\ parsePeriod (str "2024-03")
       = mkParsed KindM (digitsVal yyyy) (digitsVal mm).
Proof.
  apply (monthly_label_reads_back (str "01/03/2024..31/03/2024")).
  reflexivity.
Defined.

(** A range over more than one month has no monthly label. *)
Example quarter_range_has_no_monthly_label :
  toMonthlyLabelFromRange (str "01/01/2024..31/03/2024") = None.
Proof. reflexivity. Qed.

(** ** The DRE total of a period *)

Local Open Scope Q_scope.

Lemma dreAmount_nonneg (r : NormalizedBaseRow) : 0 <= dreAmount r.
Proof.
  unfold dreAmount.
  repeat match goal with
         | |- context [if ?c then _ else _] => destruct c
         end; apply Qabs_nonneg.
Qed.

Lemma dreTotal_fold (p : jsstring) (base : list NormalizedBaseRow) (s : Q) :
  fold_left
    (fun s r =>
       if negb (str_eqb (period r) p) then s
       else
         let cls :=
           AnalyzeEngine.normalizeClassification (n_classification r) in
         if negb (isClass3 cls) then s
         else
           let v := dreAmount r in
           if Qltb v (1 # 100) then s else s + v)
    base s
  == s + totalOf (map dreAmount (filter (counted p) base)).
Proof.
  revert s. induction base as [|r base IH]; intros s.
  - cbn. ring.
  - cbn [fold_left filter]. rewrite IH. unfold counted at 2. cbv zeta.
    destruct (str_eqb (period r) p); cbn [negb andb]; [|reflexivity].
    destruct (isClass3 _); cbn [negb andb]; [|reflexivity].
    destruct (Qltb (dreAmount r) (1 # 100)); cbn [negb];
      [reflexivity|].
    cbn [map totalOf fold_right]. fold (totalOf (map dreAmount
      (filter (counted p) base))). ring.
Qed.

Lemma totalOf_counted (p : jsstring) (rows : list NormalizedBaseRow) :
  Forall (fun r => counted p r = true) rows ->
  0 <= totalOf (map dreAmount rows)
  /\ (rows <> [] -> 1 # 100 <= totalOf (map dreAmount rows)).
Proof.
  induction 1 as [|r rows Hr _ [IH0 IH1]].
  - split; [apply Qle_refl | intros H; contradiction].
  - cbn [map totalOf fold_right]. fold (totalOf (map dreAmount rows)).
    unfold counted in Hr. apply andb_true_iff in Hr as [_ Hr].
    apply negb_true_iff in Hr. unfold Qltb in Hr.
    apply negb_false_iff, Qle_bool_iff in Hr.
    split; [|intros _]; lra.
Qed.

Lemma root_test_head (d : ascii) (cls : jsstring) :
  str_eqb cls [d] || str_eqb cls (d :: str ".0") || startsWith (d :: str ".") cls
  = true ->
  hd_error cls = Some d.
Proof.
  destruct cls as [|c cls]; [discriminate|].
  cbn [str_eqb startsWith hd_error]. intros H.
  apply orb_true_iff in H as [H|H]; [apply orb_true_iff in H as [H|H]|];
    apply andb_true_iff in H as [H _]; apply ascii_eqb_eq in H; subst;
    reflexivity.
Qed.

Lemma class3_is_DRE (cls : option jsstring) :
  isClass3 (AnalyzeEngine.normalizeClassification cls) = true
  <-> AnalyzeEngine.groupFromClassification cls = DRE.
Proof.
  unfold AnalyzeEngine.groupFromClassification, isClass3. cbv zeta.
  generalize (AnalyzeEngine.normalizeClassification cls). intros s.
  pose proof (root_test_head "1" s) as H1.
  pose proof (root_test_head "2" s) as H2.
  pose proof (root_test_head "3" s) as H3.
  change (str "1" ++ str ".0") with ("1"%char :: str ".0").
  change (str "2" ++ str ".0") with ("2"%char :: str ".0").
  change (str "3" ++ str ".0") with ("3"%char :: str ".0").
  change (str "1" ++ str ".") with ("1"%char :: str ".").
  change (str "2" ++ str ".") with ("2"%char :: str ".").
  change (str "3" ++ str ".") with ("3"%char :: str ".").
  change (str "1") with ["1"%char]. change (str "2") with ["2"%char].
  change (str "3") with ["3"%char]. change (str "3.0") with ("3"%char :: str ".0").
  change (str "3.") with ("3"%char :: str ".").
  destruct (str_eqb s ["3"%char] || str_eqb s ("3"%char :: str ".0")
            || startsWith ("3"%char :: str ".") s) eqn:E3.
  - specialize (H3 eq_refl).
    destruct (str_eqb s ["1"%char] || _ || _);
      [specialize (H1 eq_refl); congruence|].
    destruct (str_eqb s ["2"%char] || _ || _);
      [specialize (H2 eq_refl); congruence|].
    split; reflexivity.
  - destruct (str_eqb s ["1"%char] || _ || _); [split; discriminate|].
    destruct (str_eqb s ["2"%char] || _ || _); split; discriminate.
Qed.

(** X27. The DRE total of a period is the rounded sum, over the rows of
    the period that [groupFromClassification] places in the DRE, of the
    magnitude of the debit, else of the credit, else of the balance,
    where that is at least one cent. The total is a whole number of
    cents, never negative, and zero exactly when the period has no such
    row. *)
Theorem dre_total_counts_class3 (base : list NormalizedBaseRow)
  (p : jsstring) :
  computeDreTotalFromBase base p
  = brRound (totalOf (map dreAmount (filter (counted p) base)))
  /\ (forall r, counted p r = true <->
                period r = p
                /\ AnalyzeEngine.groupFromClassification (n_classification r)
                   = DRE
                /\ 1 # 100 <= dreAmount r)
  /\ wholeCents (computeDreTotalFromBase base p)
  /\ 0 <= computeDreTotalFromBase base p
  /\ (computeDreTotalFromBase base p == 0
      <-> filter (counted p) base = []).
Proof.
  assert (E : computeDreTotalFromBase base p
              = brRound (totalOf (map dreAmount (filter (counted p) base)))).
  { unfold computeDreTotalFromBase. apply brRound_proper.
    rewrite dreTotal_fold. ring. }
  assert (Hall : Forall (fun r => counted p r = true)
                        (filter (counted p) base)).
  { apply Forall_forall. intros r Hr. apply filter_In in Hr. tauto. }
  destruct (totalOf_counted p _ Hall) as [H0 H1].
  split; [exact E|]. split; [|split; [|split]].
  - intros r. unfold counted.
    rewrite !andb_true_iff, str_eqb_eq, class3_is_DRE, negb_true_iff.
    unfold Qltb. rewrite negb_false_iff, Qle_bool_iff. tauto.
  - rewrite E. apply wholeCents_brRound.
  - rewrite E. apply brRound_nonneg, H0.
  - rewrite E. split.
    + intros Hz. destruct (filter (counted p) base) as [|r rows] eqn:Ef;
        [reflexivity|].
      assert (Hge : 1 # 100 <= totalOf (map dreAmount (r :: rows)))
        by (apply H1; discriminate).
      apply brRound_monotone in Hge.
      replace (brRound (1 # 100)) with (1 # 100) in Hge by reflexivity.
      lra.
    + intros ->. reflexivity.
Qed.

Example dre_total_of_two_rows :
  let row cls deb :=
    mkNorm (str "2024") None (Some (str cls)) None None None
           VAbsent VAbsent (VNum (Fin deb)) VAbsent None in
  computeDreTotalFromBase
    [row "3.1.1"%string (1005 # 10); row "1.1"%string 50;
     row "3.2"%string (1 # 1000)] (str "2024") == 1005 # 10.
Proof. vm_compute. reflexivity. Qed.
